(** * OmniQ (Node client): key layout, operations layer, handler facade and
      consumer runloop, embedded from the TypeScript sources.

    Conventions of the embedding.
    - A JavaScript string is a [string]: one [ascii] per UTF-16 code unit, so
      the development covers the code units 0..255.
    - A JavaScript [number] is an IEEE-754 binary64 value, a [spec_float] of
      the Standard Library with [prec = 53] and [emax = 1024]; the result of
      [x | 0] is a signed 32-bit integer and is kept as a [Z].
    - A [throw] and a promise that rejects are a [Throw]; a promise that
      never settles is [Pending].
    - An [async] function is a function from the world to an outcome and a
      world.  The world holds the trace of what was done, the script mutex
      and the heartbeater of the job in hand.
    - The store (ioredis), the clock, the ULID source, the signal handlers,
      the event loop and the other calls of the process, which share the
      script mutex, are an environment that answers the n-th request of a
      run; every theorem quantifies over all environments. *)

From Stdlib Require Import ZArith List Bool Lia Ascii String DecimalString.
From Stdlib Require Import Floats.SpecFloat.
Import ListNotations.

Local Open Scope string_scope.
Local Open Scope Z_scope.

Set Warnings "-register-all".

(* ================================================================== *)
(** * JavaScript strings *)
(* ================================================================== *)

Module Js.

(** White space and line terminators stripped by [String.prototype.trim],
    among the code units 0..255: TAB, LF, VT, FF, CR, SP and NBSP. *)
Definition isWhiteSpace (c : ascii) : bool :=
  let n := nat_of_ascii c in
  ((9 <=? n) && (n <=? 13) || (n =? 32) || (n =? 160))%nat.

Fixpoint trimStart (s : string) : string :=
  match s with
  | EmptyString => EmptyString
  | String c r => if isWhiteSpace c then trimStart r else s
  end.

Fixpoint trimEnd (s : string) : string :=
  match s with
  | EmptyString => EmptyString
  | String c r =>
      match trimEnd r with
      | EmptyString => if isWhiteSpace c then EmptyString else String c EmptyString
      | r' => String c r'
      end
  end.

Definition trim (s : string) : string := trimEnd (trimStart s).

(** [startsWith s p]: [p] is a prefix of [s]. *)
Fixpoint startsWith (s p : string) : bool :=
  match p, s with
  | EmptyString, _ => true
  | String _ _, EmptyString => false
  | String a p', String b s' => Ascii.eqb a b && startsWith s' p'
  end.

(** [String.prototype.includes]. *)
Fixpoint includes (s p : string) : bool :=
  startsWith s p ||
  match s with
  | EmptyString => false
  | String _ r => includes r p
  end.

(** [String.prototype.toUpperCase] on the letters a..z; the other code units
    of the model have no upper-case form among the letters A..Z. *)
Definition upperChar (c : ascii) : ascii :=
  let n := nat_of_ascii c in
  if ((97 <=? n) && (n <=? 122))%nat then ascii_of_nat (n - 32) else c.

Fixpoint toUpperCase (s : string) : string :=
  match s with
  | EmptyString => EmptyString
  | String c r => String (upperChar c) (toUpperCase r)
  end.

(** Truthiness of a string: [!s] is [true] exactly for the empty string. *)
Definition truthy (s : string) : bool :=
  match s with EmptyString => false | _ => true end.

(** Decimal numeral of an integer, as [String(n)] prints an integral number
    of magnitude below 10^21. *)
Definition decimal (z : Z) : string := NilEmpty.string_of_int (Z.to_int z).

(** [String.prototype.toLowerCase] on the code units 0..255: the letters
    A..Z and the Latin-1 capitals (192..222 without the multiplication
    sign) move up by 32; no other code unit of the model changes. *)
Definition lowerChar (c : ascii) : ascii :=
  let n := nat_of_ascii c in
  if ((65 <=? n) && (n <=? 90)
      || (192 <=? n) && (n <=? 222) && negb (n =? 215))%nat
  then ascii_of_nat (n + 32)
  else c.

Fixpoint toLowerCase (s : string) : string :=
  match s with
  | EmptyString => EmptyString
  | String c r => String (lowerChar c) (toLowerCase r)
  end.

End Js.

(* ================================================================== *)
(** * JavaScript numbers *)
(* ================================================================== *)

Module JsNum.

Definition number : Type := spec_float.

Definition prec : Z := 53.
Definition emax : Z := 1024.

(** The Number value of an integer: the nearest binary64, ties to even. *)
Definition ofZ (z : Z) : number := binary_normalize prec emax z 0 false.

(** The Number value of [(-1)^s * m * 10^e] for [m >= 0], correctly
    rounded; a negative exponent divides by the exact power of ten. *)
Definition ofDecimal (s : bool) (m e : Z) : number :=
  match m with
  | Z0 => S754_zero s
  | Zpos p =>
      if 0 <=? e
      then binary_normalize prec emax (cond_Zopp s (m * 10 ^ e)) 0 s
      else SFdiv prec emax (S754_finite s p 0)
                           (S754_finite false (Z.to_pos (10 ^ (- e))) 0)
  | Zneg _ => S754_nan
  end.

Definition NaN : number := S754_nan.

(** [Number.isFinite]. *)
Definition isFinite (x : number) : bool :=
  match x with
  | S754_zero _ | S754_finite _ _ _ => true
  | S754_infinity _ | S754_nan => false
  end.

(** ToBoolean of a number: false for +0, -0 and NaN. *)
Definition truthy (x : number) : bool :=
  match x with
  | S754_zero _ | S754_nan => false
  | S754_infinity _ | S754_finite _ _ _ => true
  end.

(** [x > 0]. *)
Definition gt0 (x : number) : bool := SFltb (S754_zero false) x.

(** The integer part of a finite number, rounding toward zero
    (0 for NaN and the infinities). *)
Definition truncZ (x : number) : Z :=
  match x with
  | S754_finite s m e =>
      cond_Zopp s (if 0 <=? e then Zpos m * 2 ^ e else Zpos m / 2 ^ (- e))
  | _ => 0
  end.

(** [Math.trunc]. *)
Definition Math_trunc (x : number) : number :=
  match x with
  | S754_finite s m e =>
      if 0 <=? e then x else binary_normalize prec emax (truncZ x) 0 s
  | _ => x
  end.

(** [Math.floor]. *)
Definition Math_floor (x : number) : number :=
  match x with
  | S754_finite s m e =>
      if 0 <=? e then x
      else binary_normalize prec emax (cond_Zopp s (Zpos m) / 2 ^ (- e)) 0 false
  | _ => x
  end.

(** [Math.max] and [Math.min] of two numbers: NaN if either is NaN, and
    +0 counts as larger than -0. *)
Definition Math_max (a b : number) : number :=
  match SFcompare a b with
  | Some Lt => b
  | Some Gt => a
  | Some Eq => match a with S754_zero true => b | _ => a end
  | None => NaN
  end.

Definition Math_min (a b : number) : number :=
  match SFcompare a b with
  | Some Lt => a
  | Some Gt => b
  | Some Eq => match a with S754_zero false => b | _ => a end
  | None => NaN
  end.

Definition mul (a b : number) : number := SFmul prec emax a b.
Definition div (a b : number) : number := SFdiv prec emax a b.
Definition sub (a b : number) : number := SFsub prec emax a b.

(** [a >= b]. *)
Definition geb (a b : number) : bool := SFleb b a.

(** ToInt32, which is what [x | 0] computes: the integer part modulo 2^32,
    read as a signed 32-bit integer; NaN and the infinities give 0. *)
Definition ToInt32 (x : number) : Z :=
  let k := truncZ x mod 2 ^ 32 in
  if 2 ^ 31 <=? k then k - 2 ^ 32 else k.

(** ** Number::toString, radix 10

    A positive finite [m * 2^e] is printed with the fewest digits [s] and
    the decimal exponent [p] such that [s * 10^p] reads back as the same
    number.  The reading interval is kept in quarter units of the last
    place: the number is [4m], its upper neighbour's midpoint [4m + 2], the
    lower one [4m - 2] ([4m - 1] just above a power of two); the end points
    belong to the interval when [m] is even. *)

Definition lowMid (m : positive) (e : Z) : Z :=
  if (Zpos m =? 2 ^ 52) && (-1074 <? e) then 4 * Zpos m - 1 else 4 * Zpos m - 2.

Definition inInterval (m : positive) (lo hi a b s : Z) : bool :=
  if Z.even (Zpos m)
  then (lo * a <=? s * b) && (s * b <=? hi * a)
  else (lo * a <? s * b) && (s * b <? hi * a).

(** The candidate digits at exponent [p], if one reads back as the number. *)
Definition digitsAt (m : positive) (e p : Z) : option Z :=
  let a := 2 ^ Z.max (e - 2) 0 * 10 ^ Z.max (- p) 0 in
  let b := 10 ^ Z.max p 0 * 2 ^ Z.max (- (e - 2)) 0 in
  let x := 4 * Zpos m in
  let lo := lowMid m e in
  let hi := x + 2 in
  let s1 := (x * a) / b in
  let s2 := s1 + 1 in
  let in1 := inInterval m lo hi a b s1 in
  let in2 := inInterval m lo hi a b s2 in
  let d1 := x * a - s1 * b in
  let d2 := s2 * b - x * a in
  match in1, in2 with
  | true, true =>
      if d1 <? d2 then Some s1
      else if d2 <? d1 then Some s2
      else if Z.even s1 then Some s1 else Some s2
  | true, false => Some s1
  | false, true => Some s2
  | false, false => None
  end.

Fixpoint shortestFrom (fuel : nat) (m : positive) (e p : Z) : Z * Z :=
  match digitsAt m e p with
  | Some s => (s, p)
  | None =>
      match fuel with
      | O => (4 * Zpos m, e - 2)
      | S fuel' => shortestFrom fuel' m e (p - 1)
      end
  end.

Definition shortest (m : positive) (e : Z) : Z * Z :=
  shortestFrom 800 m e 310.

Fixpoint zeros (n : nat) : string :=
  match n with O => EmptyString | S n' => String "0" (zeros n') end.

Definition formatDigits (s p : Z) : string :=
  let d := Js.decimal s in
  let k := Z.of_nat (String.length d) in
  let n := k + p in
  if (k <=? n) && (n <=? 21) then d ++ zeros (Z.to_nat (n - k))
  else if (0 <? n) && (n <=? 21) then
    substring 0 (Z.to_nat n) d ++ "." ++ substring (Z.to_nat n) (Z.to_nat (k - n)) d
  else if (-6 <? n) && (n <=? 0) then "0." ++ zeros (Z.to_nat (- n)) ++ d
  else
    let ex := n - 1 in
    let sg := if ex <? 0 then "-" else "+" in
    if k =? 1 then d ++ "e" ++ sg ++ Js.decimal (Z.abs ex)
    else substring 0 1 d ++ "." ++ substring 1 (Z.to_nat (k - 1)) d
         ++ "e" ++ sg ++ Js.decimal (Z.abs ex).

(** [String(x)] for a number [x]. *)
Definition toString (x : number) : string :=
  match x with
  | S754_nan => "NaN"
  | S754_zero _ => "0"
  | S754_infinity s => if s then "-Infinity" else "Infinity"
  | S754_finite s m e =>
      let '(d, p) := shortest m e in
      (if s then "-" else EmptyString) ++ formatDigits d p
  end.

(** ** StringToNumber

    The string is trimmed; the empty string is +0; then come [Infinity]
    with an optional sign, a hexadecimal, octal or binary literal without
    a sign, or a decimal literal with an optional sign, fraction and
    exponent.  Anything else is NaN. *)

Definition digitOf (radix : Z) (c : ascii) : option Z :=
  let n := Z.of_nat (nat_of_ascii c) in
  let v := if (48 <=? n) && (n <=? 57) then n - 48
           else if (97 <=? n) && (n <=? 102) then n - 87
           else if (65 <=? n) && (n <=? 70) then n - 55
           else 99 in
  if v <? radix then Some v else None.

(** The longest run of digits at the head of [s], accumulated onto [acc]:
    the value, the number of digits read and the rest of the string. *)
Fixpoint digitRun (radix : Z) (s : string) (acc : Z) (cnt : nat)
  : Z * nat * string :=
  match s with
  | EmptyString => (acc, cnt, s)
  | String c r =>
      match digitOf radix c with
      | Some d => digitRun radix r (radix * acc + d) (S cnt)
      | None => (acc, cnt, s)
      end
  end.

Definition radixLiteral (radix : Z) (s : string) : number :=
  match digitRun radix s 0 0 with
  | (v, S _, EmptyString) => ofZ v
  | _ => NaN
  end.

Definition signOf (s : string) : bool * string :=
  match s with
  | String c r =>
      if Ascii.eqb c "-" then (true, r)
      else if Ascii.eqb c "+" then (false, r)
      else (false, s)
  | EmptyString => (false, s)
  end.

Definition exponentPart (s : string) : option Z :=
  match s with
  | EmptyString => Some 0
  | String c r =>
      if Ascii.eqb c "e" || Ascii.eqb c "E" then
        let '(neg, r') := signOf r in
        match digitRun 10 r' 0 0 with
        | (v, S _, EmptyString) => Some (cond_Zopp neg v)
        | _ => None
        end
      else None
  end.

Definition decimalLiteral (neg : bool) (s : string) : number :=
  let '(ip, ni, r1) := digitRun 10 s 0 0 in
  let '(mant, nf, r2) :=
    match r1 with
    | String c r => if Ascii.eqb c "." then digitRun 10 r ip 0 else (ip, O, r1)
    | EmptyString => (ip, O, r1)
    end in
  match (ni + nf)%nat with
  | O => NaN
  | S _ =>
      match exponentPart r2 with
      | Some ex => ofDecimal neg mant (ex - Z.of_nat nf)
      | None => NaN
      end
  end.

(** The radix of a literal that starts with [0x], [0o] or [0b], in either
    case of the letter, and the digits after the prefix. *)
Definition radixPrefix (t : string) : option (Z * string) :=
  match t with
  | String z (String c r) =>
      if Ascii.eqb z "0" then
        if Ascii.eqb c "x" || Ascii.eqb c "X" then Some (16, r)
        else if Ascii.eqb c "o" || Ascii.eqb c "O" then Some (8, r)
        else if Ascii.eqb c "b" || Ascii.eqb c "B" then Some (2, r)
        else None
      else None
  | _ => None
  end.

Definition StringToNumber (str : string) : number :=
  let t := Js.trim str in
  match t with
  | EmptyString => S754_zero false
  | String _ _ =>
      match radixPrefix t with
      | Some (radix, r) => radixLiteral radix r
      | None =>
          let '(neg, r) := signOf t in
          if String.eqb r "Infinity" then S754_infinity neg
          else decimalLiteral neg r
      end
  end.

End JsNum.

(* ================================================================== *)
(** * Thrown values and results *)
(* ================================================================== *)

(** What a [catch] clause receives: an [Error] object (or an instance of a
    subclass) with its [name] and [message], a value that is not an object,
    given by its [String(...)] form, or [null] or [undefined]. *)
Inductive Thrown : Type :=
| JsError (name message : string)
| JsValue (repr : string)
| JsNull
| JsUndefined.

Definition Error (msg : string) : Thrown := JsError "Error" msg.
Definition TypeError (msg : string) : Thrown := JsError "TypeError" msg.

Inductive Res (A : Type) : Type :=
| Ok (a : A)
| Throw (e : Thrown).
Arguments Ok {A} a.
Arguments Throw {A} e.

(* ================================================================== *)
(** * src/helper.ts *)
(* ================================================================== *)

Module Helper.

Definition queueBase (queueName : string) : string :=
  if Js.includes queueName "{" && Js.includes queueName "}"
  then queueName
  else "{" ++ queueName ++ "}".

Definition queueAnchor (queueName : string) : string :=
  queueBase queueName ++ ":meta".

Definition childsAnchorMax (key : string) (maxLen : nat) : Res string :=
  let k := Js.trim key in
  if negb (Js.truthy k) then
    Throw (Error "childs_anchor key is required")
  else if Js.includes k "{" || Js.includes k "}" then
    Throw (Error "childs_anchor key must not contain '{' or '}'")
  else if (maxLen <? String.length k)%nat then
    Throw (Error ("childs_anchor key too long (max "
                  ++ Js.decimal (Z.of_nat maxLen) ++ " chars)"))
  else
    Ok ("{cc:" ++ k ++ "}:meta").

(** [childsAnchor(key)], with the default [maxLen = 128]. *)
Definition childsAnchor (key : string) : Res string :=
  childsAnchorMax key 128.

End Helper.

(* ================================================================== *)
(** * JavaScript values: payloads and store replies *)
(* ================================================================== *)

Module Val.

Import JsNum.

(** QuoteJSONString: the escapes [JSON.stringify] writes inside a string. *)
Definition dquote : ascii := ascii_of_nat 34.

Definition hexDigit (n : nat) : ascii :=
  ascii_of_nat (if (n <? 10)%nat then 48 + n else 87 + n).

Definition escapeChar (c : ascii) : string :=
  let n := nat_of_ascii c in
  if (n =? 8)%nat then "\b"
  else if (n =? 9)%nat then "\t"
  else if (n =? 10)%nat then "\n"
  else if (n =? 12)%nat then "\f"
  else if (n =? 13)%nat then "\r"
  else if (n =? 34)%nat then String "\" (String dquote EmptyString)
  else if (n =? 92)%nat then "\\"
  else if (n <? 32)%nat then
    "\u00" ++ String (hexDigit (n / 16)) (String (hexDigit (n mod 16)) EmptyString)
  else String c EmptyString.

Fixpoint escape (s : string) : string :=
  match s with
  | EmptyString => EmptyString
  | String c r => escapeChar c ++ escape r
  end.

Definition quote (s : string) : string :=
  String dquote (escape s ++ String dquote EmptyString).

(** A payload handed to [publish]: the JSON values and [undefined].  An
    object lists its own enumerable properties in enumeration order. *)
Inductive JsVal : Type :=
| VUndefined
| VNull
| VBool (b : bool)
| VNum (x : number)
| VStr (s : string)
| VArr (items : list JsVal)
| VObj (props : list (string * JsVal)).

(** [payload !== null && typeof payload === "object" && !Array.isArray(payload)] *)
Definition isObjectNotArray (v : JsVal) : bool :=
  match v with VObj _ => true | _ => false end.

(** [Array.isArray(payload)] *)
Definition isArrayVal (v : JsVal) : bool :=
  match v with VArr _ => true | _ => false end.

(** SerializeJSONProperty; [None] is the result [undefined]. *)
Fixpoint serialize (v : JsVal) : option string :=
  match v with
  | VUndefined => None
  | VNull => Some "null"
  | VBool b => Some (if b then "true" else "false")
  | VNum x => Some (if isFinite x then toString x else "null")
  | VStr s => Some (quote s)
  | VArr items =>
      Some ("[" ++ String.concat ","
              ((fix elems (l : list JsVal) : list string :=
                  match l with
                  | [] => []
                  | x :: r =>
                      match serialize x with
                      | Some t => t
                      | None => "null"
                      end :: elems r
                  end) items) ++ "]")
  | VObj props =>
      Some ("{" ++ String.concat ","
              ((fix members (l : list (string * JsVal)) : list string :=
                  match l with
                  | [] => []
                  | (k, x) :: r =>
                      match serialize x with
                      | Some t => (quote k ++ ":" ++ t) :: members r
                      | None => members r
                      end
                  end) props) ++ "}")
  end.

(** [JSON.stringify(v)] inside a template or an argument list. *)
Definition JSON_stringify (v : JsVal) : string :=
  match serialize v with
  | Some t => t
  | None => "undefined"
  end.

(** What ioredis hands back for a reply: an integer, a bulk string, nil
    ([null]) or an array of replies. *)
Inductive Reply : Type :=
| RInt (z : Z)
| RStr (s : string)
| RNil
| RArr (items : list Reply).

(** [String(v)] for a reply; inside an array [join] prints [null] as the
    empty string. *)
Fixpoint toStr (v : Reply) : string :=
  match v with
  | RInt z => toString (ofZ z)
  | RStr s => s
  | RNil => "null"
  | RArr items =>
      String.concat ","
        ((fix elems (l : list Reply) : list string :=
            match l with
            | [] => []
            | x :: r =>
                match x with
                | RNil => EmptyString
                | _ => toStr x
                end :: elems r
            end) items)
  end.

(** [JSON.stringify(v)] for a reply. *)
Fixpoint toJSON (v : Reply) : string :=
  match v with
  | RInt z => toString (ofZ z)
  | RStr s => quote s
  | RNil => "null"
  | RArr items =>
      "[" ++ String.concat ","
        ((fix elems (l : list Reply) : list string :=
            match l with
            | [] => []
            | x :: r => toJSON x :: elems r
            end) items) ++ "]"
  end.

(** [res[i]]: [None] is [undefined]. *)
Definition at_ (res : list Reply) (i : nat) : option Reply := nth_error res i.

(** [String(v)] where [v] may be [undefined]. *)
Definition String_ (v : option Reply) : string :=
  match v with
  | None => "undefined"
  | Some x => toStr x
  end.

(** [String(v ?? d)]. *)
Definition StringOr (v : option Reply) (d : string) : string :=
  match v with
  | None | Some RNil => d
  | Some x => toStr x
  end.

(** [Number(v)]. *)
Definition Number_ (v : option Reply) : number :=
  match v with
  | None => NaN
  | Some (RInt z) => ofZ z
  | Some (RStr s) => StringToNumber s
  | Some RNil => S754_zero false
  | Some (RArr items) => StringToNumber (toStr (RArr items))
  end.

(** [v === s] for a string literal [s]. *)
Definition isString (v : option Reply) (s : string) : bool :=
  match v with
  | Some (RStr t) => String.eqb t s
  | _ => false
  end.

End Val.

(* ================================================================== *)
(** * The run of one task: environment, world and results *)
(* ================================================================== *)

(** The commands the client sends to the store. *)
Inductive Call : Type :=
| Evalsha (sha : string) (numkeys : Z) (keysAndArgs : list string)
| Eval (src : string) (numkeys : Z) (keysAndArgs : list string)
| Exists (key : string)
| Hget (key field : string).

(** What a run leaves in its trace: a command sent to the store, the script
    mutex taken and released, a method of [ops] called by the runloop or the
    heartbeater, a line handed to the logger, a [sleep], and the signal
    handlers installed and removed. *)
Inductive Event : Type :=
| Sent (c : Call)
| MutexLocked
| MutexReleased
| Called (method : string)
| Logged (msg : string)
| Slept (ms : JsNum.number)
| SignalsOn
| SignalsOff.

(** What a promise comes to: a value, a rejection, or nothing at all when
    it never settles. *)
Inductive Outcome (A : Type) : Type :=
| Done (r : Res A)
| Pending.
Arguments Done {A} r.
Arguments Pending {A}.

(** What the event loop does to the heartbeater of a job while the runloop
    is suspended: the promise of the immediate heartbeat settles, the
    interval timer fires, or the promise of a periodic heartbeat settles. *)
Inductive HbEvent : Type :=
| FirstSettles
| TimerFires
| TickSettles.

(** [class AsyncMutex]: the flag, and the number of calls that wait. *)
Record AsyncMutex : Type := mkMutex {
  locked : bool;
  waiters : nat
}.

(** The environment answers the n-th request of the run: the store's reply
    to a command, [Date.now()], a fresh ULID, the value of [ctrl.stop] as
    the signal handlers have left it, and the heartbeater callbacks that run
    during a suspension.  The script mutex is a static field that every call
    of the process shares: [meanwhile n mu] is what the other calls have
    made of the mutex [mu] by the time the store answers the n-th request,
    and [behind n] is the number of calls that wait behind a call that
    queued at request [n], at the moment it is woken. *)
Record Env : Type := mkEnv {
  store : nat -> Call -> Res Val.Reply;
  clock : nat -> Z;
  ulid : nat -> string;
  stopFlag : nat -> bool;
  timers : nat -> list HbEvent;
  meanwhile : nat -> AsyncMutex -> AsyncMutex;
  behind : nat -> nat
}.

(** The heartbeater of the job in hand (src/consumer.ts): the variables its
    closures share.  [timer] holds the period of a running interval timer;
    [firstPending] and [ticksPending] count the heartbeat calls that have
    been issued and have not settled; [settled] lists, oldest first, what
    the settled calls came to. *)
Record HbState : Type := mkHb {
  stopped : bool;
  lost : bool;
  timer : option JsNum.number;
  firstPending : bool;
  ticksPending : nat;
  settled : list (Res Z)
}.

Definition idleHb : HbState := mkHb true false None false 0 [].

Record World : Type := mkWorld {
  tick : nat;
  trace : list Event;
  scriptMutex : AsyncMutex;
  hb : HbState
}.

Definition withTick (w : World) (n : nat) : World :=
  mkWorld n (trace w) (scriptMutex w) (hb w).

Definition emit (w : World) (e : Event) : World :=
  mkWorld (tick w) (trace w ++ [e]) (scriptMutex w) (hb w).

Definition withMutex (w : World) (mu : AsyncMutex) : World :=
  mkWorld (tick w) (trace w) mu (hb w).

Definition withHb (w : World) (h : HbState) : World :=
  mkWorld (tick w) (trace w) (scriptMutex w) h.

Definition M (A : Type) : Type := World -> Outcome A * World.

Definition ret {A} (a : A) : M A := fun w => (Done (Ok a), w).

Definition throw {A} (e : Thrown) : M A := fun w => (Done (Throw e), w).

Definition bind {A B} (m : M A) (k : A -> M B) : M B :=
  fun w =>
    match m w with
    | (Done (Ok a), w') => k a w'
    | (Done (Throw e), w') => (Done (Throw e), w')
    | (Pending, w') => (Pending, w')
    end.

Declare Scope js_scope.
Delimit Scope js_scope with js.
Notation "x <- m ;; k" := (bind m (fun x => k))
  (at level 61, m at next level, right associativity) : js_scope.
Notation "m ;;; k" := (bind m (fun _ => k))
  (at level 61, right associativity) : js_scope.

(** [try { m } catch (e) { h e }] *)
Definition tryCatch {A} (m : M A) (h : Thrown -> M A) : M A :=
  fun w =>
    match m w with
    | (Done (Throw e), w') => h e w'
    | r => r
    end.

(** [try { m } finally { f }], for a clean-up [f] that returns normally. *)
Definition tryFinally {A} (m : M A) (f : M unit) : M A :=
  fun w =>
    match m w with
    | (Done r, w') =>
        match f w' with
        | (Done (Ok _), w'') => (Done r, w'')
        | (Done (Throw e), w'') => (Done (Throw e), w'')
        | (Pending, w'') => (Pending, w'')
        end
    | (Pending, w') => (Pending, w')
    end.

(** [AsyncMutex.lock]: takes a free mutex.  On a held one the caller joins
    the waiters and is suspended.  The calls before it hold the mutex for
    the time of one EVAL and release it in a [finally], and the store
    answers every request, so [unlock] wakes the caller when its turn has
    come: [unlock] leaves [locked] set, the caller sets it again and goes
    on, with the calls that have queued in the meantime behind it. *)
Definition lock (r : Env) : M unit :=
  fun w =>
    let mu := scriptMutex w in
    if negb (locked mu)
    then (Done (Ok tt), withMutex (emit w MutexLocked) (mkMutex true (waiters mu)))
    else
      let queued := withMutex w (mkMutex (locked mu) (S (waiters mu))) in
      let woken := withTick queued (S (tick w)) in
      (Done (Ok tt),
       withMutex (emit woken MutexLocked) (mkMutex true (behind r (tick w)))).

(** [AsyncMutex.unlock]: hands the mutex to the first waiter, or frees it. *)
Definition unlock : M unit :=
  fun w =>
    let mu := scriptMutex w in
    (Done (Ok tt),
     withMutex (emit w MutexReleased)
       match waiters mu with
       | S n => mkMutex (locked mu) n
       | O => mkMutex false O
       end).

Definition initialWorld : World := mkWorld 0 [] (mkMutex false 0) idleHb.

(* ================================================================== *)
(** * src/scripts.ts: the loaded script bundle *)
(* ================================================================== *)

Module Scripts.

Record ScriptDef : Type := mkScript {
  sha : string;
  src : string
}.

Record OmniqScripts : Type := mkScripts {
  enqueue : ScriptDef;
  reserve : ScriptDef;
  ack_success : ScriptDef;
  ack_fail : ScriptDef;
  promote_delayed : ScriptDef;
  reap_expired : ScriptDef;
  heartbeat : ScriptDef;
  pause : ScriptDef;
  resume : ScriptDef;
  retry_failed : ScriptDef;
  retry_failed_batch : ScriptDef;
  remove_job : ScriptDef;
  remove_jobs_batch : ScriptDef;
  childs_init : ScriptDef;
  child_ack : ScriptDef
}.

End Scripts.

(* ================================================================== *)
(** * src/ops.ts *)
(* ================================================================== *)

Module Ops.

Import Val JsNum Helper.
Local Open Scope js_scope.

(** [isNoScriptError]: a thrown value that is not an object is never one. *)
Definition isNoScriptError (err : Thrown) : bool :=
  match err with
  | JsError _ msg => Js.includes (Js.toUpperCase msg) "NOSCRIPT"
  | JsValue _ | JsNull | JsUndefined => false
  end.

(** [!Array.isArray(res) || res.length < n] *)
Definition shorterThan (res : Reply) (n : nat) : bool :=
  match res with
  | RArr items => (List.length items <? n)%nat
  | _ => true
  end.

Definition itemsOf (res : Reply) : list Reply :=
  match res with
  | RArr items => items
  | _ => []
  end.

Definition orDefault (o : option number) (d : number) : number :=
  match o with
  | Some x => x
  | None => d
  end.

(** [String(Math.trunc(x))] *)
Definition truncStr (x : number) : string := toString (Math_trunc x).

Definition liftRes {A} (r : Res A) : M A := fun w => (Done r, w).

Record PublishArgs : Type := mkPublishArgs {
  p_queue : string;
  p_payload : JsVal;
  p_job_id : option string;
  p_max_attempts : option number;
  p_timeout_ms : option number;
  p_backoff_ms : option number;
  p_due_ms : option number;
  p_now_ms_override : option number;
  p_gid : option string;
  p_group_limit : option number
}.

Record LeaseArgs : Type := mkLeaseArgs {
  l_queue : string;
  l_job_id : string;
  l_lease_token : string;
  l_now_ms_override : option number
}.

Record AckFailArgs : Type := mkAckFailArgs {
  f_queue : string;
  f_job_id : string;
  f_lease_token : string;
  f_error : option string;
  f_now_ms_override : option number
}.

Record ReserveJob : Type := mkReserveJob {
  job_id : string;
  payload : string;
  lock_until_ms : Z;
  attempt : Z;
  gid : string;
  lease_token : string
}.

Inductive ReserveResult : Type :=
| ReserveNull
| ReservePaused
| ReserveJobOf (job : ReserveJob).

Inductive AckFailResult : Type :=
| RETRY (due_ms : Z)
| FAILED.

(** The rows of a batch reply: [job_id, status, (reason)] repeated. *)
Fixpoint batchRows (res : list Reply) : list (string * string * option string) :=
  match res with
  | [] => []
  | a :: rest =>
      let job_id := StringOr (Some a) EmptyString in
      match rest with
      | [] => [(job_id, EmptyString, None)]
      | b :: rest' =>
          let status := StringOr (Some b) EmptyString in
          if String.eqb status "ERR" then
            match rest' with
            | [] => [(job_id, status, Some "UNKNOWN")]
            | c :: rest'' =>
                (job_id, status, Some (StringOr (Some c) "UNKNOWN"))
                  :: batchRows rest''
            end
          else (job_id, status, None) :: batchRows rest'
      end
  end.

(** [OmniqOps.paused_backoff_s] *)
Definition paused_backoff_s (poll_interval_s : number) : number :=
  Math_max (ofDecimal false 25 (-2)) (mul poll_interval_s (ofZ 10)).

(** [OmniqOps.derive_heartbeat_interval_s] *)
Definition derive_heartbeat_interval_s (timeout_ms : number) : number :=
  let half := Math_max (ofZ 1) (div (div timeout_ms (ofZ 1000)) (ofZ 2)) in
  Math_max (ofZ 1) (Math_min (ofZ 10) half).

Section Client.

Variable r : Env.
Variable scripts : Scripts.OmniqScripts.

(** One command on the store connection.  The other calls of the process
    run while the answer is awaited, and they share the script mutex. *)
Definition send (c : Call) : M Reply :=
  fun w =>
    (Done (store r (tick w) c),
     withMutex (withTick (emit w (Sent c)) (S (tick w)))
       (meanwhile r (tick w) (scriptMutex w))).

(** [nowMs()] of src/clock.ts. *)
Definition nowMs : M number :=
  fun w =>
    (Done (Ok (ofZ (clock r (tick w)))), withTick w (S (tick w))).

(** [newUlid()] of src/ids.ts. *)
Definition newUlid : M string :=
  fun w =>
    (Done (Ok (ulid r (tick w))), withTick w (S (tick w))).

(** [now_ms_override || nowMs()] *)
Definition nowOr (now_ms_override : number) : M number :=
  if truthy now_ms_override then ret now_ms_override else nowMs.

Definition evalshaWithNoScriptFallback
    (sha src : string) (numkeys : Z) (keysAndArgs : list string) : M Reply :=
  tryCatch (send (Evalsha sha numkeys keysAndArgs))
    (fun err =>
       if negb (isNoScriptError err) then throw err
       else
         lock r ;;;
         tryFinally (send (Eval src numkeys keysAndArgs)) unlock).

(** The call every operation makes:
    [evalshaWithNoScriptFallback(s.sha, s.src, 1, anchor, ...argv)]. *)
Definition invoke (s : Scripts.ScriptDef) (anchor : string) (argv : list string)
  : M Reply :=
  evalshaWithNoScriptFallback (Scripts.sha s) (Scripts.src s) 1 (anchor :: argv).

Definition publish (args : PublishArgs) : M string :=
  let queue := p_queue args in
  let payload := p_payload args in
  let job_id := p_job_id args in
  let max_attempts := orDefault (p_max_attempts args) (ofZ 3) in
  let timeout_ms := orDefault (p_timeout_ms args) (ofZ 30000) in
  let backoff_ms := orDefault (p_backoff_ms args) (ofZ 5000) in
  let due_ms := orDefault (p_due_ms args) (ofZ 0) in
  let now_ms_override := orDefault (p_now_ms_override args) (ofZ 0) in
  let gid := p_gid args in
  let group_limit := orDefault (p_group_limit args) (ofZ 0) in
  let isObject := isObjectNotArray payload in
  let isArray := isArrayVal payload in
  if negb isObject && negb isArray then
    throw (TypeError
      ("publish(payload=...) must be an object or array (structured JSON). "
       ++ "Wrap strings as {text: '...'} or {value: '...'}."))
  else
    let anchor := queueAnchor queue in
    nms <- nowOr now_ms_override ;;
    jid <- match job_id with
           | Some j => if Js.truthy j then ret j else newUlid
           | None => newUlid
           end ;;
    let payload_s := JSON_stringify payload in
    let gid_s := Js.trim match gid with Some g => g | None => EmptyString end in
    let glimit_s :=
      if truthy group_limit && gt0 group_limit then truncStr group_limit
      else "0" in
    let argv :=
      [jid; payload_s; truncStr max_attempts; truncStr timeout_ms;
       truncStr backoff_ms; truncStr nms; truncStr due_ms; gid_s; glimit_s] in
    res <- invoke (Scripts.enqueue scripts) anchor argv ;;
    if shorterThan res 2 then
      throw (Error ("Unexpected ENQUEUE response: " ++ toStr res))
    else
      let status := String_ (at_ (itemsOf res) 0) in
      let out_id := String_ (at_ (itemsOf res) 1) in
      if negb (String.eqb status "OK") then
        throw (Error ("ENQUEUE failed: " ++ status))
      else ret out_id.

Definition pause (queue : string) : M string :=
  let anchor := queueAnchor queue in
  res <- invoke (Scripts.pause scripts) anchor [] ;;
  ret (toStr res).

Definition resume (queue : string) : M number :=
  let anchor := queueAnchor queue in
  res <- invoke (Scripts.resume scripts) anchor [] ;;
  let n := Number_ (Some res) in
  ret (if isFinite n then Math_trunc n else ofZ 0).

Definition is_paused (queue : string) : M bool :=
  let base := queueBase queue in
  n <- send (Exists (base ++ ":paused")) ;;
  ret (SFeqb (Number_ (Some n)) (ofZ 1)).

Definition reserve (queue : string) (now_ms_override : option number)
  : M ReserveResult :=
  let anchor := queueAnchor queue in
  nms <- nowOr (orDefault now_ms_override (ofZ 0)) ;;
  res <- invoke (Scripts.reserve scripts) anchor [truncStr nms] ;;
  if shorterThan res 1 then
    throw (Error ("Unexpected RESERVE response: " ++ toStr res))
  else
    let a := itemsOf res in
    if isString (at_ a 0) "EMPTY" then ret ReserveNull
    else if isString (at_ a 0) "PAUSED" then ret ReservePaused
    else if negb (isString (at_ a 0) "JOB") || (List.length a <? 7)%nat then
      throw (Error ("Unexpected RESERVE response: " ++ toJSON res))
    else
      ret (ReserveJobOf
             (mkReserveJob
                (String_ (at_ a 1))
                (String_ (at_ a 2))
                (ToInt32 (Number_ (at_ a 3)))
                (ToInt32 (Number_ (at_ a 4)))
                (StringOr (at_ a 5) EmptyString)
                (StringOr (at_ a 6) EmptyString))).

(** The reason of an [ERR] reply: [res.length > 1 ? String(res[1]) : "UNKNOWN"] *)
Definition reasonOf (a : list Reply) : string :=
  if (1 <? List.length a)%nat then String_ (at_ a 1) else "UNKNOWN".

Definition heartbeat (args : LeaseArgs) : M Z :=
  let anchor := queueAnchor (l_queue args) in
  nms <- nowOr (orDefault (l_now_ms_override args) (ofZ 0)) ;;
  res <- invoke (Scripts.heartbeat scripts) anchor
           [l_job_id args; truncStr nms; l_lease_token args] ;;
  if shorterThan res 1 then
    throw (Error ("Unexpected HEARTBEAT response: " ++ toStr res))
  else
    let a := itemsOf res in
    if isString (at_ a 0) "OK" then ret (ToInt32 (Number_ (at_ a 1)))
    else if isString (at_ a 0) "ERR" then
      throw (Error ("HEARTBEAT failed: " ++ reasonOf a))
    else throw (Error ("Unexpected HEARTBEAT response: " ++ toJSON res)).

Definition ack_success (args : LeaseArgs) : M unit :=
  let anchor := queueAnchor (l_queue args) in
  nms <- nowOr (orDefault (l_now_ms_override args) (ofZ 0)) ;;
  res <- invoke (Scripts.ack_success scripts) anchor
           [l_job_id args; truncStr nms; l_lease_token args] ;;
  if shorterThan res 1 then
    throw (Error ("Unexpected ACK_SUCCESS response: " ++ toStr res))
  else
    let a := itemsOf res in
    if isString (at_ a 0) "OK" then ret tt
    else if isString (at_ a 0) "ERR" then
      throw (Error ("ACK_SUCCESS failed: " ++ reasonOf a))
    else throw (Error ("Unexpected ACK_SUCCESS response: " ++ toJSON res)).

Definition ack_fail (args : AckFailArgs) : M AckFailResult :=
  let anchor := queueAnchor (f_queue args) in
  nms <- nowOr (orDefault (f_now_ms_override args) (ofZ 0)) ;;
  res <- match f_error args with
         | None =>
             invoke (Scripts.ack_fail scripts) anchor
               [f_job_id args; truncStr nms; f_lease_token args]
         | Some error =>
             if String.eqb (Js.trim error) EmptyString then
               invoke (Scripts.ack_fail scripts) anchor
                 [f_job_id args; truncStr nms; f_lease_token args]
             else
               invoke (Scripts.ack_fail scripts) anchor
                 [f_job_id args; truncStr nms; f_lease_token args; error]
         end ;;
  if shorterThan res 1 then
    throw (Error ("Unexpected ACK_FAIL response: " ++ toStr res))
  else
    let a := itemsOf res in
    if isString (at_ a 0) "RETRY" then ret (RETRY (ToInt32 (Number_ (at_ a 1))))
    else if isString (at_ a 0) "FAILED" then ret FAILED
    else if isString (at_ a 0) "ERR" then
      throw (Error ("ACK_FAIL failed: " ++ reasonOf a))
    else throw (Error ("Unexpected ACK_FAIL response: " ++ toJSON res)).

Definition promote_delayed
    (queue : string) (max_promote now_ms_override : option number) : M Z :=
  let anchor := queueAnchor queue in
  nms <- nowOr (orDefault now_ms_override (ofZ 0)) ;;
  res <- invoke (Scripts.promote_delayed scripts) anchor
           [truncStr nms; truncStr (orDefault max_promote (ofZ 1000))] ;;
  if shorterThan res 2 || negb (isString (at_ (itemsOf res) 0) "OK") then
    throw (Error ("Unexpected PROMOTE_DELAYED response: " ++ toJSON res))
  else ret (ToInt32 (Number_ (at_ (itemsOf res) 1))).

Definition reap_expired
    (queue : string) (max_reap now_ms_override : option number) : M Z :=
  let anchor := queueAnchor queue in
  nms <- nowOr (orDefault now_ms_override (ofZ 0)) ;;
  res <- invoke (Scripts.reap_expired scripts) anchor
           [truncStr nms; truncStr (orDefault max_reap (ofZ 1000))] ;;
  if shorterThan res 2 || negb (isString (at_ (itemsOf res) 0) "OK") then
    throw (Error ("Unexpected REAP_EXPIRED response: " ++ toJSON res))
  else ret (ToInt32 (Number_ (at_ (itemsOf res) 1))).

Definition job_timeout_ms
    (queue job_id : string) (default_ms : option number) : M number :=
  let base := queueBase queue in
  let k_job := base ++ ":job:" ++ job_id in
  v <- send (Hget k_job "timeout_ms") ;;
  let n := Number_ (Some v) in
  ret (if isFinite n && gt0 n then Math_trunc n
       else Math_trunc (orDefault default_ms (ofZ 60000))).

Definition retry_failed
    (queue job_id : string) (now_ms_override : option number) : M unit :=
  let anchor := queueAnchor queue in
  nms <- nowOr (orDefault now_ms_override (ofZ 0)) ;;
  res <- invoke (Scripts.retry_failed scripts) anchor [job_id; truncStr nms] ;;
  if shorterThan res 1 then
    throw (Error ("Unexpected RETRY_FAILED response: " ++ toStr res))
  else
    let a := itemsOf res in
    if isString (at_ a 0) "OK" then ret tt
    else if isString (at_ a 0) "ERR" then
      throw (Error ("RETRY_FAILED failed: " ++ reasonOf a))
    else throw (Error ("Unexpected RETRY_FAILED response: " ++ toJSON res)).

(** The thrown message of a batch reply that starts with [ERR]. *)
Definition batchFailure (op : string) (a : list Reply) : string :=
  let reason := String_ (at_ a 1) in
  let extra := if (2 <? List.length a)%nat then String_ (at_ a 2) else EmptyString in
  Js.trim (op ++ " failed: " ++ reason ++ " " ++ extra).

Definition retry_failed_batch
    (queue : string) (job_ids : list string) (now_ms_override : option number)
  : M (list (string * string * option string)) :=
  if (100 <? List.length job_ids)%nat then
    throw (Error "retry_failed_batch max is 100 job_ids per call")
  else
    let anchor := queueAnchor queue in
    nms <- nowOr (orDefault now_ms_override (ofZ 0)) ;;
    let argv :=
      truncStr nms :: Js.decimal (Z.of_nat (List.length job_ids)) :: job_ids in
    res <- invoke (Scripts.retry_failed_batch scripts) anchor argv ;;
    match res with
    | RArr a =>
        if (2 <=? List.length a)%nat && String.eqb (String_ (at_ a 0)) "ERR" then
          throw (Error (batchFailure "RETRY_FAILED_BATCH" a))
        else ret (batchRows a)
    | _ => throw (Error ("Unexpected RETRY_FAILED_BATCH response: " ++ toStr res))
    end.

Definition remove_job (queue job_id lane : string) : M string :=
  let anchor := queueAnchor queue in
  res <- invoke (Scripts.remove_job scripts) anchor [job_id; lane] ;;
  if shorterThan res 1 then
    throw (Error ("Unexpected REMOVE_JOB response: " ++ toStr res))
  else
    let a := itemsOf res in
    if isString (at_ a 0) "OK" then ret (StringOr (at_ a 0) EmptyString)
    else if isString (at_ a 0) "ERR" then
      throw (Error ("REMOVE_JOB failed: " ++ reasonOf a))
    else throw (Error ("Unexpected REMOVE_JOB response: " ++ toJSON res)).

Definition remove_jobs_batch
    (queue lane : string) (job_ids : list string)
  : M (list (string * string * option string)) :=
  if (100 <? List.length job_ids)%nat then
    throw (Error "remove_jobs_batch max is 100 job_ids per call")
  else
    let anchor := queueAnchor queue in
    let argv := lane :: Js.decimal (Z.of_nat (List.length job_ids)) :: job_ids in
    res <- invoke (Scripts.remove_jobs_batch scripts) anchor argv ;;
    match res with
    | RArr a =>
        if (2 <=? List.length a)%nat && String.eqb (String_ (at_ a 0)) "ERR" then
          throw (Error (batchFailure "REMOVE_JOBS_BATCH" a))
        else ret (batchRows a)
    | _ => throw (Error ("Unexpected REMOVE_JOBS_BATCH response: " ++ toStr res))
    end.

Definition childs_init (key : string) (expected : number) : M unit :=
  anchor <- liftRes (childsAnchor key) ;;
  res <- invoke (Scripts.childs_init scripts) anchor [truncStr expected] ;;
  if shorterThan res 1 then
    throw (Error ("Unexpected CHILDS_INIT response: " ++ toStr res))
  else
    let a := itemsOf res in
    if isString (at_ a 0) "OK" then ret tt
    else if isString (at_ a 0) "ERR" then
      throw (Error ("CHILDS_INIT failed: " ++ reasonOf a))
    else throw (Error ("Unexpected CHILDS_INIT response: " ++ toJSON res)).

Definition child_ack (key child_id : string) : M number :=
  anchor <- liftRes (childsAnchor key) ;;
  let cid := Js.trim child_id in
  if negb (Js.truthy cid) then throw (Error "child_ack child_id is required")
  else
    tryCatch
      (res <- invoke (Scripts.child_ack scripts) anchor [cid] ;;
       if shorterThan res 1 then ret (ofZ (-1))
       else
         let a := itemsOf res in
         if isString (at_ a 0) "OK" then
           if (List.length a <? 2)%nat then ret (ofZ (-1))
           else
             let n := Number_ (at_ a 1) in
             ret (if isFinite n then Math_trunc n else ofZ (-1))
         else ret (ofZ (-1)))
      (fun _ => ret (ofZ (-1))).

End Client.

End Ops.

(* ================================================================== *)
(** * src/exec.ts *)
(* ================================================================== *)

Module ExecFacade.

Import Val JsNum.
Local Open Scope js_scope.

(** [class Exec]; its [ops] is the client of the section below. *)
Record Exec : Type := mkExec {
  default_child_id : string
}.

(** The constructor: a missing [default_child_id] is the empty string. *)
Definition newExec (default_child_id : option string) : Exec :=
  mkExec match default_child_id with Some d => d | None => EmptyString end.

Record PublishArgs : Type := mkPublishArgs {
  p_queue : string;
  p_payload : JsVal;
  p_job_id : option string;
  p_max_attempts : option number;
  p_timeout_ms : option number;
  p_backoff_ms : option number;
  p_due_ms : option number;
  p_gid : option string;
  p_group_limit : option number
}.

Section Client.

Variable r : Env.
Variable scripts : Scripts.OmniqScripts.

Definition publish (self : Exec) (args : PublishArgs) : M string :=
  Ops.publish r scripts
    (Ops.mkPublishArgs
       (p_queue args)
       (p_payload args)
       (p_job_id args)
       (Some (Ops.orDefault (p_max_attempts args) (ofZ 3)))
       (Some (Ops.orDefault (p_timeout_ms args) (ofZ 60000)))
       (Some (Ops.orDefault (p_backoff_ms args) (ofZ 5000)))
       (Some (Ops.orDefault (p_due_ms args) (ofZ 0)))
       None
       (p_gid args)
       (Some (Ops.orDefault (p_group_limit args) (ofZ 0)))).

Definition pause (self : Exec) (queue : string) : M string :=
  Ops.pause r scripts queue.

Definition resume (self : Exec) (queue : string) : M number :=
  Ops.resume r scripts queue.

Definition is_paused (self : Exec) (queue : string) : M bool :=
  Ops.is_paused r queue.

Definition childs_init (self : Exec) (key : string) (expected : number) : M unit :=
  Ops.childs_init r scripts key (Math_trunc expected).

(** [child_id] is [None] when the caller passes nothing, [undefined] or
    [null]. *)
Definition child_ack (self : Exec) (key : string) (child_id : option string)
  : M number :=
  let cid :=
    Js.trim match child_id with
            | Some c => c
            | None => default_child_id self
            end in
  if negb (Js.truthy cid) then
    throw (Error "child_id is required (or provide default_child_id)")
  else
    n <- Ops.child_ack r scripts key cid ;;
    ret (Math_trunc n).

End Client.

End ExecFacade.

(* ================================================================== *)
(** * src/consumer.ts *)
(* ================================================================== *)

Module Consumer.

Import Val JsNum.
Local Open Scope js_scope.

Record JobCtx : Type := mkJobCtx {
  ctx_queue : string;
  ctx_job_id : string;
  ctx_payload_raw : string;
  ctx_payload : JsVal;
  ctx_attempt : Z;
  ctx_lock_until_ms : Z;
  ctx_lease_token : string;
  ctx_gid : string;
  ctx_exec : ExecFacade.Exec
}.

Record ConsumeArgs : Type := mkConsumeArgs {
  a_queue : string;
  a_poll_interval_s : option number;
  a_promote_interval_s : option number;
  a_promote_batch : option number;
  a_reap_interval_s : option number;
  a_reap_batch : option number;
  a_heartbeat_interval_s : option number;
  a_verbose : option bool;
  a_stop_on_ctrl_c : option bool;
  a_drain : option bool
}.

Definition orFlag (o : option bool) (d : bool) : bool :=
  match o with
  | Some b => b
  | None => d
  end.

Inductive Flow : Type :=
| Continue (lastPromote lastReap : number)
| Return.

(** [String((e as any)?.message ?? e)] *)
Definition messageOf (e : Thrown) : string :=
  match e with
  | JsError _ m => m
  | JsValue v => v
  | JsNull => "null"
  | JsUndefined => "undefined"
  end.

(** [(e as any)?.name ?? "Error"] *)
Definition nameOf (e : Thrown) : string :=
  match e with
  | JsError n _ => n
  | JsValue _ | JsNull | JsUndefined => "Error"
  end.

(** The message [checkLost] looks at: the [message] of [e], else [e]
    itself, else the empty string, through [String]. *)
Definition lostText (e : Thrown) : string :=
  match e with
  | JsError _ m => m
  | JsValue v => v
  | JsNull | JsUndefined => EmptyString
  end.

Definition lostMessage (msg : string) : bool :=
  Js.includes msg "NOT_ACTIVE" || Js.includes msg "TOKEN_MISMATCH".

(** [stop()] of the heartbeater: idempotent, clears the timer and resolves
    [done]; [done] is resolved exactly when [stopped] holds. *)
Definition hbStop (h : HbState) : HbState :=
  if stopped h then h
  else mkHb true (lost h) None (firstPending h) (ticksPending h) (settled h).

Definition checkLost (e : Thrown) (h : HbState) : bool * HbState :=
  if lostMessage (lostText e)
  then (true, hbStop (mkHb (stopped h) true (timer h) (firstPending h)
                        (ticksPending h) (settled h)))
  else (false, h).

(** The three characters that the source appends to a cut payload preview.
    The second one is U+20AC in the source; strings here hold code units up
    to 255, and it is written as the code unit 128. *)
Definition ellipsis : string :=
  String (ascii_of_nat 226) (String (ascii_of_nat 128)
    (String (ascii_of_nat 166) EmptyString)).

Definition payloadPreview (payload : JsVal) (maxLen : nat) : string :=
  let s := match payload with
           | VStr t => t
           | _ => JSON_stringify payload
           end in
  if (maxLen <? String.length s)%nat then substring 0 maxLen s ++ ellipsis else s.

(** [Math.max(1, Math.floor(s * 1000))] *)
Definition millis (s : number) : number :=
  Math_max (ofZ 1) (Math_floor (mul s (ofZ 1000))).

Section Loop.

Variable r : Env.
Variable scripts : Scripts.OmniqScripts.

(** [JSON.parse]; [None] when it throws. *)
Variable JSON_parse : string -> option JsVal.

Variable handler : JobCtx -> M unit.

(** [safeLog(logger, msg)]: the logger is called and what it throws is
    dropped. *)
Definition safeLog (msg : string) : M unit :=
  fun w => (Done (Ok tt), emit w (Logged msg)).

Definition logIf (verbose : bool) (msg : string) : M unit :=
  if verbose then safeLog msg else ret tt.

Definition sleep (ms : number) : M unit :=
  fun w => (Done (Ok tt), emit w (Slept ms)).

(** A read of [ctrl.stop]: the environment gives what the signal handlers
    have made of the flag by then. *)
Definition readStop : M bool :=
  fun w => (Done (Ok (stopFlag r (tick w))), withTick w (S (tick w))).

(** [Date.now()] *)
Definition dateNow : M number :=
  fun w => (Done (Ok (ofZ (clock r (tick w)))), withTick w (S (tick w))).

(** A call of a method of [ops], marked in the trace. *)
Definition called {A} (method : string) (m : M A) : M A :=
  fun w => m (emit w (Called method)).

(** ** startHeartbeater *)

Definition settle (res : Res Z) (h : HbState) (first : bool) : HbState :=
  mkHb (stopped h) (lost h) (timer h)
       (if first then false else firstPending h)
       (if first then ticksPending h else pred (ticksPending h))
       (settled h ++ [res]).

(** After the immediate heartbeat: [if (stopped) return;] and then the
    interval timer is set. *)
Definition schedule (interval_s : number) (h : HbState) : HbState :=
  if stopped h then h
  else mkHb (stopped h) (lost h) (Some (millis interval_s))
            (firstPending h) (ticksPending h) (settled h).

(** One callback of the heartbeater.  A heartbeat call is replayed whole at
    the point where its promise settles; a call that never settles is
    dropped from the pending ones. *)
Definition hbStep (lease : Ops.LeaseArgs) (interval_s : number) (ev : HbEvent)
  : World -> World :=
  fun w =>
    let h := hb w in
    match ev with
    | FirstSettles =>
        if firstPending h then
          match called "heartbeat" (Ops.heartbeat r scripts lease) w with
          | (Done res, w') =>
              let h1 := settle res (hb w') true in
              match res with
              | Throw e =>
                  let '(isLost, h2) := checkLost e h1 in
                  withHb w' (if isLost then h2 else schedule interval_s h2)
              | Ok _ => withHb w' (schedule interval_s h1)
              end
          | (Pending, w') =>
              withHb w' (mkHb (stopped h) (lost h) (timer h) false
                           (ticksPending h) (settled h))
          end
        else w
    | TimerFires =>
        match timer h with
        | Some _ =>
            if stopped h then w
            else withHb w (mkHb (stopped h) (lost h) (timer h) (firstPending h)
                             (S (ticksPending h)) (settled h))
        | None => w
        end
    | TickSettles =>
        match ticksPending h with
        | S n =>
            match called "heartbeat" (Ops.heartbeat r scripts lease) w with
            | (Done res, w') =>
                let h1 := settle res (hb w') false in
                match res with
                | Throw e => withHb w' (snd (checkLost e h1))
                | Ok _ => withHb w' h1
                end
            | (Pending, w') =>
                withHb w' (mkHb (stopped h) (lost h) (timer h) (firstPending h)
                             n (settled h))
            end
        | O => w
        end
    end.

Definition runTimers (lease : Ops.LeaseArgs) (interval_s : number)
  : World -> World :=
  fun w =>
    fold_left (fun w' ev => hbStep lease interval_s ev w')
              (timers r (tick w)) (withTick w (S (tick w))).

(** [await m] while the heartbeater of the job is alive: the callbacks the
    event loop runs during the suspension come after the effects of [m]. *)
Definition awaitJob {A} (lease : Ops.LeaseArgs) (interval_s : number) (m : M A)
  : M A :=
  fun w =>
    match m w with
    | (Done res, w') => (Done res, runTimers lease interval_s w')
    | (Pending, w') => (Pending, w')
    end.

(** [startHeartbeater]: fresh flags, and the immediate heartbeat is issued. *)
Definition startHeartbeater : M unit :=
  fun w => (Done (Ok tt), withHb w (mkHb false false None true 0 [])).

Definition stopHb : M unit :=
  fun w => (Done (Ok tt), withHb w (hbStop (hb w))).

Definition isLost : M bool :=
  fun w => (Done (Ok (lost (hb w))), w).

Definition liftHandled (handled : Res unit) : M unit :=
  fun w => (Done handled, w).

(** [await Promise.race([hb.done, sleep(100)])] *)
Definition raceDone : M unit :=
  fun w => if stopped (hb w) then (Done (Ok tt), w) else sleep (ofZ 100) w.

(** ** The body of the runloop from the handler call to the [finally] *)

Section Job.

Variable verbose : bool.
Variable queue : string.
Variable job : Ops.ReserveJob.
Variable ctx : JobCtx.
Variable hb_s : number.

Definition leaseOf : Ops.LeaseArgs :=
  Ops.mkLeaseArgs queue (Ops.job_id job) (Ops.lease_token job) None.

(** The inner [try]/[catch] around [ops.ack_success]. *)
Definition ackSuccess : M unit :=
  tryCatch
    (awaitJob leaseOf hb_s
       (called "ack_success" (Ops.ack_success r scripts leaseOf)) ;;;
     logIf verbose ("[consume] ack success job_id=" ++ ctx_job_id ctx))
    (fun e =>
       logIf verbose
         ("[consume] ack success error job_id=" ++ ctx_job_id ctx
          ++ ": " ++ messageOf e)).

(** The inner [try]/[catch] around [ops.ack_fail], for the handler's [e]. *)
Definition ackFail (e : Thrown) : M unit :=
  tryCatch
    (let errMsg := nameOf e ++ ": " ++ messageOf e in
     result <- awaitJob leaseOf hb_s
                 (called "ack_fail"
                    (Ops.ack_fail r scripts
                       (Ops.mkAckFailArgs queue (Ops.job_id job)
                          (Ops.lease_token job) (Some errMsg) None))) ;;
     if verbose then
       match result with
       | Ops.RETRY due =>
           safeLog ("[consume] ack fail job_id=" ++ ctx_job_id ctx
                    ++ " => RETRY due_ms=" ++ Js.decimal due)
       | Ops.FAILED =>
           safeLog ("[consume] ack fail job_id=" ++ ctx_job_id ctx
                    ++ " => FAILED")
       end ;;;
       safeLog ("[consume] error job_id=" ++ ctx_job_id ctx ++ " => " ++ errMsg)
     else ret tt)
    (fun e2 =>
       logIf verbose
         ("[consume] ack fail error job_id=" ++ ctx_job_id ctx
          ++ ": " ++ messageOf e2)).

(** What follows [await handler(ctx)] inside the [try]. *)
Definition onSuccess : M unit :=
  stopHb ;;;
  l <- isLost ;;
  if negb l then ackSuccess else ret tt.

(** The [catch (e)] block. *)
Definition onFailure (e : Thrown) : M unit :=
  stopHb ;;;
  l <- isLost ;;
  if negb l then ackFail e else ret tt.

Definition runJob : M unit :=
  tryFinally
    (tryCatch (awaitJob leaseOf hb_s (handler ctx) ;;; onSuccess) onFailure)
    (awaitJob leaseOf hb_s raceDone).

(** The same statement seen from the moment the handler's promise has
    settled with [handled]. *)
Definition settleJob (handled : Res unit) : M unit :=
  tryFinally
    (tryCatch (liftHandled handled ;;; onSuccess) onFailure)
    (awaitJob leaseOf hb_s raceDone).

End Job.

(** ** One pass of [while (true)] *)

Definition iteration (args : ConsumeArgs) (lastPromote lastReap : number)
  : M Flow :=
  let queue := a_queue args in
  let poll_interval_s :=
    Ops.orDefault (a_poll_interval_s args) (ofDecimal false 5 (-2)) in
  let promote_interval_s := Ops.orDefault (a_promote_interval_s args) (ofZ 1) in
  let promote_batch := Ops.orDefault (a_promote_batch args) (ofZ 1000) in
  let reap_interval_s := Ops.orDefault (a_reap_interval_s args) (ofZ 1) in
  let reap_batch := Ops.orDefault (a_reap_batch args) (ofZ 1000) in
  let verbose := orFlag (a_verbose args) false in
  let drain := orFlag (a_drain args) true in
  stop1 <- readStop ;;
  if (stop1 : bool) then
    logIf verbose ("[consume] stop requested; exiting (idle). queue=" ++ queue) ;;;
    ret Return
  else
    nowMs <- dateNow ;;
    lastPromote' <-
      (if geb (sub nowMs lastPromote) (mul promote_interval_s (ofZ 1000)) then
         tryCatch
           (called "promote_delayed"
              (Ops.promote_delayed r scripts queue (Some promote_batch) None) ;;;
            ret tt)
           (fun _ => ret tt) ;;;
         ret nowMs
       else ret lastPromote) ;;
    lastReap' <-
      (if geb (sub nowMs lastReap) (mul reap_interval_s (ofZ 1000)) then
         tryCatch
           (called "reap_expired"
              (Ops.reap_expired r scripts queue (Some reap_batch) None) ;;;
            ret tt)
           (fun _ => ret tt) ;;;
         ret nowMs
       else ret lastReap) ;;
    reserved <-
      tryCatch
        (res <- called "reserve" (Ops.reserve r scripts queue None) ;;
         ret (Some res))
        (fun e =>
           logIf verbose ("[consume] reserve error: " ++ messageOf e) ;;;
           sleep (ofZ 200) ;;;
           ret None) ;;
    match reserved with
    | None => ret (Continue lastPromote' lastReap')
    | Some Ops.ReserveNull =>
        sleep (millis poll_interval_s) ;;;
        ret (Continue lastPromote' lastReap')
    | Some Ops.ReservePaused =>
        sleep (millis (Ops.paused_backoff_s poll_interval_s)) ;;;
        ret (Continue lastPromote' lastReap')
    | Some (Ops.ReserveJobOf res) =>
        (* [ReserveResult] has no fourth shape, so the branch taken for a
           result that is neither paused nor a job has no counterpart. *)
        if negb (Js.truthy (Ops.lease_token res)) then
          logIf verbose
            ("[consume] invalid reserve (missing lease_token) job_id="
             ++ Ops.job_id res) ;;;
          sleep (ofZ 200) ;;;
          ret (Continue lastPromote' lastReap')
        else
          stop2 <- readStop ;;
          if (stop2 : bool) && negb drain then
            logIf verbose
              ("[consume] stop requested; fast-exit after reserve job_id="
               ++ Ops.job_id res) ;;;
            ret Return
          else
            let payloadObj :=
              match JSON_parse (Ops.payload res) with
              | Some v => v
              | None => VStr (Ops.payload res)
              end in
            let exec := ExecFacade.newExec (Some (Ops.job_id res)) in
            let ctx :=
              mkJobCtx queue (Ops.job_id res) (Ops.payload res) payloadObj
                (Ops.attempt res) (Ops.lock_until_ms res) (Ops.lease_token res)
                (Ops.gid res) exec in
            logIf verbose
              ("[consume] received job_id=" ++ ctx_job_id ctx
               ++ " attempt=" ++ Js.decimal (ctx_attempt ctx)
               ++ " gid=" ++ (if Js.truthy (ctx_gid ctx) then ctx_gid ctx else "-")
               ++ " payload=" ++ payloadPreview (ctx_payload ctx) 300) ;;;
            hb_s <-
              match a_heartbeat_interval_s args with
              | Some h => ret h
              | None =>
                  timeoutMs <- called "job_timeout_ms"
                                 (Ops.job_timeout_ms r queue
                                    (Ops.job_id res) None) ;;
                  ret (Ops.derive_heartbeat_interval_s timeoutMs)
              end ;;
            startHeartbeater ;;;
            runJob verbose queue res ctx hb_s ;;;
            stop3 <- readStop ;;
            if (stop3 : bool) && drain then
              logIf verbose
                ("[consume] stop requested; exiting after draining job_id="
                 ++ ctx_job_id ctx) ;;;
              ret Return
            else ret (Continue lastPromote' lastReap')
    end.

(** [while (true)], unrolled [fuel] times; [None] is a loop still running. *)
Fixpoint loop (fuel : nat) (args : ConsumeArgs) (lastPromote lastReap : number)
  : M (option unit) :=
  match fuel with
  | O => ret None
  | S fuel' =>
      flow <- iteration args lastPromote lastReap ;;
      match flow with
      | Return => ret (Some tt)
      | Continue lastPromote' lastReap' => loop fuel' args lastPromote' lastReap'
      end
  end.

(** [consume]: the signal handlers are installed for the time of the loop
    and removed when it returns or throws. *)
Definition consume (fuel : nat) (args : ConsumeArgs) : M (option unit) :=
  let stop_on_ctrl_c := orFlag (a_stop_on_ctrl_c args) true in
  fun w =>
    let w0 := if stop_on_ctrl_c then emit w SignalsOn else w in
    match loop fuel args (ofZ 0) (ofZ 0) w0 with
    | (Done (Ok None), w') => (Done (Ok None), w')
    | (Done res, w') => (Done res, if stop_on_ctrl_c then emit w' SignalsOff else w')
    | (Pending, w') => (Pending, w')
    end.

End Loop.

End Consumer.

(* ================================================================== *)
(** * src/transport.ts *)
(* ================================================================== *)

Module Transport.

Import JsNum.

Record RedisConnOpts : Type := mkConnOpts {
  redis_url : option string;
  host : option string;
  port : option number;
  db : option number;
  username : option string;
  password : option string;
  ssl : option bool;
  socket_timeout_ms : option number;
  socket_connect_timeout_ms : option number;
  cluster : option bool;
  cluster_nodes : option (list (string * number))
}.

(** The clients [buildRedisClient] constructs, with the options each
    constructor is given; [tls] stands for [ssl ? {} : undefined]. *)
Inductive RedisLike : Type :=
| UrlClient (url : string) (connectTimeout commandTimeout : option number)
| ClusterClient (seeds : list (option string * number))
    (username password : option string) (tls : bool)
    (connectTimeout commandTimeout : option number)
| HostClient (host : option string) (port db : number)
    (username password : option string) (tls : bool)
    (connectTimeout commandTimeout : option number).

(** What is done to the cluster client while it is probed. *)
Inductive Probe : Type :=
| Ping
| Quit.

(** [String((e as any)?.message ?? e ?? "")] *)
Definition textOf (e : Thrown) : string :=
  match e with
  | JsError _ m => m
  | JsValue v => v
  | JsNull | JsUndefined => EmptyString
  end.

Definition looksLikeClusterError (e : Thrown) : bool :=
  let msg := Js.toLowerCase (textOf e) in
  Js.includes msg "cluster support disabled"
  || Js.includes msg "cluster mode is not enabled"
  || (Js.includes msg "unknown command" && Js.includes msg "cluster")
  || Js.includes msg "this instance has cluster support disabled"
  || Js.includes msg "only (p)subscribe"
  || Js.includes msg "moved"
  || Js.includes msg "ask".

(** Truthiness of an optional string: [undefined] and the empty string are
    falsy. *)
Definition given (s : option string) : bool :=
  match s with
  | Some t => Js.truthy t
  | None => false
  end.

(** [buildRedisClient(opts)]; [ping] and [quit] are what [c.ping()] and
    [c.quit()] come to on the cluster client.  The result comes with the
    calls made on the cluster client, in order. *)
Definition buildRedisClient (ping quit : Outcome unit) (opts : RedisConnOpts)
  : Outcome RedisLike * list Probe :=
  let port_ := Ops.orDefault (port opts) (ofZ 6379) in
  let db_ := Ops.orDefault (db opts) (ofZ 0) in
  let ssl_ := Consumer.orFlag (ssl opts) false in
  let cluster_ := Consumer.orFlag (cluster opts) false in
  let tls := ssl_ in
  let standalone :=
    HostClient (host opts) port_ db_ (username opts) (password opts) tls
      (socket_connect_timeout_ms opts) (socket_timeout_ms opts) in
  match (if given (redis_url opts) && negb cluster_ then redis_url opts else None) with
  | Some url =>
      (Done (Ok (UrlClient url (socket_connect_timeout_ms opts)
                   (socket_timeout_ms opts))),
       [])
  | None =>
      let nodes :=
        match cluster_nodes opts with
        | Some l => l
        | None => []
        end in
      if negb (given (host opts)) && (List.length nodes =? 0)%nat then
        (Done (Throw (Error "RedisConnOpts requires host (or redis_url / cluster_nodes)")),
         [])
      else if cluster_ then
        let seeds :=
          match nodes with
          | _ :: _ => map (fun n => (Some (fst n), snd n)) nodes
          | [] => [(host opts, port_)]
          end in
        let c :=
          ClusterClient seeds (username opts) (password opts) tls
            (socket_connect_timeout_ms opts) (socket_timeout_ms opts) in
        match ping with
        | Done (Ok _) => (Done (Ok c), [Ping])
        | Done (Throw e) =>
            if negb (looksLikeClusterError e) then (Done (Throw e), [Ping])
            else
              match quit with
              | Done _ => (Done (Ok standalone), [Ping; Quit])
              | Pending => (Pending, [Ping; Quit])
              end
        | Pending => (Pending, [Ping])
        end
      else (Done (Ok standalone), [])
  end.

End Transport.

(* ================================================================== *)
(** * src/scripts.ts: locating and loading the scripts *)
(* ================================================================== *)

Module ScriptFiles.

(** The file system, [node:path], the process environment and the store's
    [SCRIPT LOAD], as the loader sees them.  [moduleDir] is what
    [moduleDirname()] returns; [scriptLoad n src] answers the n-th load. *)
Record Host : Type := mkHost {
  existsSync : string -> bool;
  readFileSync : string -> Res string;
  pathJoin : list string -> string;
  pathDirname : string -> string;
  pathResolve : string -> string;
  envScriptsDir : option string;
  moduleDir : string;
  scriptLoad : nat -> string -> Outcome string
}.

(** What the loader does, in order. *)
Inductive Step : Type :=
| ReadFile (path : string)
| ScriptLoad (src : string).

Section OnHost.

Variable h : Host.

(** The [for] loop of [findPackageRoot], with [i] steps left. *)
Fixpoint findFrom (steps : nat) (cur : string) : option string :=
  match steps with
  | O => None
  | S steps' =>
      let pj := pathJoin h [cur; "package.json"] in
      if existsSync h pj then Some cur
      else
        let parent := pathDirname h cur in
        if String.eqb parent cur then None
        else findFrom steps' parent
  end.

Definition findPackageRoot (fromDir : string) : Res string :=
  match findFrom 25 fromDir with
  | Some cur => Ok cur
  | None =>
      Throw (Error
        ("OmniQ: could not locate package.json starting from " ++ fromDir ++ ". "
         ++ "This is required to resolve dist/core/scripts deterministically."))
  end.

Definition newline : string := String (ascii_of_nat 10) EmptyString.

Definition defaultScriptsDir : Res string :=
  match (match envScriptsDir h with
         | Some env =>
             if (0 <? String.length (Js.trim env))%nat then Some env else None
         | None => None
         end) with
  | Some env =>
      let p := pathResolve h (Js.trim env) in
      if negb (existsSync h (pathJoin h [p; "enqueue.lua"])) then
        Throw (Error
          ("OMNIQ_SCRIPTS_DIR is set but enqueue.lua was not found at: " ++ p))
      else Ok p
  | None =>
      let from := moduleDir h in
      match findPackageRoot from with
      | Throw e => Throw e
      | Ok root =>
          let distScripts := pathJoin h [root; "dist"; "core"; "scripts"] in
          if negb (existsSync h (pathJoin h [distScripts; "enqueue.lua"])) then
            Throw (Error
              ("OmniQ scripts not found at: " ++ distScripts ++ newline
               ++ "Expected scripts to be copied into dist/core/scripts during build and published under dist/."
               ++ newline
               ++ "Hint: ensure your build copies scripts and package.json includes "
               ++ String Val.dquote "files" ++ String Val.dquote ": ["
               ++ String Val.dquote "dist" ++ String Val.dquote ", ...]."))
          else Ok distScripts
      end
  end.

(** The loader's run: the number of loads made so far and the steps taken. *)
Definition L (A : Type) : Type :=
  nat * list Step -> Outcome A * (nat * list Step).

Definition lret {A} (a : A) : L A := fun s => (Done (Ok a), s).

Definition lbind {A B} (m : L A) (k : A -> L B) : L B :=
  fun s =>
    match m s with
    | (Done (Ok a), s') => k a s'
    | (Done (Throw e), s') => (Done (Throw e), s')
    | (Pending, s') => (Pending, s')
    end.

Definition loadOne (scriptsDir name : string) : L Scripts.ScriptDef :=
  fun s =>
    let p := pathJoin h [scriptsDir; name] in
    let s1 := (fst s, (snd s ++ [ReadFile p])%list) in
    match readFileSync h p with
    | Throw e => (Done (Throw e), s1)
    | Ok src =>
        let s2 := (S (fst s1), (snd s1 ++ [ScriptLoad src])%list) in
        match scriptLoad h (fst s1) src with
        | Done (Ok sha) => (Done (Ok (Scripts.mkScript sha src)), s2)
        | Done (Throw e) => (Done (Throw e), s2)
        | Pending => (Pending, s2)
        end
    end.

Definition loadScripts (scriptsDir : string) : L Scripts.OmniqScripts :=
  lbind (loadOne scriptsDir "enqueue.lua") (fun enqueue =>
  lbind (loadOne scriptsDir "reserve.lua") (fun reserve =>
  lbind (loadOne scriptsDir "ack_success.lua") (fun ack_success =>
  lbind (loadOne scriptsDir "ack_fail.lua") (fun ack_fail =>
  lbind (loadOne scriptsDir "promote_delayed.lua") (fun promote_delayed =>
  lbind (loadOne scriptsDir "reap_expired.lua") (fun reap_expired =>
  lbind (loadOne scriptsDir "heartbeat.lua") (fun heartbeat =>
  lbind (loadOne scriptsDir "pause.lua") (fun pause =>
  lbind (loadOne scriptsDir "resume.lua") (fun resume =>
  lbind (loadOne scriptsDir "retry_failed.lua") (fun retry_failed =>
  lbind (loadOne scriptsDir "retry_failed_batch.lua") (fun retry_failed_batch =>
  lbind (loadOne scriptsDir "remove_job.lua") (fun remove_job =>
  lbind (loadOne scriptsDir "remove_jobs_batch.lua") (fun remove_jobs_batch =>
  lbind (loadOne scriptsDir "childs_init.lua") (fun childs_init =>
  lbind (loadOne scriptsDir "child_ack.lua") (fun child_ack =>
  lret (Scripts.mkScripts enqueue reserve ack_success ack_fail promote_delayed
          reap_expired heartbeat pause resume retry_failed retry_failed_batch
          remove_job remove_jobs_batch childs_init child_ack)))))))))))))))).

End OnHost.

End ScriptFiles.

(* ================================================================== *)
(** * src/client.ts *)
(* ================================================================== *)

Module Client.

Import JsNum.

Section Facade.

Variable r : Env.
Variable scripts : Scripts.OmniqScripts.
Variable JSON_parse : string -> option Val.JsVal.
Variable handler : Consumer.JobCtx -> M unit.

(** [OmniqClient.consume]: the defaults are filled in and the arguments
    are handed to the runloop. *)
Definition consume (fuel : nat) (args : Consumer.ConsumeArgs) : M (option unit) :=
  let poll_interval_s :=
    Ops.orDefault (Consumer.a_poll_interval_s args) (ofDecimal false 5 (-2)) in
  let promote_interval_s :=
    Ops.orDefault (Consumer.a_promote_interval_s args) (ofZ 1) in
  let promote_batch := Ops.orDefault (Consumer.a_promote_batch args) (ofZ 1000) in
  let reap_interval_s := Ops.orDefault (Consumer.a_reap_interval_s args) (ofZ 1) in
  let reap_batch := Ops.orDefault (Consumer.a_reap_batch args) (ofZ 1000) in
  let heartbeat_interval_s := Consumer.a_heartbeat_interval_s args in
  let verbose := Consumer.orFlag (Consumer.a_verbose args) false in
  let drain := Consumer.orFlag (Consumer.a_drain args) true in
  let stop_on_ctrl_c := Consumer.orFlag (Consumer.a_stop_on_ctrl_c args) true in
  Consumer.consume r scripts JSON_parse handler fuel
    (Consumer.mkConsumeArgs (Consumer.a_queue args)
       (Some poll_interval_s) (Some promote_interval_s) (Some promote_batch)
       (Some reap_interval_s) (Some reap_batch) heartbeat_interval_s
       (Some verbose) (Some stop_on_ctrl_c) (Some drain)).

End Facade.

(** [OmniqClient.create]: the connection and the scripts directory are
    taken from the options when they are given. *)
Record ClientOpts : Type := mkClientOpts {
  conn : Transport.RedisConnOpts;
  redis : option Transport.RedisLike;
  scriptsDir : option string
}.

Definition create (h : ScriptFiles.Host) (ping quit : Outcome unit)
    (opts : ClientOpts)
  : Outcome (Transport.RedisLike * Scripts.OmniqScripts)
    * (list Transport.Probe * list ScriptFiles.Step) :=
  let '(built, probes) :=
    match redis opts with
    | Some c => (Done (Ok c), [])
    | None => Transport.buildRedisClient ping quit (conn opts)
    end in
  match built with
  | Pending => (Pending, (probes, []))
  | Done (Throw e) => (Done (Throw e), (probes, []))
  | Done (Ok c) =>
      match (match scriptsDir opts with
             | Some d => Ok d
             | None => ScriptFiles.defaultScriptsDir h
             end) with
      | Throw e => (Done (Throw e), (probes, []))
      | Ok dir =>
          match ScriptFiles.loadScripts h dir (O, []) with
          | (Done (Ok scripts), (_, steps)) => (Done (Ok (c, scripts)), (probes, steps))
          | (Done (Throw e), (_, steps)) => (Done (Throw e), (probes, steps))
          | (Pending, (_, steps)) => (Pending, (probes, steps))
          end
      end
  end.

End Client.

(* ================================================================== *)
(** * Vocabulary of the statements *)
(* ================================================================== *)

(** [Respects R m]: every run of [m] takes a world to one related by [R]. *)
Definition Respects (R : World -> World -> Prop) {A} (m : M A) : Prop :=
  forall w, R w (snd (m w)).

(** The trace only grows, by events that satisfy [P]. *)
Definition grows (P : Event -> Prop) (w w' : World) : Prop :=
  exists evs, trace w' = (trace w ++ evs)%list /\ Forall P evs.

(** The heartbeater is left as it was. *)
Definition sameHb (w w' : World) : Prop := hb w' = hb w.

(** The declared keys of a command: the first [numkeys] entries of a script
    call, the key of [EXISTS] and of [HGET]. *)
Definition declaredKeys (c : Call) : list string :=
  match c with
  | Evalsha _ n ka | Eval _ n ka => firstn (Z.to_nat n) ka
  | Exists k => [k]
  | Hget k _ => [k]
  end.

(** An event of the operations layer, whose commands satisfy [K]. *)
Definition storeEv (K : Call -> Prop) (ev : Event) : Prop :=
  match ev with
  | Sent c => K c
  | MutexLocked | MutexReleased => True
  | Called _ | Logged _ | Slept _ | SignalsOn | SignalsOff => False
  end.

(** A step of the operations layer: the trace grows by store events whose
    commands satisfy [K], and the heartbeater is left as it was. *)
Definition opsStep (K : Call -> Prop) (w w' : World) : Prop :=
  grows (storeEv K) w w' /\ sameHb w w'.

(** [K] holds of a script call whose only declared key is [anchor]. *)
Definition scriptKey (K : Call -> Prop) (anchor : string) : Prop :=
  forall code argv,
    K (Evalsha code 1 (anchor :: argv)) /\ K (Eval code 1 (anchor :: argv)).

(** The world a run leaves behind. *)
Definition after {A} (m : M A) (w : World) : World := snd (m w).

(** The hash tag of a queue key: a name with both braces is embedded as it
    is, at the head of the key; any other name appears wrapped in braces. *)
Definition hashTagged (q k : string) : bool :=
  if Js.includes q "{" && Js.includes q "}"
  then Js.startsWith k q
  else Js.includes k ("{" ++ q ++ "}").

(** The commands of a queue [q]: a script call declares the anchor and
    nothing else, [EXISTS] reads the pause flag, [HGET] a job record; and
    every declared key carries the hash tag. *)
Definition queueCall (q : string) (c : Call) : Prop :=
  match c with
  | Evalsha _ _ _ | Eval _ _ _ => declaredKeys c = [Helper.queueBase q ++ ":meta"]
  | Exists k => k = Helper.queueBase q ++ ":paused"
  | Hget k _ => exists id, k = Helper.queueBase q ++ ":job:" ++ id
  end
  /\ Forall (fun k => hashTagged q k = true) (declaredKeys c).

(** The commands of a child counter: a script call whose only declared key
    is the anchor, which carries the tag of the trimmed key. *)
Definition childCall (key : string) (c : Call) : Prop :=
  match c with
  | Evalsha _ _ _ | Eval _ _ _ =>
      exists anchor,
        Helper.childsAnchor key = Ok anchor
        /\ declaredKeys c = [anchor]
        /\ Js.includes anchor ("{cc:" ++ Js.trim key ++ "}") = true
  | Exists _ | Hget _ _ => False
  end.

(** The operations on a queue, with the arguments besides the queue name. *)
Inductive QueueOp : Type :=
| QPublish (args : Ops.PublishArgs)
| QPause
| QResume
| QIsPaused
| QReserve (now_ms_override : option JsNum.number)
| QHeartbeat (job_id lease_token : string) (now_ms_override : option JsNum.number)
| QAckSuccess (job_id lease_token : string) (now_ms_override : option JsNum.number)
| QAckFail (job_id lease_token : string) (error : option string)
           (now_ms_override : option JsNum.number)
| QPromoteDelayed (max_promote now_ms_override : option JsNum.number)
| QReapExpired (max_reap now_ms_override : option JsNum.number)
| QJobTimeoutMs (job_id : string) (default_ms : option JsNum.number)
| QRetryFailed (job_id : string) (now_ms_override : option JsNum.number)
| QRetryFailedBatch (job_ids : list string) (now_ms_override : option JsNum.number)
| QRemoveJob (job_id lane : string)
| QRemoveJobsBatch (lane : string) (job_ids : list string).

Definition performQueueOp (r : Env) (scripts : Scripts.OmniqScripts)
    (q : string) (op : QueueOp) : World -> World :=
  match op with
  | QPublish a =>
      after (Ops.publish r scripts
               (Ops.mkPublishArgs q (Ops.p_payload a) (Ops.p_job_id a)
                  (Ops.p_max_attempts a) (Ops.p_timeout_ms a)
                  (Ops.p_backoff_ms a) (Ops.p_due_ms a)
                  (Ops.p_now_ms_override a) (Ops.p_gid a) (Ops.p_group_limit a)))
  | QPause => after (Ops.pause r scripts q)
  | QResume => after (Ops.resume r scripts q)
  | QIsPaused => after (Ops.is_paused r q)
  | QReserve now => after (Ops.reserve r scripts q now)
  | QHeartbeat id tok now =>
      after (Ops.heartbeat r scripts (Ops.mkLeaseArgs q id tok now))
  | QAckSuccess id tok now =>
      after (Ops.ack_success r scripts (Ops.mkLeaseArgs q id tok now))
  | QAckFail id tok err now =>
      after (Ops.ack_fail r scripts (Ops.mkAckFailArgs q id tok err now))
  | QPromoteDelayed n now => after (Ops.promote_delayed r scripts q n now)
  | QReapExpired n now => after (Ops.reap_expired r scripts q n now)
  | QJobTimeoutMs id d => after (Ops.job_timeout_ms r q id d)
  | QRetryFailed id now => after (Ops.retry_failed r scripts q id now)
  | QRetryFailedBatch ids now => after (Ops.retry_failed_batch r scripts q ids now)
  | QRemoveJob id lane => after (Ops.remove_job r scripts q id lane)
  | QRemoveJobsBatch lane ids => after (Ops.remove_jobs_batch r scripts q lane ids)
  end.

(** The operations on a child counter. *)
Inductive ChildOp : Type :=
| CInit (expected : JsNum.number)
| CAck (child_id : string).

Definition performChildOp (r : Env) (scripts : Scripts.OmniqScripts)
    (key : string) (op : ChildOp) : World -> World :=
  match op with
  | CInit n => after (Ops.childs_init r scripts key n)
  | CAck cid => after (Ops.child_ack r scripts key cid)
  end.

(** The three checks of [childsAnchor] on a trimmed key. *)
Definition keyAccepted (k : string) : bool :=
  Js.truthy k && negb (Js.includes k "{") && negb (Js.includes k "}")
  && (String.length k <=? 128)%nat.

(** The message of a thrown error has a part that reads NOSCRIPT when the
    case of its letters is ignored. *)
Definition mentionsNoScript (e : Thrown) : Prop :=
  exists name pre mid post,
    e = JsError name (pre ++ mid ++ post) /\ Js.toUpperCase mid = "NOSCRIPT".

(** What the spec has [child_ack] return for what the store came to: the
    truncated number of an [OK] reply, and -1 in every other case. *)
Definition childAckValue (o : Res Val.Reply) : JsNum.number :=
  match o with
  | Ok (Val.RArr (Val.RStr status :: n :: _)) =>
      if String.eqb status "OK" && JsNum.isFinite (Val.Number_ (Some n))
      then JsNum.Math_trunc (Val.Number_ (Some n))
      else JsNum.ofZ (-1)
  | _ => JsNum.ofZ (-1)
  end.

(** A non-empty string of the digits 0..9, and the integer it writes. *)
Definition isDigit (c : ascii) : bool :=
  let n := Z.of_nat (nat_of_ascii c) in (48 <=? n) && (n <=? 57).

Fixpoint allDigits (s : string) : bool :=
  match s with
  | EmptyString => true
  | String c r => isDigit c && allDigits r
  end.

Definition isDecimal (s : string) : bool := Js.truthy s && allDigits s.

Fixpoint digitsValue (acc : Z) (s : string) : Z :=
  match s with
  | EmptyString => acc
  | String c r => digitsValue (10 * acc + (Z.of_nat (nat_of_ascii c) - 48)) r
  end.

Definition decimalValue (s : string) : Z := digitsValue 0 s.

(** An integer read as a signed 32-bit integer. *)
Definition wrap32 (v : Z) : Z :=
  let k := v mod 2 ^ 32 in
  if 2 ^ 31 <=? k then k - 2 ^ 32 else k.

(** An event that is not a call of [ack_success] or of [ack_fail]. *)
Definition notAck (ev : Event) : Prop :=
  ev <> Called "ack_success" /\ ev <> Called "ack_fail".

(** An event that is not a call of the logger. *)
Definition notLogged (ev : Event) : Prop :=
  forall msg, ev <> Logged msg.

(** A step of the heartbeater: calls of [heartbeat] and store events. *)
Definition hbEvent (ev : Event) : Prop :=
  ev = Called "heartbeat" \/ storeEv (fun _ => True) ev.

(** A settled heartbeat call that failed with a lease-loss message. *)
Definition lostResult (res : Res Z) : bool :=
  match res with
  | Throw e => Consumer.lostMessage (Consumer.lostText e)
  | Ok _ => false
  end.

(** The [lost] flag is up exactly when some settled heartbeat call failed
    with a message that contains NOT_ACTIVE or TOKEN_MISMATCH. *)
Definition lostIffFailed (h : HbState) : Prop :=
  lost h = existsb lostResult (settled h).

(** A run that never comes to a thrown error. *)
Definition NoThrow {A} (m : M A) : Prop :=
  forall w e, fst (m w) <> Done (Throw e).

(** The error [e] was thrown by the [HGET] of [job_timeout_ms], which is the
    last command of the trace of [w], followed at most by the removal of
    the signal handlers. *)
Definition hgetFailed (r : Env) (e : Thrown) (w : World) : Prop :=
  exists pre post key n,
    trace w
    = (pre ++ Called "job_timeout_ms" :: Sent (Hget key "timeout_ms") :: post)%list
    /\ Forall (fun ev => ev = SignalsOff) post
    /\ store r n (Hget key "timeout_ms") = Throw e.

(** A run whose only thrown errors are failures of that [HGET]. *)
Definition ThrowsOnlyHget (r : Env) {A} (m : M A) : Prop :=
  forall w e, fst (m w) = Done (Throw e) -> hgetFailed r e (snd (m w)).

(** ** Further vocabulary *)

(** A run that comes to a result, a value or a thrown error, from every
    world. *)
Definition Settles {A} (m : M A) : Prop :=
  forall w, fst (m w) <> Pending.

(** A run that comes to a value from every world. *)
Definition Returns {A} (m : M A) : Prop :=
  forall w, exists a, fst (m w) = Done (Ok a).





(** [ctrl.stop] is up at some request of the run. *)
Definition stopRequested (r : Env) : Prop :=
  exists n, stopFlag r n = true.

(** [ctrl.stop] is up at no request of the run: no stop is requested. *)
Definition neverStopped (r : Env) : Prop :=
  forall n, stopFlag r n = false.

(** The store answers every [HGET] of a job's [timeout_ms]. *)
Definition hgetAnswered (r : Env) : Prop :=
  forall n key e, store r n (Hget key "timeout_ms") <> Throw e.

(** Every value that a run comes to satisfies [P]. *)
Definition Yields {A} (P : A -> Prop) (m : M A) : Prop :=
  forall w a, fst (m w) = Done (Ok a) -> P a.

(** An iteration makes the loop return only when a stop was requested. *)
Definition stopSeen (r : Env) (f : Consumer.Flow) : Prop :=
  match f with
  | Consumer.Return => stopRequested r
  | Consumer.Continue _ _ => True
  end.

(** An iteration that sends the loop into its next pass. *)
Definition goesOn (f : Consumer.Flow) : Prop :=
  match f with
  | Consumer.Return => False
  | Consumer.Continue _ _ => True
  end.

(** A line handed to the logger. *)
Definition logged (ev : Event) : Prop := exists msg, ev = Logged msg.

(** Events that are lines handed to the logger or the sleep of [ms]
    milliseconds. *)
Definition logsAndSleep (ms : JsNum.number) (evs : list Event) : Prop :=
  Forall (fun ev => logged ev \/ ev = Slept ms) evs.

(** A run that comes, from every world, to a value that satisfies [P]. *)
Definition ReturnsSome {A} (P : A -> Prop) (m : M A) : Prop :=
  forall w, exists a, fst (m w) = Done (Ok a) /\ P a.

(** [await m;] with the value dropped. *)
Definition void {A} (m : M A) : M unit := bind m (fun _ => ret tt).



(** The flat reply of a batch script for the rows [rows]: the job id and
    the status of each row, followed by the reason of a row that has one. *)
Fixpoint batchReply (rows : list (string * string * option string))
  : list Val.Reply :=
  match rows with
  | [] => []
  | (job_id, status, None) :: rest =>
      Val.RStr job_id :: Val.RStr status :: batchReply rest
  | (job_id, status, Some reason) :: rest =>
      Val.RStr job_id :: Val.RStr status :: Val.RStr reason :: batchReply rest
  end.

(** A row as the batch scripts write it: a reason comes with the status
    [ERR] and with no other. *)
Definition rowWritten (row : string * string * option string) : bool :=
  match row with
  | (_, status, Some _) => String.eqb status "ERR"
  | (_, status, None) => negb (String.eqb status "ERR")
  end.

(** The first element of a batch reply reads [ERR]. *)
Definition startsWithErr (rows : list (string * string * option string)) : bool :=
  match rows with
  | (job_id, _, _) :: _ => String.eqb job_id "ERR"
  | [] => false
  end.

(** A string of white space only. *)
Fixpoint blank (s : string) : bool :=
  match s with
  | EmptyString => true
  | String c r => Js.isWhiteSpace c && blank r
  end.

(** [now_ms_override || nowMs()] read at the tick [n]. *)
Definition timeArg (r : Env) (now_ms_override : option JsNum.number) (n : nat)
  : JsNum.number :=
  match now_ms_override with
  | Some x => if JsNum.truthy x then x else JsNum.ofZ (clock r n)
  | None => JsNum.ofZ (clock r n)
  end.

(** The error argument of [ack_fail]: present when the text is given and
    is not blank. *)
Definition errorArg (error : option string) : list string :=
  match error with
  | Some e => if blank e then [] else [e]
  | None => []
  end.

(** The heartbeater as [startHeartbeater] leaves it. *)
Definition freshHb : HbState := mkHb false false None true 0 [].

(** What the closures of the heartbeater keep true: a lost lease has
    stopped it, and a stopped heartbeater holds no interval timer. *)
Definition hbSound (h : HbState) : Prop :=
  (lost h = true -> stopped h = true)
  /\ (stopped h = true -> timer h = None).

(** The heartbeater is stopped and its timer is cleared. *)
Definition hbOff (h : HbState) : Prop :=
  stopped h = true /\ timer h = None.

(** The text of a thrown value has a part that reads [pat] when the case of
    its letters is ignored. *)
Definition mentions (e : Thrown) (pat : string) : Prop :=
  exists pre mid post,
    Transport.textOf e = pre ++ mid ++ post /\ Js.toLowerCase mid = pat.

(** The refusals of a store that is not a cluster, and the redirections of
    one that is. *)
Definition clusterRefusal (e : Thrown) : Prop :=
  mentions e "cluster support disabled"
  \/ mentions e "cluster mode is not enabled"
  \/ (mentions e "unknown command" /\ mentions e "cluster")
  \/ mentions e "only (p)subscribe"
  \/ mentions e "moved"
  \/ mentions e "ask".

(** An address for the connection: a host, or at least one cluster node. *)
Definition addressGiven (opts : Transport.RedisConnOpts) : bool :=
  Transport.given (Transport.host opts)
  || match Transport.cluster_nodes opts with
     | Some (_ :: _) => true
     | _ => false
     end.

(** The [k]-th directory above [d]. *)
Definition ancestor (h : ScriptFiles.Host) (k : nat) (d : string) : string :=
  Nat.iter k (ScriptFiles.pathDirname h) d.

(** The directory [d] holds a [package.json]. *)
Definition hasPackageJson (h : ScriptFiles.Host) (d : string) : bool :=
  ScriptFiles.existsSync h (ScriptFiles.pathJoin h [d; "package.json"]).

(** The directory [d] holds [enqueue.lua]. *)
Definition hasEnqueue (h : ScriptFiles.Host) (d : string) : bool :=
  ScriptFiles.existsSync h (ScriptFiles.pathJoin h [d; "enqueue.lua"]).

(** The scripts of a bundle with the file each one is loaded from, in the
    order of the loads. *)
Definition scriptFiles (s : Scripts.OmniqScripts)
  : list (string * Scripts.ScriptDef) :=
  [("enqueue.lua", Scripts.enqueue s);
   ("reserve.lua", Scripts.reserve s);
   ("ack_success.lua", Scripts.ack_success s);
   ("ack_fail.lua", Scripts.ack_fail s);
   ("promote_delayed.lua", Scripts.promote_delayed s);
   ("reap_expired.lua", Scripts.reap_expired s);
   ("heartbeat.lua", Scripts.heartbeat s);
   ("pause.lua", Scripts.pause s);
   ("resume.lua", Scripts.resume s);
   ("retry_failed.lua", Scripts.retry_failed s);
   ("retry_failed_batch.lua", Scripts.retry_failed_batch s);
   ("remove_job.lua", Scripts.remove_job s);
   ("remove_jobs_batch.lua", Scripts.remove_jobs_batch s);
   ("childs_init.lua", Scripts.childs_init s);
   ("child_ack.lua", Scripts.child_ack s)].

(** The steps of loading the files [files] from [dir]: each file is read
    and its text is handed to the store. *)
Definition loadSteps (h : ScriptFiles.Host) (dir : string)
    (files : list (string * Scripts.ScriptDef)) : list ScriptFiles.Step :=
  flat_map
    (fun f =>
       [ScriptFiles.ReadFile (ScriptFiles.pathJoin h [dir; fst f]);
        ScriptFiles.ScriptLoad (Scripts.src (snd f))])
    files.

(** The [i]-th load and those after it gave the scripts of [files] their
    digests, from the texts read in [dir]. *)
Fixpoint loadedFrom (h : ScriptFiles.Host) (dir : string) (i : nat)
    (files : list (string * Scripts.ScriptDef)) : Prop :=
  match files with
  | [] => True
  | (name, def) :: rest =>
      ScriptFiles.readFileSync h (ScriptFiles.pathJoin h [dir; name])
      = Ok (Scripts.src def)
      /\ ScriptFiles.scriptLoad h i (Scripts.src def) = Done (Ok (Scripts.sha def))
      /\ loadedFrom h dir (S i) rest
  end.

(** The job id [publish] sends when the ULID source is read at tick [n]:
    the id given, unless it is missing or empty. *)
Definition idArg (r : Env) (job_id : option string) (n : nat) : string :=
  match job_id with
  | Some j => if Js.truthy j then j else ulid r n
  | None => ulid r n
  end.

(** The tick after [now_ms_override || nowMs()]: the clock is read only
    when no override is given. *)
Definition afterTime (now_ms_override : option JsNum.number) (n : nat) : nat :=
  match now_ms_override with
  | Some x => if JsNum.truthy x then n else S n
  | None => S n
  end.

(** ** Sample inputs *)

Module Sample.

Definition script (name : string) : Scripts.ScriptDef :=
  Scripts.mkScript ("sha:" ++ name) ("lua:" ++ name).

Definition scripts : Scripts.OmniqScripts :=
  Scripts.mkScripts
    (script "enqueue") (script "reserve") (script "ack_success")
    (script "ack_fail") (script "promote_delayed") (script "reap_expired")
    (script "heartbeat") (script "pause") (script "resume")
    (script "retry_failed") (script "retry_failed_batch") (script "remove_job")
    (script "remove_jobs_batch") (script "childs_init") (script "child_ack").

(** No other call of the process touches the script mutex. *)
Definition alone : nat -> AsyncMutex -> AsyncMutex := fun _ mu => mu.

(** A store that answers every command with [reply]; the clock stands at
    1700000000123, no stop is requested, no timer runs and no other call
    touches the script mutex. *)
Definition answering (reply : Res Val.Reply) : Env :=
  mkEnv (fun _ _ => reply) (fun _ => 1700000000123) (fun _ => "01J0000000000000000000000A")
        (fun _ => false) (fun _ => []) alone (fun _ => 0%nat).

(** A store whose script cache was flushed: [EVALSHA] fails with NOSCRIPT
    and [EVAL] answers [reply]. *)
Definition flushed (reply : Val.Reply) : Env :=
  mkEnv (fun _ c =>
           match c with
           | Evalsha _ _ _ =>
               Throw (JsError "ReplyError"
                        "NOSCRIPT No matching script. Please use EVAL.")
           | _ => Ok reply
           end)
        (fun _ => 1700000000123) (fun _ => "01J0000000000000000000000A")
        (fun _ => false) (fun _ => []) alone (fun _ => 0%nat).

(** The flushed store, with a second call at work: while the first request
    is awaited that call takes the script mutex, and nothing has queued
    behind this one when it is woken. *)
Definition raced (reply : Val.Reply) : Env :=
  mkEnv (store (flushed reply)) (fun _ => 1700000000123)
        (fun _ => "01J0000000000000000000000A")
        (fun _ => false) (fun _ => [])
        (fun n mu => if (n =? 0)%nat then mkMutex true (waiters mu) else mu)
        (fun _ => 0%nat).

(** A store on which the lease of every job is gone: each script call is
    answered with [ERR NOT_ACTIVE]; during every suspension the promise of
    the immediate heartbeat settles. *)
Definition leaseGone : Env :=
  mkEnv (fun _ _ => Ok (Val.RArr [Val.RStr "ERR"; Val.RStr "NOT_ACTIVE"]))
        (fun _ => 1700000000123) (fun _ => "01J0000000000000000000000A")
        (fun _ => false) (fun _ => [FirstSettles]) alone (fun _ => 0%nat).

(** A store that hands out the job [job1], extends its lease, and refuses
    its acknowledgement with [ERR BAD_STATE]. *)
Definition badState : Env :=
  mkEnv (fun _ c =>
           match c with
           | Evalsha code _ _ =>
               if String.eqb code "sha:heartbeat"
               then Ok (Val.RArr [Val.RStr "OK"; Val.RInt 5000])
               else if String.eqb code "sha:reserve"
               then Ok (Val.RArr [Val.RStr "JOB"; Val.RStr "job1"; Val.RStr "{}";
                                  Val.RInt 5000; Val.RInt 0; Val.RNil;
                                  Val.RStr "token1"])
               else if String.eqb code "sha:promote_delayed"
                       || String.eqb code "sha:reap_expired"
               then Ok (Val.RArr [Val.RStr "OK"; Val.RInt 0])
               else Ok (Val.RArr [Val.RStr "ERR"; Val.RStr "BAD_STATE"])
           | _ => Ok Val.RNil
           end)
        (fun _ => 1700000000123) (fun _ => "01J0000000000000000000000A")
        (fun _ => false) (fun _ => [FirstSettles]) alone (fun _ => 0%nat).

Definition job : Ops.ReserveJob :=
  Ops.mkReserveJob "job1" "{}" 5000 0 EmptyString "token1".

Definition ctx : Consumer.JobCtx :=
  Consumer.mkJobCtx "demo" "job1" "{}" (Val.VObj []) 0 5000 "token1" EmptyString
    (ExecFacade.mkExec "job1").

(** A handler that returns at once. *)
Definition quietHandler : Consumer.JobCtx -> M unit := fun _ => ret tt.

(** A package installed under [/app/node_modules/omniq]: the module sits in
    [dist/core], every script is in [dist/core/scripts], and the store
    answers a load of [src] with [sha:src]. *)
Definition installed : ScriptFiles.Host :=
  ScriptFiles.mkHost
    (fun p =>
       String.eqb p "/app/node_modules/omniq/package.json"
       || String.eqb p "/app/node_modules/omniq/dist/core/scripts/enqueue.lua")
    (fun p => Ok ("-- " ++ p))
    (String.concat "/")
    (fun d =>
       if String.eqb d "/app/node_modules/omniq/dist/core"
       then "/app/node_modules/omniq/dist"
       else if String.eqb d "/app/node_modules/omniq/dist"
       then "/app/node_modules/omniq"
       else "/")
    (fun p => p)
    None
    "/app/node_modules/omniq/dist/core"
    (fun _ src => Done (Ok ("sha:" ++ src))).

(** Options that ask for a cluster on one host. *)
Definition clusterOnHost : Transport.RedisConnOpts :=
  Transport.mkConnOpts None (Some "localhost") None None None None None None None
    (Some true) None.

(** Options that give a URL and ask for a cluster. *)
Definition clusterOnUrl : Transport.RedisConnOpts :=
  Transport.mkConnOpts (Some "redis://localhost:6379") None None None None None
    None None None (Some true) None.

(** What a store that is not a cluster answers to a cluster command. *)
Definition notACluster : Thrown :=
  JsError "ReplyError" "ERR This instance has cluster support disabled".

End Sample.

(* ================================================================== *)
(** * Facts about strings *)
(* ================================================================== *)

Section StringFacts.

Lemma append_nil_r (s : string) : s ++ EmptyString = s.
Proof.
  induction s as [|c s IH]; simpl; [reflexivity | now rewrite IH].
Qed.

Lemma append_assoc (a b c : string) : (a ++ b) ++ c = a ++ (b ++ c).
Proof.
  induction a as [|x a IH]; simpl; [reflexivity | now rewrite IH].
Qed.

Lemma startsWith_spec (s p : string) :
  Js.startsWith s p = true <-> exists b, s = p ++ b.
Proof.
  revert s.
  induction p as [|a p IH]; intros s.
  - split; [intros _; now exists s | intros _; now destruct s].
  - destruct s as [|b s]; simpl.
    + split; [discriminate | intros [t H]; discriminate].
    + rewrite andb_true_iff, Ascii.eqb_eq, IH.
      split.
      * intros [-> [t ->]]. now exists t.
      * intros [t H]. injection H as -> ->. split; [reflexivity | now exists t].
Qed.

Lemma includes_spec (s p : string) :
  Js.includes s p = true <-> exists a b, s = a ++ p ++ b.
Proof.
  induction s as [|c s IH].
  - cbn [Js.includes]. rewrite orb_false_r, startsWith_spec.
    split.
    + intros [b H]. now exists EmptyString, b.
    + intros [a [b H]]. destruct a; [now exists b | discriminate].
  - cbn [Js.includes]. rewrite orb_true_iff, startsWith_spec, IH.
    split.
    + intros [[b H] | [a [b H]]].
      * now exists EmptyString, b.
      * exists (String c a), b. simpl. now rewrite H.
    + intros [a [b H]]. destruct a as [|x a].
      * left. now exists b.
      * right. injection H as _ H. now exists a, b.
Qed.

Lemma includes_prefix (p b : string) : Js.includes (p ++ b) p = true.
Proof.
  apply includes_spec. now exists EmptyString, b.
Qed.

Lemma includes_middle (a p b : string) : Js.includes (a ++ p ++ b) p = true.
Proof.
  apply includes_spec. now exists a, b.
Qed.

Lemma toUpperCase_app (a b : string) :
  Js.toUpperCase (a ++ b) = Js.toUpperCase a ++ Js.toUpperCase b.
Proof.
  induction a as [|c a IH]; simpl; [reflexivity | now rewrite IH].
Qed.

(** A split of the upper-case form comes from a split of the string. *)
Lemma toUpperCase_split (s a b : string) :
  Js.toUpperCase s = a ++ b ->
  exists a' b', s = a' ++ b' /\ Js.toUpperCase a' = a /\ Js.toUpperCase b' = b.
Proof.
  revert s.
  induction a as [|x a IH]; intros s H.
  - exists EmptyString, s. now repeat split.
  - destruct s as [|c s]; [discriminate|].
    simpl in H. injection H as Hx H.
    destruct (IH s H) as [a' [b' [-> [Ha Hb]]]].
    exists (String c a'), b'. simpl. now rewrite Hx, Ha, Hb.
Qed.

Lemma trimEnd_idempotent (s : string) : Js.trimEnd (Js.trimEnd s) = Js.trimEnd s.
Proof.
  induction s as [|c s IH]; [reflexivity|].
  cbn [Js.trimEnd].
  destruct (Js.trimEnd s) as [|d t] eqn:E.
  - destruct (Js.isWhiteSpace c) eqn:W; [reflexivity|].
    cbn [Js.trimEnd]. now rewrite W.
  - cbn [Js.trimEnd] in IH |- *.
    destruct (Js.trimEnd t) as [|d' t'] eqn:E'.
    + destruct (Js.isWhiteSpace d); [discriminate|]. now rewrite IH.
    + now rewrite IH.
Qed.

(** A string that does not start with white space keeps its head, and so
    its start, when its end is trimmed. *)
Lemma trimStart_trimEnd (s : string) :
  Js.trimStart s = s -> Js.trimStart (Js.trimEnd s) = Js.trimEnd s.
Proof.
  destruct s as [|c s]; [reflexivity|].
  cbn [Js.trimStart]. destruct (Js.isWhiteSpace c) eqn:W.
  - intros H. exfalso.
    assert (L : forall t, (String.length (Js.trimStart t) <= String.length t)%nat).
    { induction t as [|x t IHt]; simpl; [lia|].
      destruct (Js.isWhiteSpace x); simpl; lia. }
    specialize (L s). rewrite H in L. simpl in L. lia.
  - intros _. cbn [Js.trimEnd].
    destruct (Js.trimEnd s); [rewrite W|]; cbn [Js.trimStart]; now rewrite W.
Qed.

Lemma trimStart_idempotent (s : string) :
  Js.trimStart (Js.trimStart s) = Js.trimStart s.
Proof.
  induction s as [|c s IH]; [reflexivity|].
  cbn [Js.trimStart]. destruct (Js.isWhiteSpace c) eqn:W; [assumption|].
  cbn [Js.trimStart]. now rewrite W.
Qed.

Lemma trim_idempotent (s : string) : Js.trim (Js.trim s) = Js.trim s.
Proof.
  unfold Js.trim.
  rewrite (trimStart_trimEnd (Js.trimStart s) (trimStart_idempotent s)).
  apply trimEnd_idempotent.
Qed.

End StringFacts.

(* ================================================================== *)
(** * Facts about numbers *)
(* ================================================================== *)

Section NumberFacts.

Import JsNum.

Lemma digits2_pos_bounds (p : positive) :
  2 ^ (Zpos (digits2_pos p) - 1) <= Zpos p < 2 ^ Zpos (digits2_pos p).
Proof.
  induction p as [p IH|p IH|]; cbn [digits2_pos].
  - rewrite Pos2Z.inj_succ.
    replace (Z.succ (Zpos (digits2_pos p)) - 1)
      with (Z.succ (Zpos (digits2_pos p) - 1)) by lia.
    rewrite !Z.pow_succ_r by lia. lia.
  - rewrite Pos2Z.inj_succ.
    replace (Z.succ (Zpos (digits2_pos p)) - 1)
      with (Z.succ (Zpos (digits2_pos p) - 1)) by lia.
    rewrite !Z.pow_succ_r by lia. lia.
  - cbn. lia.
Qed.

Lemma iter_xO_value (p k : positive) :
  Zpos (Pos.iter xO p k) = Zpos p * 2 ^ Zpos k.
Proof.
  induction k as [|k IH] using Pos.peano_ind.
  - cbn. lia.
  - rewrite Pos.iter_succ, Pos2Z.inj_xO, IH, Pos2Z.inj_succ, Z.pow_succ_r by lia.
    lia.
Qed.

Lemma iter_xO_digits (p k : positive) :
  digits2_pos (Pos.iter xO p k) = (digits2_pos p + k)%positive.
Proof.
  induction k as [|k IH] using Pos.peano_ind.
  - cbn. lia.
  - rewrite Pos.iter_succ. cbn [digits2_pos]. rewrite IH. lia.
Qed.

(** An integer of fewer than 53 bits is a Number as it is: the mantissa is
    the integer shifted to 53 bits and nothing is rounded away. *)
Lemma ofZ_small (p : positive) :
  Zpos (digits2_pos p) < 53 ->
  ofZ (Zpos p)
  = S754_finite false
      (Pos.iter xO p (Z.to_pos (53 - Zpos (digits2_pos p))))
      (Zpos (digits2_pos p) - 53).
Proof.
  intros Hd.
  unfold ofZ, prec, emax, binary_normalize, binary_round, shl_align.
  set (d := Zpos (digits2_pos p)) in *.
  assert (Hf : fexp 53 1024 (d + 0) = d - 53) by (unfold fexp, emin; lia).
  rewrite Hf.
  destruct (d - 53 - 0) as [|q|q] eqn:E; try lia.
  assert (Hq : q = Z.to_pos (53 - d)) by lia.
  subst q.
  set (mz := Pos.iter xO p (Z.to_pos (53 - d))).
  assert (Hdz : Zpos (digits2_pos mz) = 53).
  { unfold mz. rewrite iter_xO_digits. fold d. lia. }
  unfold binary_round_aux, shr_fexp, Zdigits2. rewrite Hdz.
  replace (fexp 53 1024 (53 + (d - 53))) with (d - 53)
    by (unfold fexp, emin; lia).
  rewrite Z.sub_diag.
  cbn [shr shr_record_of_loc shr_m loc_of_shr_record shr_r shr_s
       round_nearest_even].
  rewrite Hdz.
  replace (fexp 53 1024 (53 + (d - 53))) with (d - 53)
    by (unfold fexp, emin; lia).
  rewrite Z.sub_diag. cbn [shr shr_record_of_loc shr_m].
  destruct (Z.leb_spec (d - 53) (1024 - 53)); [reflexivity | lia].
Qed.

Lemma truncZ_ofZ (n : Z) : 0 <= n < 2 ^ 52 -> truncZ (ofZ n) = n.
Proof.
  intros [H0 H1]. destruct n as [|p|p]; [reflexivity| |lia].
  assert (Hd : Zpos (digits2_pos p) < 53).
  { destruct (digits2_pos_bounds p) as [Hl _].
    destruct (Z.lt_ge_cases (Zpos (digits2_pos p)) 53) as [|Hge]; [assumption|].
    exfalso.
    assert (2 ^ 52 <= 2 ^ (Zpos (digits2_pos p) - 1))
      by (apply Z.pow_le_mono_r; lia).
    lia. }
  rewrite (ofZ_small p Hd). unfold truncZ.
  destruct (Z.leb_spec 0 (Zpos (digits2_pos p) - 53)); [lia|].
  cbn [cond_Zopp]. rewrite iter_xO_value.
  rewrite Z2Pos.id by lia.
  replace (- (Zpos (digits2_pos p) - 53)) with (53 - Zpos (digits2_pos p)) by lia.
  apply Z.div_mul. apply Z.pow_nonzero; lia.
Qed.

Lemma ToInt32_ofZ (n : Z) : 0 <= n < 2 ^ 52 -> ToInt32 (ofZ n) = wrap32 n.
Proof. intros H. unfold ToInt32, wrap32. now rewrite truncZ_ofZ. Qed.

Lemma wrap32_small (n : Z) : 0 <= n < 2 ^ 31 -> wrap32 n = n.
Proof.
  intros H. unfold wrap32. rewrite Z.mod_small by lia.
  destruct (Z.leb_spec (2 ^ 31) n); [lia | reflexivity].
Qed.

Lemma wrap32_large (n : Z) : 2 ^ 31 <= n -> wrap32 n <> n.
Proof.
  intros H. unfold wrap32.
  assert (0 <= n mod 2 ^ 32 < 2 ^ 32) by (apply Z.mod_pos_bound; lia).
  destruct (Z.leb_spec (2 ^ 31) (n mod 2 ^ 32)); lia.
Qed.

(** ** Strings of digits *)

Lemma isDigit_digitOf (c : ascii) :
  isDigit c = true -> digitOf 10 c = Some (Z.of_nat (nat_of_ascii c) - 48).
Proof.
  unfold isDigit, digitOf. intros H. rewrite H.
  apply andb_true_iff in H as [H1 H2].
  apply Z.leb_le in H1, H2.
  destruct (Z.ltb_spec (Z.of_nat (nat_of_ascii c) - 48) 10); [reflexivity | lia].
Qed.

Lemma isDigit_not (c d : ascii) :
  isDigit c = true -> isDigit d = false -> Ascii.eqb c d = false.
Proof.
  intros Hc Hd. destruct (Ascii.eqb_spec c d) as [->|]; [congruence | reflexivity].
Qed.

Lemma isDigit_not_space (c : ascii) : isDigit c = true -> Js.isWhiteSpace c = false.
Proof.
  unfold isDigit, Js.isWhiteSpace. intros H.
  apply andb_true_iff in H as [H1 H2]. apply Z.leb_le in H1, H2.
  destruct (Nat.leb_spec 9 (nat_of_ascii c)); cbn [andb];
    destruct (Nat.leb_spec (nat_of_ascii c) 13); cbn [andb orb]; try lia;
    destruct (Nat.eqb_spec (nat_of_ascii c) 32); cbn [orb]; try lia;
    destruct (Nat.eqb_spec (nat_of_ascii c) 160); cbn [orb]; try lia;
    reflexivity.
Qed.

Lemma digitRun_digits (s : string) (acc : Z) (cnt : nat) :
  allDigits s = true ->
  digitRun 10 s acc cnt = (digitsValue acc s, (cnt + String.length s)%nat, EmptyString).
Proof.
  revert acc cnt. induction s as [|c s IH]; intros acc cnt H; cbn in *.
  - now rewrite Nat.add_0_r.
  - apply andb_true_iff in H as [Hc Hs].
    rewrite (isDigit_digitOf c Hc), (IH _ _ Hs).
    now rewrite Nat.add_succ_r.
Qed.

Lemma digitsValue_nonneg (s : string) (acc : Z) :
  allDigits s = true -> 0 <= acc -> 0 <= digitsValue acc s.
Proof.
  revert acc.
  induction s as [|c s IH]; intros acc H Ha; cbn [digitsValue allDigits] in *;
    [assumption|].
  apply andb_true_iff in H as [Hc Hs].
  apply IH; [assumption|].
  unfold isDigit in Hc. apply andb_true_iff in Hc as [H1 H2].
  apply Z.leb_le in H1, H2. lia.
Qed.

Lemma trim_digits (s : string) : allDigits s = true -> Js.trim s = s.
Proof.
  intros H. unfold Js.trim.
  assert (Hs : Js.trimStart s = s).
  { destruct s as [|c s]; [reflexivity|]. cbn in *.
    apply andb_true_iff in H as [Hc _].
    now rewrite (isDigit_not_space c Hc). }
  rewrite Hs. clear Hs.
  induction s as [|c s IH]; [reflexivity|]. cbn in *.
  apply andb_true_iff in H as [Hc Hs].
  rewrite (IH Hs). destruct s; [|reflexivity].
  now rewrite (isDigit_not_space c Hc).
Qed.

(** The Number value of a string of digits is the Number value of the
    integer it writes. *)
Lemma StringToNumber_digits (s : string) :
  isDecimal s = true -> StringToNumber s = ofZ (decimalValue s).
Proof.
  unfold isDecimal. intros H. apply andb_true_iff in H as [Hne Hd].
  unfold StringToNumber. rewrite (trim_digits s Hd).
  destruct s as [|c s]; [discriminate|].
  assert (Hc : isDigit c = true) by (cbn in Hd; now apply andb_true_iff in Hd).
  assert (Hp : radixPrefix (String c s) = None).
  { cbn [radixPrefix]. destruct s as [|c2 s]; [reflexivity|].
    assert (Hc2 : isDigit c2 = true).
    { cbn in Hd. apply andb_true_iff in Hd as [_ Hd].
      now apply andb_true_iff in Hd. }
    rewrite !(isDigit_not c2) by (assumption || reflexivity).
    now destruct (Ascii.eqb c "0"). }
  rewrite Hp. unfold signOf.
  rewrite !(isDigit_not c) by (assumption || reflexivity).
  assert (Hi : String.eqb (String c s) "Infinity" = false).
  { cbn [String.eqb]. now rewrite (isDigit_not c "I") by (assumption || reflexivity). }
  rewrite Hi. unfold decimalLiteral.
  rewrite (digitRun_digits (String c s) 0 0 Hd).
  cbn [String.length Nat.add exponentPart]. unfold decimalValue.
  pose proof (digitsValue_nonneg (String c s) 0 Hd (Z.le_refl 0)) as Hv.
  unfold ofDecimal, ofZ. cbn [Z.of_nat Z.sub Z.leb Z.compare Z.opp].
  destruct (digitsValue 0 (String c s)) as [|p|p]; [reflexivity| |lia].
  cbn [cond_Zopp binary_normalize]. rewrite Z.pow_0_r, Z.mul_1_r. reflexivity.
Qed.

End NumberFacts.

(* ================================================================== *)
(** * Reasoning about runs *)
(* ================================================================== *)

Section RespectsFacts.

Variable R : World -> World -> Prop.
Hypothesis R_refl : forall w, R w w.
Hypothesis R_trans : forall a b c, R a b -> R b c -> R a c.

Lemma Respects_ret {A} (a : A) : Respects R (ret a).
Proof. intros w. apply R_refl. Qed.

Lemma Respects_throw {A} (e : Thrown) : Respects R (@throw A e).
Proof. intros w. apply R_refl. Qed.

Lemma Respects_liftRes {A} (x : Res A) : Respects R (Ops.liftRes x).
Proof. intros w. apply R_refl. Qed.

Lemma Respects_bind {A B} (m : M A) (k : A -> M B) :
  Respects R m -> (forall a, Respects R (k a)) -> Respects R (bind m k).
Proof.
  intros Hm Hk w. unfold bind.
  specialize (Hm w).
  destruct (m w) as [[[a|e]|] w1]; simpl in *; try assumption.
  eapply R_trans; [eassumption | apply Hk].
Qed.

Lemma Respects_bind_liftRes {A B} (x : Res A) (k : A -> M B) :
  (forall a, x = Ok a -> Respects R (k a)) ->
  Respects R (bind (Ops.liftRes x) k).
Proof.
  intros Hk w. unfold bind, Ops.liftRes.
  destruct x as [a|e]; simpl; [now apply Hk | apply R_refl].
Qed.

Lemma Respects_tryCatch {A} (m : M A) (h : Thrown -> M A) :
  Respects R m -> (forall e, Respects R (h e)) -> Respects R (tryCatch m h).
Proof.
  intros Hm Hh w. unfold tryCatch.
  specialize (Hm w).
  destruct (m w) as [[[a|e]|] w1]; simpl in *; try assumption.
  eapply R_trans; [eassumption | apply Hh].
Qed.

Lemma Respects_tryFinally {A} (m : M A) (f : M unit) :
  Respects R m -> Respects R f -> Respects R (tryFinally m f).
Proof.
  intros Hm Hf w. unfold tryFinally.
  specialize (Hm w).
  destruct (m w) as [[x|] w1]; simpl in *; try assumption.
  specialize (Hf w1).
  destruct (f w1) as [[[u|e]|] w2]; simpl in *;
    (eapply R_trans; [eassumption | assumption]).
Qed.

End RespectsFacts.

Lemma grows_refl (P : Event -> Prop) (w : World) : grows P w w.
Proof. exists []. now rewrite app_nil_r. Qed.

Lemma grows_same (P : Event -> Prop) (w w' : World) :
  trace w' = trace w -> grows P w w'.
Proof. intros H. exists []. now rewrite app_nil_r. Qed.

Lemma grows_trans (P : Event -> Prop) (a b c : World) :
  grows P a b -> grows P b c -> grows P a c.
Proof.
  intros [e1 [H1 F1]] [e2 [H2 F2]].
  exists (e1 ++ e2)%list. split.
  - now rewrite H2, H1, app_assoc.
  - apply Forall_app. now split.
Qed.

Lemma grows_weaken (P Q : Event -> Prop) (w w' : World) :
  (forall ev, P ev -> Q ev) -> grows P w w' -> grows Q w w'.
Proof.
  intros HPQ [evs [H F]]. exists evs. split; [assumption|].
  eapply Forall_impl; eassumption.
Qed.

Lemma grows_emit (P : Event -> Prop) (w : World) (ev : Event) :
  P ev -> grows P w (emit w ev).
Proof. intros H. exists [ev]. split; [reflexivity | now constructor]. Qed.

Lemma sameHb_refl (w : World) : sameHb w w.
Proof. reflexivity. Qed.

Lemma sameHb_trans (a b c : World) : sameHb a b -> sameHb b c -> sameHb a c.
Proof. unfold sameHb. congruence. Qed.

Lemma opsStep_refl (K : Call -> Prop) (w : World) : opsStep K w w.
Proof. split; [apply grows_refl | apply sameHb_refl]. Qed.

Lemma opsStep_trans (K : Call -> Prop) (a b c : World) :
  opsStep K a b -> opsStep K b c -> opsStep K a c.
Proof.
  intros [G1 H1] [G2 H2].
  split; [eapply grows_trans | eapply sameHb_trans]; eassumption.
Qed.

Ltac respects_step R_refl R_trans :=
  first
    [ match goal with H : _ |- _ => solve [apply H] end
    | apply (Respects_ret _ R_refl)
    | apply (Respects_throw _ R_refl)
    | apply (Respects_liftRes _ R_refl)
    | apply (Respects_bind _ R_trans); [|intro]
    | apply (Respects_tryCatch _ R_trans); [|intro]
    | apply (Respects_tryFinally _ R_trans)
    | match goal with
      | |- Respects _ (if ?c then _ else _) => destruct c
      | |- Respects _ (match ?x with _ => _ end) => destruct x
      end ].

Section OpsRuns.

Variable r : Env.
Variable scripts : Scripts.OmniqScripts.

(** ** What the operations append to the trace *)

Section Trace.

Variable K : Call -> Prop.

Let G := opsStep K.

Ltac grow := repeat respects_step (opsStep_refl K) (opsStep_trans K).

Lemma send_grows (c : Call) : K c -> Respects G (Ops.send r c).
Proof.
  intros H w. split; [|reflexivity].
  exists [Sent c]. split; [reflexivity | now constructor].
Qed.

Lemma nowMs_grows : Respects G (Ops.nowMs r).
Proof. intros w. split; [now apply grows_same | reflexivity]. Qed.

Lemma newUlid_grows : Respects G (Ops.newUlid r).
Proof. intros w. split; [now apply grows_same | reflexivity]. Qed.

Lemma nowOr_grows (x : JsNum.number) : Respects G (Ops.nowOr r x).
Proof. unfold Ops.nowOr. destruct (JsNum.truthy x); [grow | apply nowMs_grows]. Qed.

Lemma lock_grows : Respects G (lock r).
Proof.
  intros w. unfold lock.
  destruct (negb (locked (scriptMutex w))); simpl;
    (split; [|reflexivity]);
    exists [MutexLocked]; (split; [reflexivity | now constructor]).
Qed.

Lemma unlock_grows : Respects G unlock.
Proof.
  intros w. split; [|reflexivity].
  exists [MutexReleased]. split; [reflexivity | now constructor].
Qed.

Lemma fallback_grows (sha src : string) (n : Z) (ka : list string) :
  K (Evalsha sha n ka) -> K (Eval src n ka) ->
  Respects G (Ops.evalshaWithNoScriptFallback r sha src n ka).
Proof.
  intros H1 H2. unfold Ops.evalshaWithNoScriptFallback.
  pose proof (send_grows _ H1). pose proof (send_grows _ H2).
  pose proof lock_grows. pose proof unlock_grows.
  grow.
Qed.

Lemma invoke_grows (s : Scripts.ScriptDef) (anchor : string) (argv : list string) :
  scriptKey K anchor -> Respects G (Ops.invoke r s anchor argv).
Proof.
  intros H. unfold Ops.invoke.
  apply fallback_grows; apply H.
Qed.

Ltac op_grows HK :=
  intros; cbv zeta;
  pose proof (fun s argv => invoke_grows s _ argv HK);
  pose proof nowOr_grows; pose proof newUlid_grows;
  grow.

Lemma publish_grows (args : Ops.PublishArgs) :
  scriptKey K (Helper.queueAnchor (Ops.p_queue args)) ->
  Respects G (Ops.publish r scripts args).
Proof. intros HK. unfold Ops.publish. op_grows HK. Qed.

Lemma pause_grows (q : string) :
  scriptKey K (Helper.queueAnchor q) -> Respects G (Ops.pause r scripts q).
Proof. intros HK. unfold Ops.pause. op_grows HK. Qed.

Lemma resume_grows (q : string) :
  scriptKey K (Helper.queueAnchor q) -> Respects G (Ops.resume r scripts q).
Proof. intros HK. unfold Ops.resume. op_grows HK. Qed.

Lemma is_paused_grows (q : string) :
  K (Exists (Helper.queueBase q ++ ":paused")) -> Respects G (Ops.is_paused r q).
Proof.
  intros HK. unfold Ops.is_paused. pose proof (send_grows _ HK). cbv zeta. grow.
Qed.

Lemma reserve_grows (q : string) (now : option JsNum.number) :
  scriptKey K (Helper.queueAnchor q) -> Respects G (Ops.reserve r scripts q now).
Proof. intros HK. unfold Ops.reserve. op_grows HK. Qed.

Lemma heartbeat_grows (args : Ops.LeaseArgs) :
  scriptKey K (Helper.queueAnchor (Ops.l_queue args)) ->
  Respects G (Ops.heartbeat r scripts args).
Proof. intros HK. unfold Ops.heartbeat. op_grows HK. Qed.

Lemma ack_success_grows (args : Ops.LeaseArgs) :
  scriptKey K (Helper.queueAnchor (Ops.l_queue args)) ->
  Respects G (Ops.ack_success r scripts args).
Proof. intros HK. unfold Ops.ack_success. op_grows HK. Qed.

Lemma ack_fail_grows (args : Ops.AckFailArgs) :
  scriptKey K (Helper.queueAnchor (Ops.f_queue args)) ->
  Respects G (Ops.ack_fail r scripts args).
Proof. intros HK. unfold Ops.ack_fail. op_grows HK. Qed.

Lemma promote_delayed_grows (q : string) (n now : option JsNum.number) :
  scriptKey K (Helper.queueAnchor q) ->
  Respects G (Ops.promote_delayed r scripts q n now).
Proof. intros HK. unfold Ops.promote_delayed. op_grows HK. Qed.

Lemma reap_expired_grows (q : string) (n now : option JsNum.number) :
  scriptKey K (Helper.queueAnchor q) ->
  Respects G (Ops.reap_expired r scripts q n now).
Proof. intros HK. unfold Ops.reap_expired. op_grows HK. Qed.

Lemma job_timeout_ms_grows (q id : string) (d : option JsNum.number) :
  K (Hget (Helper.queueBase q ++ ":job:" ++ id) "timeout_ms") ->
  Respects G (Ops.job_timeout_ms r q id d).
Proof.
  intros HK. unfold Ops.job_timeout_ms. pose proof (send_grows _ HK).
  cbv zeta. grow.
Qed.

Lemma retry_failed_grows (q id : string) (now : option JsNum.number) :
  scriptKey K (Helper.queueAnchor q) ->
  Respects G (Ops.retry_failed r scripts q id now).
Proof. intros HK. unfold Ops.retry_failed. op_grows HK. Qed.

Lemma retry_failed_batch_grows (q : string) (ids : list string)
    (now : option JsNum.number) :
  scriptKey K (Helper.queueAnchor q) ->
  Respects G (Ops.retry_failed_batch r scripts q ids now).
Proof. intros HK. unfold Ops.retry_failed_batch. op_grows HK. Qed.

Lemma remove_job_grows (q id lane : string) :
  scriptKey K (Helper.queueAnchor q) ->
  Respects G (Ops.remove_job r scripts q id lane).
Proof. intros HK. unfold Ops.remove_job. op_grows HK. Qed.

Lemma remove_jobs_batch_grows (q lane : string) (ids : list string) :
  scriptKey K (Helper.queueAnchor q) ->
  Respects G (Ops.remove_jobs_batch r scripts q lane ids).
Proof. intros HK. unfold Ops.remove_jobs_batch. op_grows HK. Qed.

Lemma childs_init_grows (key : string) (n : JsNum.number) :
  (forall anchor, Helper.childsAnchor key = Ok anchor -> scriptKey K anchor) ->
  Respects G (Ops.childs_init r scripts key n).
Proof.
  intros HK. unfold Ops.childs_init.
  apply (Respects_bind_liftRes _ (opsStep_refl K)).
  intros anchor Ha. specialize (HK anchor Ha). op_grows HK.
Qed.

Lemma child_ack_grows (key child_id : string) :
  (forall anchor, Helper.childsAnchor key = Ok anchor -> scriptKey K anchor) ->
  Respects G (Ops.child_ack r scripts key child_id).
Proof.
  intros HK. unfold Ops.child_ack.
  apply (Respects_bind_liftRes _ (opsStep_refl K)).
  intros anchor Ha. specialize (HK anchor Ha). op_grows HK.
Qed.

End Trace.

End OpsRuns.

(* ================================================================== *)
(** * Operations and the script mutex *)
(* ================================================================== *)

Section SettlesFacts.

Lemma Settles_ret {A} (a : A) : Settles (ret a).
Proof. intros w. discriminate. Qed.

Lemma Settles_throw {A} (e : Thrown) : Settles (@throw A e).
Proof. intros w. discriminate. Qed.

Lemma Settles_liftRes {A} (x : Res A) : Settles (Ops.liftRes x).
Proof. intros w. discriminate. Qed.

Lemma Settles_bind {A B} (m : M A) (k : A -> M B) :
  Settles m -> (forall a, Settles (k a)) -> Settles (bind m k).
Proof.
  intros Hm Hk w. specialize (Hm w). unfold bind.
  destruct (m w) as [[[a|e]|] w']; cbn in *.
  - apply Hk.
  - discriminate.
  - now destruct Hm.
Qed.

Lemma Settles_tryCatch {A} (m : M A) (h : Thrown -> M A) :
  Settles m -> (forall e, Settles (h e)) -> Settles (tryCatch m h).
Proof.
  intros Hm Hh w. specialize (Hm w). unfold tryCatch.
  destruct (m w) as [[[a|e]|] w']; cbn in *.
  - exact Hm.
  - apply Hh.
  - exact Hm.
Qed.

Lemma Settles_tryFinally {A} (m : M A) (f : M unit) :
  Settles m -> Returns f -> Settles (tryFinally m f).
Proof.
  intros Hm Hf w. specialize (Hm w). unfold tryFinally.
  destruct (m w) as [[x|] w']; cbn in *; [|exact Hm].
  destruct (Hf w') as [[] E].
  destruct (f w') as [[[[]|e]|] w'']; cbn in *; discriminate.
Qed.

Lemma Settles_void {A} (m : M A) : Settles m -> Settles (void m).
Proof. intro H. apply Settles_bind; [exact H | intro; apply Settles_ret]. Qed.

Lemma Returns_Settles {A} (m : M A) : Returns m -> Settles m.
Proof. intros H w. destruct (H w) as [a E]. rewrite E. discriminate. Qed.

Lemma Returns_ret {A} (a : A) : Returns (ret a).
Proof. intros w. now exists a. Qed.

Lemma Returns_bind {A B} (m : M A) (k : A -> M B) :
  Returns m -> (forall a, Returns (k a)) -> Returns (bind m k).
Proof.
  intros Hm Hk w. destruct (Hm w) as [a E]. unfold bind.
  destruct (m w) as [[[a'|e]|] w']; cbn in *; try discriminate.
  apply Hk.
Qed.

(** A [try] block that settles and a [catch] block that comes to a value:
    the statement comes to a value. *)
Lemma Returns_tryCatch {A} (m : M A) (h : Thrown -> M A) :
  Settles m -> (forall e, Returns (h e)) -> Returns (tryCatch m h).
Proof.
  intros Hm Hh w. specialize (Hm w). unfold tryCatch.
  destruct (m w) as [[[a|e]|] w']; cbn in *.
  - now exists a.
  - apply Hh.
  - now destruct Hm.
Qed.

Lemma Returns_tryFinally {A} (m : M A) (f : M unit) :
  Returns m -> Returns f -> Returns (tryFinally m f).
Proof.
  intros Hm Hf w. destruct (Hm w) as [a E]. unfold tryFinally.
  destruct (m w) as [[x|] w']; cbn in *; [|discriminate].
  destruct (Hf w') as [[] E'].
  destruct (f w') as [[[[]|e]|] w'']; cbn in *; try discriminate.
  now exists a.
Qed.

Variable r : Env.
Variable scripts : Scripts.OmniqScripts.

Lemma Settles_send (c : Call) : Settles (Ops.send r c).
Proof. intros w. discriminate. Qed.

Lemma Settles_nowMs : Settles (Ops.nowMs r).
Proof. intros w. discriminate. Qed.

Lemma Settles_newUlid : Settles (Ops.newUlid r).
Proof. intros w. discriminate. Qed.

Lemma Settles_nowOr (x : JsNum.number) : Settles (Ops.nowOr r x).
Proof.
  unfold Ops.nowOr. destruct (JsNum.truthy x);
    [apply Settles_ret | apply Settles_nowMs].
Qed.

Lemma Returns_lock : Returns (lock r).
Proof.
  intros w. unfold lock. exists tt.
  now destruct (negb (locked (scriptMutex w))).
Qed.

Lemma Returns_unlock : Returns unlock.
Proof. intros w. now exists tt. Qed.

(** The helper comes to a result whoever holds the script mutex: the
    caller waits for its turn and then sends its EVAL. *)
Lemma fallback_settles (sha src : string) (n : Z) (ka : list string) (w : World) :
  exists o w',
    Ops.evalshaWithNoScriptFallback r sha src n ka w = (Done o, w').
Proof.
  assert (S : Settles (Ops.evalshaWithNoScriptFallback r sha src n ka)).
  { unfold Ops.evalshaWithNoScriptFallback.
    apply Settles_tryCatch; [apply Settles_send|].
    intros e. destruct (negb (Ops.isNoScriptError e)); [apply Settles_throw|].
    apply Settles_bind; [apply Returns_Settles, Returns_lock|].
    intros _. apply Settles_tryFinally; [apply Settles_send | apply Returns_unlock]. }
  specialize (S w).
  destruct (Ops.evalshaWithNoScriptFallback r sha src n ka w) as [[o|] w'];
    [now exists o, w' | now destruct S].
Qed.

Lemma Settles_invoke (s : Scripts.ScriptDef) (anchor : string) (argv : list string) :
  Settles (Ops.invoke r s anchor argv).
Proof.
  intros w. unfold Ops.invoke.
  destruct (fallback_settles (Scripts.sha s) (Scripts.src s) 1 (anchor :: argv) w)
    as (o & w' & E).
  rewrite E. discriminate.
Qed.

End SettlesFacts.

Ltac settles :=
  intros; cbv zeta;
  repeat first
    [ apply Settles_invoke
    | apply Settles_nowOr
    | apply Settles_newUlid
    | apply Settles_send
    | apply Settles_ret
    | apply Settles_throw
    | apply Settles_liftRes
    | apply Settles_void
    | apply Settles_bind; [|intro]
    | apply Settles_tryCatch; [|intro]
    | progress cbv zeta
    | match goal with
      | |- Settles (if ?c then _ else _) => destruct c
      | |- Settles (match ?x with _ => _ end) => destruct x
      end ].

Ltac unfold_ops :=
  cbv beta delta
    [Ops.publish Ops.pause Ops.resume Ops.is_paused Ops.reserve Ops.heartbeat
     Ops.ack_success Ops.ack_fail Ops.promote_delayed Ops.reap_expired
     Ops.job_timeout_ms Ops.retry_failed Ops.retry_failed_batch
     Ops.remove_job Ops.remove_jobs_batch Ops.childs_init Ops.child_ack].

Section OpsSettle.

Variable r : Env.
Variable scripts : Scripts.OmniqScripts.



Lemma void_settles {A} (m : M A) : Settles (void m) -> Settles m.
Proof.
  intros H w. specialize (H w). unfold void, bind in H.
  destruct (m w) as [[[a|e]|] w']; cbn in *; try discriminate.
  now destruct H.
Qed.

End OpsSettle.

(* ================================================================== *)
(** * Key layout (src/helper.ts) *)
(* ================================================================== *)

Section KeyLayout.

Lemma queueBase_hashTagged (q suffix : string) :
  hashTagged q (Helper.queueBase q ++ suffix) = true.
Proof.
  unfold hashTagged, Helper.queueBase.
  destruct (Js.includes q "{" && Js.includes q "}").
  - apply startsWith_spec. now exists suffix.
  - apply includes_prefix.
Qed.

Lemma childsAnchor_accepted (key : string) :
  keyAccepted (Js.trim key) = true ->
  Helper.childsAnchor key = Ok ("{cc:" ++ Js.trim key ++ "}:meta").
Proof.
  unfold keyAccepted, Helper.childsAnchor, Helper.childsAnchorMax.
  intros H. apply andb_true_iff in H as [H Hlen].
  apply andb_true_iff in H as [H Hr]. apply andb_true_iff in H as [Ht Hl].
  apply negb_true_iff in Hl, Hr. apply Nat.leb_le in Hlen.
  rewrite Ht, Hl, Hr. simpl.
  destruct (Nat.ltb_spec 128 (String.length (Js.trim key))); [lia | reflexivity].
Qed.

Lemma childsAnchor_rejected (key : string) :
  keyAccepted (Js.trim key) = false ->
  exists msg,
    Helper.childsAnchor key = Throw (Error msg)
    /\ (msg = "childs_anchor key is required"
        \/ msg = "childs_anchor key must not contain '{' or '}'"
        \/ msg = "childs_anchor key too long (max 128 chars)").
Proof.
  unfold keyAccepted, Helper.childsAnchor, Helper.childsAnchorMax.
  intros H.
  destruct (Js.truthy (Js.trim key)); simpl in *.
  - destruct (Js.includes (Js.trim key) "{"); simpl in *.
    + eexists. split; [reflexivity | tauto].
    + destruct (Js.includes (Js.trim key) "}"); simpl in *.
      * eexists. split; [reflexivity | tauto].
      * apply Nat.leb_gt in H.
        destruct (Nat.ltb_spec 128 (String.length (Js.trim key))); [|lia].
        eexists. split; [reflexivity | tauto].
  - eexists. split; [reflexivity | tauto].
Qed.

Lemma childsAnchor_tagged (key anchor : string) :
  Helper.childsAnchor key = Ok anchor ->
  anchor = "{cc:" ++ Js.trim key ++ "}:meta"
  /\ Js.includes anchor ("{cc:" ++ Js.trim key ++ "}") = true.
Proof.
  intros H.
  destruct (keyAccepted (Js.trim key)) eqn:E.
  - rewrite (childsAnchor_accepted key E) in H. injection H as <-.
    split; [reflexivity|].
    apply includes_spec. exists EmptyString, ":meta".
    simpl. now rewrite append_assoc.
  - destruct (childsAnchor_rejected key E) as [msg [Hm _]]. congruence.
Qed.

(** C7, as amended: [childsAnchor] checks the key after trimming it.  A key
    whose trimmed form [k] is non-empty, free of braces and at most 128
    characters long gives ["{cc:" + k + "}:meta"].  Any other key fails
    with an [Error] that carries one of three messages, and then
    [childs_init] and [child_ack] throw that error and leave the world as
    it is: nothing is sent to the store. *)
Theorem childsAnchor_checks_trimmed_key (key : string) :
  if keyAccepted (Js.trim key)
  then Helper.childsAnchor key = Ok ("{cc:" ++ Js.trim key ++ "}:meta")
  else exists msg,
      Helper.childsAnchor key = Throw (Error msg)
      /\ (msg = "childs_anchor key is required"
          \/ msg = "childs_anchor key must not contain '{' or '}'"
          \/ msg = "childs_anchor key too long (max 128 chars)")
      /\ forall r scripts expected child_id w,
          Ops.childs_init r scripts key expected w = (Done (Throw (Error msg)), w)
          /\ Ops.child_ack r scripts key child_id w = (Done (Throw (Error msg)), w).
Proof.
  destruct (keyAccepted (Js.trim key)) eqn:E.
  - now apply childsAnchor_accepted.
  - destruct (childsAnchor_rejected key E) as [msg [Hm Hc]].
    exists msg. repeat split; try assumption.
    + unfold Ops.childs_init, bind, Ops.liftRes. now rewrite Hm.
    + unfold Ops.child_ack, bind, Ops.liftRes. now rewrite Hm.
Qed.

(** C7 as stated fails: the key [" a"] is non-empty, two characters long
    and free of braces, and its anchor is built from ["a"]; a key of 128
    letters and a trailing space is 129 characters long and is accepted. *)
Lemma childsAnchor_untrimmed_key_counterexample :
  (" a" <> EmptyString
   /\ (String.length " a" <= 128)%nat
   /\ Js.includes " a" "{" = false
   /\ Js.includes " a" "}" = false
   /\ Helper.childsAnchor " a" = Ok "{cc:a}:meta"
   /\ Helper.childsAnchor " a" <> Ok ("{cc:" ++ " a" ++ "}:meta"))
  /\ ((128 < String.length
         "aaaaaaaaaaaaaaaaaaaaaaaaaaaaaaaaaaaaaaaaaaaaaaaaaaaaaaaaaaaaaaaaaaaaaaaaaaaaaaaaaaaaaaaaaaaaaaaaaaaaaaaaaaaaaaaaaaaaaaaaaaaaaaaa ")%nat
      /\ exists anchor,
          Helper.childsAnchor
            "aaaaaaaaaaaaaaaaaaaaaaaaaaaaaaaaaaaaaaaaaaaaaaaaaaaaaaaaaaaaaaaaaaaaaaaaaaaaaaaaaaaaaaaaaaaaaaaaaaaaaaaaaaaaaaaaaaaaaaaaaaaaaaaa "
          = Ok anchor).
Proof.
  split.
  - repeat split; try reflexivity; try discriminate.
    simpl. lia.
  - split; [vm_compute; lia | eexists; vm_compute; reflexivity].
Qed.

Section QueueKeys.

Variable r : Env.
Variable scripts : Scripts.OmniqScripts.

Lemma queueCall_anchor (q : string) : scriptKey (queueCall q) (Helper.queueAnchor q).
Proof.
  intros code argv. unfold queueCall, Helper.queueAnchor. simpl.
  repeat split; repeat constructor; apply queueBase_hashTagged.
Qed.

Lemma queueCall_paused (q : string) :
  queueCall q (Exists (Helper.queueBase q ++ ":paused")).
Proof.
  split; [reflexivity|]. repeat constructor. apply queueBase_hashTagged.
Qed.

Lemma queueCall_job (q id : string) :
  queueCall q (Hget (Helper.queueBase q ++ ":job:" ++ id) "timeout_ms").
Proof.
  split; [now exists id|]. repeat constructor. apply queueBase_hashTagged.
Qed.

Lemma childCall_anchor (key anchor : string) :
  Helper.childsAnchor key = Ok anchor -> scriptKey (childCall key) anchor.
Proof.
  intros H code argv. unfold childCall.
  destruct (childsAnchor_tagged key anchor H) as [_ Hi].
  split; exists anchor; now repeat split.
Qed.

(** C6, as amended: every key the client builds carries the hash tag.  For
    a queue [q], every script call declares the one key
    [queueBase q + ":meta"], [is_paused] reads [queueBase q + ":paused"]
    and [job_timeout_ms] reads [queueBase q + ":job:" + job_id]; each of
    these keys contains ["{" + q + "}"] unless [q] has both braces, and
    then it starts with [q] as it is.  For a child key, every script call
    declares the one anchor, which contains ["{cc:" + k + "}"] for the
    trimmed key [k]. *)
Theorem client_keys_carry_hash_tag :
  (forall q op w,
      grows (storeEv (queueCall q)) w (performQueueOp r scripts q op w))
  /\ (forall key op w,
      grows (storeEv (childCall key)) w (performChildOp r scripts key op w)).
Proof.
  split.
  - intros q op w.
    pose proof (queueCall_anchor q) as HA.
    destruct op; unfold performQueueOp, after.
    + now apply publish_grows.
    + now apply pause_grows.
    + now apply resume_grows.
    + apply is_paused_grows, queueCall_paused.
    + now apply reserve_grows.
    + now apply heartbeat_grows.
    + now apply ack_success_grows.
    + now apply ack_fail_grows.
    + now apply promote_delayed_grows.
    + now apply reap_expired_grows.
    + apply job_timeout_ms_grows, queueCall_job.
    + now apply retry_failed_grows.
    + now apply retry_failed_batch_grows.
    + now apply remove_job_grows.
    + now apply remove_jobs_batch_grows.
  - intros key op w.
    destruct op; unfold performChildOp, after.
    + apply childs_init_grows. apply childCall_anchor.
    + apply child_ack_grows. apply childCall_anchor.
Qed.

End QueueKeys.

(** C6 as stated fails for a child key with white space around it: the key
    [" a"] meets the three constraints, and its anchor ["{cc:a}:meta"] does
    not contain ["{cc: a}"]. *)
Lemma child_key_hash_tag_counterexample :
  " a" <> EmptyString
  /\ (String.length " a" <= 128)%nat
  /\ Js.includes " a" "{" = false
  /\ Js.includes " a" "}" = false
  /\ Helper.childsAnchor " a" = Ok "{cc:a}:meta"
  /\ Js.includes "{cc:a}:meta" ("{cc:" ++ " a" ++ "}") = false.
Proof.
  repeat split; try reflexivity; try discriminate.
  simpl. lia.
Qed.

End KeyLayout.

(* ================================================================== *)
(** * The NOSCRIPT fallback (src/ops.ts) *)
(* ================================================================== *)

Section Fallback.

Lemma isNoScriptError_spec (e : Thrown) :
  Ops.isNoScriptError e = true <-> mentionsNoScript e.
Proof.
  split.
  - destruct e as [name msg| | |]; simpl; try discriminate.
    intros H. apply includes_spec in H as [a [b H]].
    apply toUpperCase_split in H as [pre [rest [-> [_ H]]]].
    apply toUpperCase_split in H as [mid [post [-> [H _]]]].
    now exists name, pre, mid, post.
  - intros [name [pre [mid [post [-> H]]]]]. simpl.
    rewrite !toUpperCase_app, H. apply includes_middle.
Qed.

Variable r : Env.

(** C3: the helper sends [EVALSHA] first.  A reply is returned as it is.
    An error whose message contains NOSCRIPT, whatever the case of its
    letters, makes the helper take the script mutex, in its turn when
    another call holds it once [EVALSHA] has been answered.  It then holds
    the mutex, sends [EVAL] with the script source once, releases the mutex
    and comes to what [EVAL] came to.  Any other error is thrown again as it
    is and no [EVAL] is sent. *)
Theorem evalsha_falls_back_on_noscript
    (sha src : string) (numkeys : Z) (keysAndArgs : list string) (w : World) :
  let run := Ops.evalshaWithNoScriptFallback r sha src numkeys keysAndArgs w in
  let evalsha := Evalsha sha numkeys keysAndArgs in
  let eval := Eval src numkeys keysAndArgs in
  let answered := after (Ops.send r evalsha) w in
  match store r (tick w) evalsha with
  | Ok reply =>
      run = (Done (Ok reply), answered)
      /\ trace answered = (trace w ++ [Sent evalsha])%list
  | Throw e =>
      (mentionsNoScript e ->
       exists holding : World,
         locked (scriptMutex holding) = true
         /\ trace holding = (trace w ++ [Sent evalsha; MutexLocked])%list
         /\ tick holding
            = (if locked (scriptMutex answered)
               then S (tick answered) else tick answered)
         /\ run = (Done (store r (tick holding) eval),
                   after unlock (after (Ops.send r eval) holding))
         /\ trace (snd run)
            = (trace w ++ [Sent evalsha; MutexLocked; Sent eval; MutexReleased])%list)
      /\ (~ mentionsNoScript e ->
          run = (Done (Throw e), answered)
          /\ trace answered = (trace w ++ [Sent evalsha])%list)
  end.
Proof.
  cbv zeta.
  unfold after, Ops.evalshaWithNoScriptFallback, tryCatch.
  set (evalsha := Evalsha sha numkeys keysAndArgs).
  set (w1 := snd (Ops.send r evalsha w)).
  assert (E1 : Ops.send r evalsha w = (Done (store r (tick w) evalsha), w1))
    by reflexivity.
  rewrite E1.
  assert (T1 : trace w1 = (trace w ++ [Sent evalsha])%list) by reflexivity.
  destruct (store r (tick w) evalsha) as [reply|e].
  - now split.
  - split.
    + intros Hm. apply isNoScriptError_spec in Hm. rewrite Hm. cbn [negb].
      set (holding := snd (lock r w1)).
      assert (L : lock r w1 = (Done (Ok tt), holding)
                  /\ trace holding = (trace w1 ++ [MutexLocked])%list
                  /\ locked (scriptMutex holding) = true
                  /\ tick holding
                     = if locked (scriptMutex w1) then S (tick w1) else tick w1).
      { subst holding. unfold lock.
        now destruct (locked (scriptMutex w1)). }
      destruct L as (L & T2 & K & N).
      unfold bind. rewrite L.
      exists holding.
      split; [exact K|]. split; [now rewrite T2, T1, <- app_assoc|].
      split; [exact N|]. split; [reflexivity|].
      unfold tryFinally, unlock, Ops.send.
      cbn [fst snd trace emit withMutex withTick].
      rewrite T2, T1, <- !app_assoc. reflexivity.
    + intros Hm.
      destruct (Ops.isNoScriptError e) eqn:En.
      * exfalso. apply Hm. now apply isNoScriptError_spec.
      * cbn. now split.
Qed.

End Fallback.

(** The fallback on a flushed script cache, met by a second call: that
    call takes the script mutex while [EVALSHA] is awaited, and the helper
    takes it in its turn, sends [EVAL] and returns its reply. *)
Lemma evalsha_falls_back_on_noscript_witness :
  let r := Sample.raced (Val.RArr [Val.RStr "OK"]) in
  let run :=
    Ops.evalshaWithNoScriptFallback r "sha:pause" "lua:pause" 1
      ["{demo}:meta"] initialWorld in
  locked (scriptMutex
            (after (Ops.send r (Evalsha "sha:pause" 1 ["{demo}:meta"]))
               initialWorld)) = true
  /\ fst run = Done (Ok (Val.RArr [Val.RStr "OK"]))
  /\ trace (snd run)
     = [Sent (Evalsha "sha:pause" 1 ["{demo}:meta"]); MutexLocked;
        Sent (Eval "lua:pause" 1 ["{demo}:meta"]); MutexReleased].
Proof.
  intros r run.
  split; [reflexivity|].
  pose proof (evalsha_falls_back_on_noscript r
                "sha:pause" "lua:pause" 1 ["{demo}:meta"] initialWorld)
    as H.
  cbv zeta in H.
  change (store r (tick initialWorld) (Evalsha "sha:pause" 1 ["{demo}:meta"]))
    with (@Throw Val.Reply
            (JsError "ReplyError" "NOSCRIPT No matching script. Please use EVAL."))
    in H.
  cbv iota beta in H.
  destruct H as [H _].
  destruct H as (holding & _ & _ & _ & Hrun & Htrace).
  { exists "ReplyError", EmptyString, "NOSCRIPT",
           " No matching script. Please use EVAL.".
    split; reflexivity. }
  split; [|exact Htrace].
  fold run in Hrun. rewrite Hrun. reflexivity.
Defined.

(* ================================================================== *)
(** * Publishing and heartbeating (src/ops.ts, src/exec.ts) *)
(* ================================================================== *)

Section Marshalling.

Import Val JsNum.

Variable r : Env.
Variable scripts : Scripts.OmniqScripts.

(** The helper always sends [EVALSHA] first. *)
Lemma fallback_sends_evalsha (sha src : string) (n : Z) (ka : list string) (w : World) :
  exists rest,
    trace (after (Ops.evalshaWithNoScriptFallback r sha src n ka) w)
    = (trace w ++ Sent (Evalsha sha n ka) :: rest)%list.
Proof.
  unfold after, Ops.evalshaWithNoScriptFallback, tryCatch, Ops.send.
  destruct (store r (tick w) (Evalsha sha n ka)) as [reply|e]; cbn.
  - now exists [].
  - destruct (Ops.isNoScriptError e); cbn.
    + unfold bind, lock, tryFinally, unlock, Ops.send. cbn.
      destruct (locked (meanwhile r (tick w) (scriptMutex w))); cbn;
        rewrite <- !app_assoc; cbn; eexists; reflexivity.
    + now exists [].
Qed.

Lemma nowOr_trace (x : number) (w : World) :
  exists v w',
    Ops.nowOr r x w = (Done (Ok v), w')
    /\ trace w' = trace w /\ scriptMutex w' = scriptMutex w.
Proof.
  unfold Ops.nowOr. destruct (truthy x).
  - exists x, w. now repeat split.
  - eexists _, _. split; [reflexivity | now split].
Qed.

Lemma truncStr_3 : Ops.truncStr (ofZ 3) = "3".
Proof. vm_compute. reflexivity. Qed.

Lemma truncStr_0 : Ops.truncStr (ofZ 0) = "0".
Proof. vm_compute. reflexivity. Qed.

Lemma truncStr_5000 : Ops.truncStr (ofZ 5000) = "5000".
Proof. vm_compute. reflexivity. Qed.

Lemma truncStr_30000 : Ops.truncStr (ofZ 30000) = "30000".
Proof. vm_compute. reflexivity. Qed.

Lemma truncStr_60000 : Ops.truncStr (ofZ 60000) = "60000".
Proof. vm_compute. reflexivity. Qed.

(** With a payload that passes the check, [publish] sends the enqueue
    script with the anchor and the nine arguments in their order. *)
Lemma publish_sends (args : Ops.PublishArgs) (w : World) :
  isObjectNotArray (Ops.p_payload args) || isArrayVal (Ops.p_payload args) = true ->
  exists jid nms rest,
    trace (after (Ops.publish r scripts args) w)
    = (trace w
       ++ Sent (Evalsha (Scripts.sha (Scripts.enqueue scripts)) 1
                  [Helper.queueAnchor (Ops.p_queue args);
                   jid;
                   JSON_stringify (Ops.p_payload args);
                   Ops.truncStr (Ops.orDefault (Ops.p_max_attempts args) (ofZ 3));
                   Ops.truncStr (Ops.orDefault (Ops.p_timeout_ms args) (ofZ 30000));
                   Ops.truncStr (Ops.orDefault (Ops.p_backoff_ms args) (ofZ 5000));
                   Ops.truncStr nms;
                   Ops.truncStr (Ops.orDefault (Ops.p_due_ms args) (ofZ 0));
                   Js.trim (match Ops.p_gid args with
                            | Some g => g
                            | None => EmptyString
                            end);
                   (if truthy (Ops.orDefault (Ops.p_group_limit args) (ofZ 0))
                       && gt0 (Ops.orDefault (Ops.p_group_limit args) (ofZ 0))
                    then Ops.truncStr (Ops.orDefault (Ops.p_group_limit args) (ofZ 0))
                    else "0")])
          :: rest)%list.
Proof.
  intros Hp. unfold after, Ops.publish.
  replace (negb (isObjectNotArray (Ops.p_payload args))
           && negb (isArrayVal (Ops.p_payload args))) with false
    by (rewrite <- negb_orb, Hp; reflexivity).
  cbv zeta. unfold bind at 1.
  destruct (nowOr_trace
              (Ops.orDefault (Ops.p_now_ms_override args) (ofZ 0)) w)
    as [nms [w1 [-> [Ht1 _]]]].
  unfold bind at 1.
  assert (exists jid w2,
             match Ops.p_job_id args with
             | Some j => if Js.truthy j then ret j else Ops.newUlid r
             | None => Ops.newUlid r
             end w1 = (Done (Ok jid), w2) /\ trace w2 = trace w1)
    as [jid [w2 [-> Ht2]]].
  { destruct (Ops.p_job_id args) as [j|]; [destruct (Js.truthy j)|];
      eexists _, _; (split; [reflexivity | reflexivity]). }
  exists jid, nms.
  unfold bind, Ops.invoke.
  match goal with
  | |- context [Ops.evalshaWithNoScriptFallback r ?a ?b ?c ?d w2] =>
      destruct (fallback_sends_evalsha a b c d w2) as [rest Hr];
      unfold after in Hr;
      destruct (Ops.evalshaWithNoScriptFallback r a b c d w2)
        as [[[res|e]|] w3]
  end; cbn [snd] in Hr |- *; rewrite <- Ht1, <- Ht2.
  - exists rest. rewrite <- Hr.
    destruct (Ops.shorterThan res 2); [reflexivity|].
    destruct (negb _); reflexivity.
  - now exists rest.
  - now exists rest.
Qed.

(** C4: [publish] throws a [TypeError] and leaves the world as it is, so
    that nothing is sent to the store, when the payload is [null], a
    string, a number or a boolean (or [undefined]); with an object or an
    array the check passes and the enqueue script is sent. *)
Theorem publish_rejects_primitive_payloads (args : Ops.PublishArgs) (w : World) :
  match Ops.p_payload args with
  | VObj _ | VArr _ =>
      exists argv rest,
        trace (after (Ops.publish r scripts args) w)
        = (trace w
           ++ Sent (Evalsha (Scripts.sha (Scripts.enqueue scripts)) 1
                      (Helper.queueAnchor (Ops.p_queue args) :: argv))
              :: rest)%list
  | VNull | VStr _ | VNum _ | VBool _ | VUndefined =>
      Ops.publish r scripts args w
      = (Done (Throw (TypeError
           ("publish(payload=...) must be an object or array (structured JSON). "
            ++ "Wrap strings as {text: '...'} or {value: '...'}."))), w)
  end.
Proof.
  destruct (Ops.p_payload args) eqn:E;
    try (unfold Ops.publish; rewrite E; reflexivity).
  - destruct (publish_sends args w) as [jid [nms [rest H]]].
    + now rewrite E.
    + eexists _, rest. exact H.
  - destruct (publish_sends args w) as [jid [nms [rest H]]].
    + now rewrite E.
    + eexists _, rest. exact H.
Qed.

(** The defaults of [publish] on the operations layer: 3 attempts, a lease
    of 30000 ms, a backoff of 5000 ms, due at once, no group. *)
Lemma publish_defaults (queue : string) (payload : JsVal) (w : World) :
  isObjectNotArray payload || isArrayVal payload = true ->
  exists jid nms rest,
    trace (after (Ops.publish r scripts
                    (Ops.mkPublishArgs queue payload None None None None None
                       None None None)) w)
    = (trace w
       ++ Sent (Evalsha (Scripts.sha (Scripts.enqueue scripts)) 1
                  [Helper.queueAnchor queue; jid; JSON_stringify payload;
                   "3"; "30000"; "5000"; nms; "0"; EmptyString; "0"])
          :: rest)%list.
Proof.
  intros Hp.
  destruct (publish_sends
              (Ops.mkPublishArgs queue payload None None None None None
                 None None None) w Hp) as [jid [nms [rest H]]].
  exists jid, (Ops.truncStr nms), rest.
  cbn [Ops.p_queue Ops.p_payload Ops.p_max_attempts Ops.p_timeout_ms
       Ops.p_backoff_ms Ops.p_due_ms Ops.p_gid Ops.p_group_limit
       Ops.orDefault] in H.
  rewrite truncStr_3, truncStr_30000, truncStr_5000, truncStr_0 in H.
  exact H.
Qed.

(** C5 on the code: through the facade handed to handlers, a [publish] that
    leaves the optional fields out marshals a lease of 60000 ms, where the
    operations layer marshals 30000; the other defaults agree. *)
Theorem exec_publish_defaults_to_60000
    (self : ExecFacade.Exec) (queue : string) (payload : JsVal) (w : World) :
  isObjectNotArray payload || isArrayVal payload = true ->
  exists jid nms rest,
    trace (after (ExecFacade.publish r scripts self
                    (ExecFacade.mkPublishArgs queue payload None None None None
                       None None None)) w)
    = (trace w
       ++ Sent (Evalsha (Scripts.sha (Scripts.enqueue scripts)) 1
                  [Helper.queueAnchor queue; jid; JSON_stringify payload;
                   "3"; "60000"; "5000"; nms; "0"; EmptyString; "0"])
          :: rest)%list.
Proof.
  intros Hp. unfold ExecFacade.publish.
  cbn [ExecFacade.p_queue ExecFacade.p_payload ExecFacade.p_job_id
       ExecFacade.p_max_attempts ExecFacade.p_timeout_ms
       ExecFacade.p_backoff_ms ExecFacade.p_due_ms ExecFacade.p_gid
       ExecFacade.p_group_limit Ops.orDefault].
  match goal with
  | |- context [Ops.publish r scripts ?a] =>
      destruct (publish_sends a w Hp) as [jid [nms [rest H]]]
  end.
  exists jid, (Ops.truncStr nms), rest.
  cbn [Ops.p_queue Ops.p_payload Ops.p_max_attempts Ops.p_timeout_ms
       Ops.p_backoff_ms Ops.p_due_ms Ops.p_gid Ops.p_group_limit
       Ops.orDefault] in H.
  rewrite truncStr_3, truncStr_60000, truncStr_5000, truncStr_0 in H.
  exact H.
Qed.

(** On an [OK] reply [heartbeat] returns [Number(res[1]) | 0]. *)
Lemma heartbeat_on_ok (args : Ops.LeaseArgs) (x : Reply) (more : list Reply) (w : World) :
  (forall n c, store r n c = Ok (RArr (RStr "OK" :: x :: more))) ->
  fst (Ops.heartbeat r scripts args w) = Done (Ok (ToInt32 (Number_ (Some x)))).
Proof.
  intros Hs. unfold Ops.heartbeat. unfold bind at 1.
  destruct (nowOr_trace (Ops.orDefault (Ops.l_now_ms_override args) (ofZ 0)) w)
    as [nms [w1 [-> _]]].
  unfold bind, Ops.invoke, Ops.evalshaWithNoScriptFallback, tryCatch, Ops.send.
  rewrite Hs. reflexivity.
Qed.

(** For a reply ["OK", v] with [v] a string of digits that writes an integer
    below 2^52, [heartbeat] returns that integer read as a signed 32-bit
    integer: the integer itself below 2^31, and another one from 2^31 on. *)
Lemma heartbeat_returns_wrapped_expiry
    (args : Ops.LeaseArgs) (v : string) (more : list Reply) (w : World) :
  isDecimal v = true ->
  decimalValue v < 2 ^ 52 ->
  (forall n c, store r n c = Ok (RArr (RStr "OK" :: RStr v :: more))) ->
  fst (Ops.heartbeat r scripts args w) = Done (Ok (wrap32 (decimalValue v)))
  /\ (decimalValue v < 2 ^ 31 -> wrap32 (decimalValue v) = decimalValue v)
  /\ (2 ^ 31 <= decimalValue v -> wrap32 (decimalValue v) <> decimalValue v).
Proof.
  intros Hd Hv Hs.
  assert (H0 : 0 <= decimalValue v).
  { unfold isDecimal in Hd. apply andb_true_iff in Hd as [_ Hd].
    now apply digitsValue_nonneg. }
  repeat split.
  - rewrite (heartbeat_on_ok args _ _ w Hs). cbn [Number_].
    rewrite (StringToNumber_digits v Hd), ToInt32_ofZ by lia. reflexivity.
  - intros. apply wrap32_small. lia.
  - apply wrap32_large.
Qed.

(** C1 on the code: for the reply ["OK", "1700000000000"], a lease expiry
    in milliseconds since the epoch, [heartbeat] returns -807049216, the
    value wrapped to a signed 32-bit integer, and not 1700000000000. *)
Theorem heartbeat_wraps_lease_expiry (args : Ops.LeaseArgs) (w : World) :
  (forall n c, store r n c = Ok (RArr [RStr "OK"; RStr "1700000000000"])) ->
  fst (Ops.heartbeat r scripts args w) = Done (Ok (-807049216)).
Proof.
  intros Hs. rewrite (heartbeat_on_ok args _ _ w Hs).
  vm_compute. reflexivity.
Qed.

End Marshalling.

(** A handler publishes [{page: 1}] on the queue [pages] through the facade
    and leaves the optional fields out. *)
Lemma exec_publish_defaults_to_60000_witness :
  Val.isObjectNotArray (Val.VObj [("page", Val.VNum (JsNum.ofZ 1))])
  || Val.isArrayVal (Val.VObj [("page", Val.VNum (JsNum.ofZ 1))]) = true
  /\ exists jid nms rest,
      trace (after (ExecFacade.publish
                      (Sample.answering (Ok (Val.RArr [Val.RStr "OK"; Val.RStr "j2"])))
                      Sample.scripts (ExecFacade.mkExec "j1")
                      (ExecFacade.mkPublishArgs "pages"
                         (Val.VObj [("page", Val.VNum (JsNum.ofZ 1))])
                         None None None None None None None)) initialWorld)
      = (trace initialWorld
         ++ Sent (Evalsha "sha:enqueue" 1
                    ["{pages}:meta"; jid; ("{" ++ Val.quote "page" ++ ":1}")%string;
                     "3"; "60000"; "5000"; nms; "0"; EmptyString; "0"])
            :: rest)%list.
Proof.
  split; [reflexivity|].
  exact (exec_publish_defaults_to_60000
           (Sample.answering (Ok (Val.RArr [Val.RStr "OK"; Val.RStr "j2"])))
           Sample.scripts (ExecFacade.mkExec "j1") "pages"
           (Val.VObj [("page", Val.VNum (JsNum.ofZ 1))]) initialWorld eq_refl).
Defined.

(** A heartbeat on a store that answers ["OK", "1700000000000"]. *)
Lemma heartbeat_wraps_lease_expiry_witness :
  (forall n c,
      store (Sample.answering
               (Ok (Val.RArr [Val.RStr "OK"; Val.RStr "1700000000000"]))) n c
      = Ok (Val.RArr [Val.RStr "OK"; Val.RStr "1700000000000"]))
  /\ fst (Ops.heartbeat
            (Sample.answering
               (Ok (Val.RArr [Val.RStr "OK"; Val.RStr "1700000000000"])))
            Sample.scripts (Ops.mkLeaseArgs "demo" "job1" "token1" None)
            initialWorld)
     = Done (Ok (-807049216)).
Proof.
  split; [reflexivity|].
  apply heartbeat_wraps_lease_expiry. reflexivity.
Defined.

(* ================================================================== *)
(** * Child counters (src/ops.ts, src/exec.ts) *)
(* ================================================================== *)

Section ChildAck.

Import Val JsNum.

Variable r : Env.
Variable scripts : Scripts.OmniqScripts.

(** C8, as amended: [child_ack] checks the key and the child id before its
    [try].  A key that [childsAnchor] rejects makes it throw that error, and
    a child id that is blank after trimming makes it throw ["child_ack
    child_id is required"]; in both cases nothing is sent.  Otherwise it
    never throws, whoever holds the script mutex: the call to the store
    comes to a reply or an error, and a store error, a reply that is not a
    list or is empty, a first element other than ["OK"], an ["OK"] with
    nothing after it or with something that is not a finite number all give
    -1, and ["OK", n] with [n] a finite number gives [n] truncated. *)
Theorem child_ack_swallows_store_anomalies (key child_id : string) (w : World) :
  match Helper.childsAnchor key with
  | Throw e => Ops.child_ack r scripts key child_id w = (Done (Throw e), w)
  | Ok anchor =>
      if Js.truthy (Js.trim child_id) then
        exists o w',
          Ops.invoke r (Scripts.child_ack scripts) anchor [Js.trim child_id] w
          = (Done o, w')
          /\ Ops.child_ack r scripts key child_id w
             = (Done (Ok (childAckValue o)), w')
      else
        Ops.child_ack r scripts key child_id w
        = (Done (Throw (Error "child_ack child_id is required")), w)
  end.
Proof.
  unfold Ops.child_ack, bind at 1, Ops.liftRes.
  destruct (Helper.childsAnchor key) as [anchor|e]; [|reflexivity].
  cbv zeta.
  destruct (Js.truthy (Js.trim child_id)); [|reflexivity].
  cbn [negb]. unfold Ops.invoke.
  destruct (fallback_settles r (Scripts.sha (Scripts.child_ack scripts))
              (Scripts.src (Scripts.child_ack scripts)) 1
              [anchor; Js.trim child_id] w) as [o [w' Hrun]].
  exists o, w'. split; [exact Hrun|].
  unfold tryCatch, bind, Ops.invoke. rewrite Hrun.
  destruct o as [res|e]; [|reflexivity].
  destruct res as [z|s| |items]; try reflexivity.
  destruct items as [|x items]; [reflexivity|].
  cbn [Ops.shorterThan List.length Nat.ltb Nat.leb Ops.itemsOf at_ nth_error isString].
  destruct x as [z|s| |xs]; try (destruct items; reflexivity).
  cbn [childAckValue].
  destruct (String.eqb s "OK"); [|destruct items; reflexivity].
  destruct items as [|n items]; [reflexivity|].
  cbn. destruct (isFinite (Number_ (Some n))); reflexivity.
Qed.

(** C9, as amended: the facade takes the child id that was passed, and the
    default only when none was passed ([undefined] or [null]).  If that id
    is blank after trimming the call throws its own error and nothing is
    sent; otherwise it is the call of [child_ack] on the operations layer
    with the trimmed id, truncated, and for a key that [childsAnchor]
    accepts the store receives the anchor and the trimmed id. *)
Theorem exec_child_ack_forwards_effective_id
    (self : ExecFacade.Exec) (key : string) (child_id : option string) (w : World) :
  let effective :=
    match child_id with
    | Some c => c
    | None => ExecFacade.default_child_id self
    end in
  if Js.truthy (Js.trim effective) then
    ExecFacade.child_ack r scripts self key child_id w
    = bind (Ops.child_ack r scripts key (Js.trim effective))
           (fun n => ret (Math_trunc n)) w
    /\ forall anchor,
        Helper.childsAnchor key = Ok anchor ->
        exists rest,
          trace (after (ExecFacade.child_ack r scripts self key child_id) w)
          = (trace w
             ++ Sent (Evalsha (Scripts.sha (Scripts.child_ack scripts)) 1
                        [anchor; Js.trim effective]) :: rest)%list
  else
    ExecFacade.child_ack r scripts self key child_id w
    = (Done (Throw (Error "child_id is required (or provide default_child_id)")), w).
Proof.
  intros effective. unfold ExecFacade.child_ack. fold effective.
  destruct (Js.truthy (Js.trim effective)) eqn:T; [|reflexivity].
  cbn [negb]. split; [reflexivity|].
  intros anchor Ha. unfold after, bind at 1, Ops.child_ack, bind at 1, Ops.liftRes.
  rewrite Ha. cbv zeta. rewrite trim_idempotent, T. cbn [negb].
  unfold tryCatch, bind at 1, Ops.invoke.
  destruct (fallback_sends_evalsha r (Scripts.sha (Scripts.child_ack scripts))
              (Scripts.src (Scripts.child_ack scripts)) 1
              [anchor; Js.trim effective] w) as [rest Hr].
  exists rest. unfold after in Hr. rewrite <- Hr.
  destruct (Ops.evalshaWithNoScriptFallback r _ _ 1 _ w) as [[[res|e]|] w1];
    cbn [snd]; try reflexivity.
  destruct (Ops.shorterThan res 1); [reflexivity|].
  destruct (isString _ "OK"); [|reflexivity].
  destruct (_ <? 2)%nat; reflexivity.
Qed.

End ChildAck.

(** C8 as stated fails: [child_ack] throws for the empty key, and for a
    child id of one space, whatever the store would answer. *)
Lemma child_ack_throws_counterexample :
  Ops.child_ack (Sample.answering (Ok (Val.RArr [Val.RStr "OK"; Val.RInt 0])))
    Sample.scripts EmptyString "child-1" initialWorld
  = (Done (Throw (Error "childs_anchor key is required")), initialWorld)
  /\ Ops.child_ack (Sample.answering (Ok (Val.RArr [Val.RStr "OK"; Val.RInt 0])))
       Sample.scripts "document:doc_123" " " initialWorld
     = (Done (Throw (Error "child_ack child_id is required")), initialWorld).
Proof. split; reflexivity. Qed.

(** A connection reset during [child_ack] gives -1.  On a flushed script
    cache, with the script mutex taken by a second call while [EVALSHA] is
    awaited, [child_ack] takes the mutex in its turn and gives what [EVAL]
    answers. *)
Lemma child_ack_swallows_store_anomalies_witness :
  Ops.child_ack (Sample.answering (Throw (Error "ECONNRESET")))
    Sample.scripts "document:doc_123" "child-1" initialWorld
  = (Done (Ok (JsNum.ofZ (-1))),
     mkWorld 1
       [Sent (Evalsha "sha:child_ack" 1 ["{cc:document:doc_123}:meta"; "child-1"])]
       (mkMutex false 0) idleHb)
  /\ let run :=
       Ops.child_ack (Sample.raced (Val.RArr [Val.RStr "OK"; Val.RInt 2]))
         Sample.scripts "document:doc_123" "child-1" initialWorld in
     fst run = Done (Ok (JsNum.ofZ 2))
     /\ trace (snd run)
        = [Sent (Evalsha "sha:child_ack" 1 ["{cc:document:doc_123}:meta"; "child-1"]);
           MutexLocked;
           Sent (Eval "lua:child_ack" 1 ["{cc:document:doc_123}:meta"; "child-1"]);
           MutexReleased].
Proof.
  split.
  - pose proof (child_ack_swallows_store_anomalies
                  (Sample.answering (Throw (Error "ECONNRESET")))
                  Sample.scripts "document:doc_123" "child-1" initialWorld)
      as H.
    change (Helper.childsAnchor "document:doc_123")
      with (@Ok string "{cc:document:doc_123}:meta") in H.
    change (Js.truthy (Js.trim "child-1")) with true in H.
    cbv iota in H.
    destruct H as [o [w' [Hrun H]]].
    rewrite H. vm_compute in Hrun.
    injection Hrun as <- <-. reflexivity.
  - pose proof (child_ack_swallows_store_anomalies
                  (Sample.raced (Val.RArr [Val.RStr "OK"; Val.RInt 2]))
                  Sample.scripts "document:doc_123" "child-1" initialWorld)
      as H.
    change (Helper.childsAnchor "document:doc_123")
      with (@Ok string "{cc:document:doc_123}:meta") in H.
    change (Js.truthy (Js.trim "child-1")) with true in H.
    cbv iota in H.
    destruct H as [o [w' [Hrun H]]].
    cbv zeta. rewrite H. vm_compute in Hrun.
    injection Hrun as <- <-. split; vm_compute; reflexivity.
Defined.

(** C9 as stated fails: with a default id ["job1"], a call that passes the
    empty string as child id throws, although one of the two ids is not
    empty. *)
Lemma exec_child_ack_counterexample :
  Js.trim "job1" <> EmptyString
  /\ ExecFacade.child_ack
       (Sample.answering (Ok (Val.RArr [Val.RStr "OK"; Val.RInt 0])))
       Sample.scripts (ExecFacade.mkExec "job1") "document:doc_123"
       (Some EmptyString) initialWorld
     = (Done (Throw (Error "child_id is required (or provide default_child_id)")),
        initialWorld).
Proof. split; [discriminate | reflexivity]. Qed.

(* ================================================================== *)
(** * The consumer runloop (src/consumer.ts) *)
(* ================================================================== *)

Section Runloop.

Import Val JsNum.

Variable r : Env.
Variable scripts : Scripts.OmniqScripts.
Variable JSON_parse : string -> option JsVal.
Variable handler : Consumer.JobCtx -> M unit.

(** ** The heartbeater *)

Lemma hbStop_lost (h : HbState) : lost (Consumer.hbStop h) = lost h.
Proof. unfold Consumer.hbStop. now destruct (stopped h). Qed.

Lemma hbStop_settled (h : HbState) : settled (Consumer.hbStop h) = settled h.
Proof. unfold Consumer.hbStop. now destruct (stopped h). Qed.

Lemma hbStop_stopped (h : HbState) : stopped (Consumer.hbStop h) = true.
Proof. unfold Consumer.hbStop. now destruct (stopped h) eqn:E. Qed.

Lemma schedule_keeps (s : number) (h : HbState) :
  lost (Consumer.schedule s h) = lost h
  /\ settled (Consumer.schedule s h) = settled h.
Proof. unfold Consumer.schedule. now destruct (stopped h). Qed.

Lemma heartbeat_call_step (lease : Ops.LeaseArgs) (w : World) :
  grows hbEvent w
    (snd (Consumer.called "heartbeat" (Ops.heartbeat r scripts lease) w))
  /\ hb (snd (Consumer.called "heartbeat" (Ops.heartbeat r scripts lease) w))
     = hb w.
Proof.
  unfold Consumer.called.
  destruct (heartbeat_grows r scripts (fun _ => True) lease
              (fun _ _ => conj I I) (emit w (Called "heartbeat"))) as [G H].
  split.
  - eapply grows_trans.
    + apply (grows_emit hbEvent w (Called "heartbeat")). now left.
    + eapply grows_weaken; [|exact G]. intros ev Hev. now right.
  - exact H.
Qed.

Lemma settle_lostIffFailed (res : Res Z) (h : HbState) (first : bool) :
  lostIffFailed h ->
  lost (Consumer.settle res h first) = lost h
  /\ existsb lostResult (settled (Consumer.settle res h first))
     = lost h || lostResult res.
Proof.
  unfold lostIffFailed, Consumer.settle. intros H. cbn.
  split; [reflexivity|].
  rewrite existsb_app, <- H. cbn. now rewrite orb_false_r.
Qed.

Lemma hbStep_sound (lease : Ops.LeaseArgs) (s : number) (ev : HbEvent) (w : World) :
  lostIffFailed (hb w) ->
  grows hbEvent w (Consumer.hbStep r scripts lease s ev w)
  /\ lostIffFailed (hb (Consumer.hbStep r scripts lease s ev w)).
Proof.
  intros Inv. unfold Consumer.hbStep.
  destruct ev.
  - destruct (firstPending (hb w)); [|split; [apply grows_refl | exact Inv]].
    destruct (heartbeat_call_step lease w) as [G H].
    destruct (Consumer.called "heartbeat" (Ops.heartbeat r scripts lease) w)
      as [[res|] w'] eqn:E; cbn [snd] in G, H.
    + rewrite <- H in Inv.
      destruct (settle_lostIffFailed res (hb w') true Inv) as [L S].
      destruct res as [z|e].
      * split; [now apply (grows_trans _ _ w'), grows_same|].
        cbn [hb withHb]. unfold lostIffFailed.
        destruct (schedule_keeps s (Consumer.settle (Ok z) (hb w') true))
          as [-> ->].
        rewrite L, S. cbn. now rewrite orb_false_r.
      * unfold Consumer.checkLost.
        destruct (Consumer.lostMessage (Consumer.lostText e)) eqn:M.
        -- split; [now apply (grows_trans _ _ w'), grows_same|].
           cbn [hb withHb]. unfold lostIffFailed.
           rewrite hbStop_lost, hbStop_settled. cbn [lost settled].
           change (settled (Consumer.settle (Throw e) (hb w') true))
             with (settled (hb w') ++ [Throw e])%list.
           rewrite existsb_app. cbn. rewrite M. now rewrite orb_true_r.
        -- split; [now apply (grows_trans _ _ w'), grows_same|].
           cbn [hb withHb]. unfold lostIffFailed.
           destruct (schedule_keeps s (Consumer.settle (Throw e) (hb w') true))
             as [-> ->].
           rewrite L, S. cbn. rewrite M. now rewrite orb_false_r.
    + split; [now apply (grows_trans _ _ w'), grows_same|].
      cbn [hb withHb]. exact Inv.
  - destruct (timer (hb w)); [|split; [apply grows_refl | exact Inv]].
    destruct (stopped (hb w)); split;
      try apply grows_refl; try exact Inv; try now apply grows_same.
  - destruct (ticksPending (hb w)) as [|n];
      [split; [apply grows_refl | exact Inv]|].
    destruct (heartbeat_call_step lease w) as [G H].
    destruct (Consumer.called "heartbeat" (Ops.heartbeat r scripts lease) w)
      as [[res|] w'] eqn:E; cbn [snd] in G, H.
    + rewrite <- H in Inv.
      destruct (settle_lostIffFailed res (hb w') false Inv) as [L S].
      destruct res as [z|e].
      * split; [now apply (grows_trans _ _ w'), grows_same|].
        cbn [hb withHb]. unfold lostIffFailed.
        rewrite L, S. cbn. now rewrite orb_false_r.
      * unfold Consumer.checkLost.
        destruct (Consumer.lostMessage (Consumer.lostText e)) eqn:M.
        -- split; [now apply (grows_trans _ _ w'), grows_same|].
           cbn [hb withHb snd]. unfold lostIffFailed.
           rewrite hbStop_lost, hbStop_settled. cbn [lost settled].
           change (settled (Consumer.settle (Throw e) (hb w') false))
             with (settled (hb w') ++ [Throw e])%list.
           rewrite existsb_app. cbn. rewrite M. now rewrite orb_true_r.
        -- split; [now apply (grows_trans _ _ w'), grows_same|].
           cbn [hb withHb snd]. unfold lostIffFailed.
           rewrite L, S. cbn. rewrite M. now rewrite orb_false_r.
    + split; [now apply (grows_trans _ _ w'), grows_same|].
      cbn [hb withHb]. exact Inv.
Qed.

Lemma runTimers_sound (lease : Ops.LeaseArgs) (s : number) (w : World) :
  lostIffFailed (hb w) ->
  grows hbEvent w (Consumer.runTimers r scripts lease s w)
  /\ lostIffFailed (hb (Consumer.runTimers r scripts lease s w)).
Proof.
  intros Inv. unfold Consumer.runTimers.
  assert (G0 : grows hbEvent w (withTick w (S (tick w)))) by now apply grows_same.
  assert (I0 : lostIffFailed (hb (withTick w (S (tick w))))) by exact Inv.
  revert G0 I0.
  generalize (withTick w (S (tick w))) as w0.
  induction (timers r (tick w)) as [|ev evs IH]; intros w0 G0 I0; cbn.
  - now split.
  - destruct (hbStep_sound lease s ev w0 I0) as [G1 I1].
    apply IH; [eapply grows_trans; eassumption | exact I1].
Qed.

Lemma hbStep_grows (lease : Ops.LeaseArgs) (s : number) (ev : HbEvent) (w : World) :
  grows hbEvent w (Consumer.hbStep r scripts lease s ev w).
Proof.
  unfold Consumer.hbStep.
  pose proof (heartbeat_call_step lease w) as [G _].
  destruct ev.
  - destruct (firstPending (hb w)); [|apply grows_refl].
    destruct (Consumer.called "heartbeat" (Ops.heartbeat r scripts lease) w)
      as [[[z|e]|] w']; cbn [snd] in G;
      try destruct (Consumer.checkLost _ _) as [[|] h2];
      now apply (grows_trans _ _ w'), grows_same.
  - destruct (timer (hb w)); [|apply grows_refl].
    destruct (stopped (hb w)); [apply grows_refl | now apply grows_same].
  - destruct (ticksPending (hb w)); [apply grows_refl|].
    destruct (Consumer.called "heartbeat" (Ops.heartbeat r scripts lease) w)
      as [[[z|e]|] w']; cbn [snd] in G;
      now apply (grows_trans _ _ w'), grows_same.
Qed.

Lemma runTimers_grows (lease : Ops.LeaseArgs) (s : number) (w : World) :
  grows hbEvent w (Consumer.runTimers r scripts lease s w).
Proof.
  unfold Consumer.runTimers.
  assert (G0 : grows hbEvent w (withTick w (S (tick w)))) by now apply grows_same.
  revert G0. generalize (withTick w (S (tick w))) as w0.
  induction (timers r (tick w)) as [|ev evs IH]; intros w0 G0; cbn.
  - exact G0.
  - apply IH. eapply grows_trans; [exact G0 | apply hbStep_grows].
Qed.

Lemma hbEvent_notAck (ev : Event) : hbEvent ev -> notAck ev.
Proof.
  intros [-> | H]; [split; discriminate|].
  destruct ev; cbn in H; try contradiction; split; discriminate.
Qed.

Lemma grows_notAck (w w' : World) :
  grows notAck w w' ->
  exists evs,
    trace w' = (trace w ++ evs)%list
    /\ ~ In (Called "ack_success") evs /\ ~ In (Called "ack_fail") evs.
Proof.
  intros [evs [H F]]. exists evs. split; [exact H|].
  rewrite Forall_forall in F.
  split; intros Hin; destruct (F _ Hin) as [H1 H2]; congruence.
Qed.

(** ** From the handler call to the [finally] *)

Section Job.

Variable verbose : bool.
Variable queue : string.
Variable job : Ops.ReserveJob.
Variable ctx : Consumer.JobCtx.
Variable hb_s : number.

Let lease := Consumer.leaseOf queue job.

Lemma runJob_split (w : World) :
  Consumer.runJob r scripts handler verbose queue job ctx hb_s w
  = match Consumer.awaitJob r scripts lease hb_s (handler ctx) w with
    | (Done handled, w1) =>
        Consumer.settleJob r scripts verbose queue job ctx hb_s handled w1
    | (Pending, w1) => (Pending, w1)
    end.
Proof.
  unfold Consumer.runJob, Consumer.settleJob, tryFinally, tryCatch, bind,
    Consumer.liftHandled.
  fold lease.
  destruct (Consumer.awaitJob r scripts lease hb_s (handler ctx) w)
    as [[[[]|e]|] w1]; reflexivity.
Qed.

(** With the flag up, what follows the handler is the [finally] alone. *)
Lemma settleJob_lost (handled : Res unit) (w : World) :
  lost (hb w) = true ->
  grows notAck w
    (after (Consumer.settleJob r scripts verbose queue job ctx hb_s handled) w).
Proof.
  intros L.
  assert (Hrace :
    grows notAck w
      (snd (Consumer.awaitJob r scripts lease hb_s Consumer.raceDone
              (withHb w (Consumer.hbStop (hb w)))))).
  { unfold Consumer.awaitJob, Consumer.raceDone. cbn [hb withHb].
    rewrite hbStop_stopped. cbn [snd].
    apply (grows_trans _ _ (withHb w (Consumer.hbStop (hb w))));
      [now apply grows_same|].
    eapply grows_weaken; [exact hbEvent_notAck | apply runTimers_grows]. }
  unfold after, Consumer.settleJob, tryFinally, tryCatch, bind,
    Consumer.liftHandled, Consumer.onSuccess, Consumer.onFailure,
    Consumer.stopHb, Consumer.isLost, bind.
  fold lease.
  destruct handled as [[]|e]; cbn [hb withHb fst snd];
    rewrite hbStop_lost, L; cbn [negb ret];
    destruct (Consumer.awaitJob r scripts lease hb_s Consumer.raceDone
                (withHb w (Consumer.hbStop (hb w)))) as [[[[]|e']|] w2];
    exact Hrace.
Qed.

(** C2: in the iteration of a job, the [lost] flag is up when the handler
    has finished exactly when a heartbeat call has failed with a message
    that contains NOT_ACTIVE or TOKEN_MISMATCH; and if it is up then, from
    that moment to the end of the [finally], the runloop calls neither
    [ack_success] nor [ack_fail].  The handler is given no access to the
    heartbeater. *)
Theorem lost_lease_skips_ack (w0 : World) :
  (forall c w, hb (snd (handler c w)) = hb w) ->
  let w := after Consumer.startHeartbeater w0 in
  let w1 := after (Consumer.awaitJob r scripts lease hb_s (handler ctx)) w in
  let w2 := after (Consumer.runJob r scripts handler verbose queue job ctx hb_s) w in
  (lost (hb w1) = true <->
   exists e,
     In (Throw e) (settled (hb w1))
     /\ Consumer.lostMessage (Consumer.lostText e) = true)
  /\ (lost (hb w1) = true ->
      exists evs,
        trace w2 = (trace w1 ++ evs)%list
        /\ ~ In (Called "ack_success") evs
        /\ ~ In (Called "ack_fail") evs).
Proof.
  intros Hframe w w1 w2.
  split.
  - assert (Inv : lostIffFailed (hb w1)).
    { subst w1 w. unfold after, Consumer.awaitJob.
      set (ws := snd (Consumer.startHeartbeater w0)).
      specialize (Hframe ctx ws).
      destruct (handler ctx ws) as [[res|] wh]; cbn [snd] in *.
      - apply runTimers_sound. rewrite Hframe. reflexivity.
      - rewrite Hframe. reflexivity. }
    unfold lostIffFailed in Inv. rewrite Inv, existsb_exists.
    split.
    + intros [[z|e] [Hin Hl]]; [discriminate|]. now exists e.
    + intros [e [Hin Hl]]. now exists (Throw e).
  - intros L. apply grows_notAck.
    subst w2. unfold after. rewrite runJob_split.
    subst w1. unfold after in *.
    destruct (Consumer.awaitJob r scripts lease hb_s (handler ctx) w)
      as [[handled|] wh]; cbn [snd] in *.
    + now apply settleJob_lost.
    + apply grows_refl.
Qed.

End Job.

(** ** Errors that leave the loop *)

Lemma NoThrow_ret {A} (a : A) : NoThrow (ret a).
Proof. intros w e. discriminate. Qed.

Lemma NoThrow_bind {A B} (m : M A) (k : A -> M B) :
  NoThrow m -> (forall a, NoThrow (k a)) -> NoThrow (bind m k).
Proof.
  intros Hm Hk w e. unfold bind. specialize (Hm w).
  destruct (m w) as [[[a|e']|] w1]; cbn [fst] in *.
  - apply Hk.
  - exfalso. now apply (Hm e').
  - discriminate.
Qed.

(** A [catch] block that does not throw makes the whole statement safe,
    whatever the [try] block does. *)
Lemma NoThrow_tryCatch {A} (m : M A) (h : Thrown -> M A) :
  (forall e, NoThrow (h e)) -> NoThrow (tryCatch m h).
Proof.
  intros Hh w e. unfold tryCatch.
  destruct (m w) as [[[a|e']|] w1]; cbn [fst]; try discriminate.
  apply Hh.
Qed.

Lemma NoThrow_tryFinally {A} (m : M A) (f : M unit) :
  NoThrow m -> NoThrow f -> NoThrow (tryFinally m f).
Proof.
  intros Hm Hf w e. unfold tryFinally. specialize (Hm w).
  destruct (m w) as [[x|] w1]; cbn [fst] in *; [|discriminate].
  specialize (Hf w1).
  destruct (f w1) as [[[u|e']|] w2]; cbn [fst] in *.
  - destruct x; [discriminate | apply Hm].
  - exfalso. now apply (Hf e').
  - discriminate.
Qed.

Lemma NoThrow_awaitJob {A} (lease : Ops.LeaseArgs) (s : number) (m : M A) :
  NoThrow m -> NoThrow (Consumer.awaitJob r scripts lease s m).
Proof.
  intros Hm w e. unfold Consumer.awaitJob. specialize (Hm w e).
  destruct (m w) as [[x|] w1]; cbn [fst] in *; [exact Hm | discriminate].
Qed.

Lemma NoThrow_safeLog (msg : string) : NoThrow (Consumer.safeLog msg).
Proof. intros w e. discriminate. Qed.

Lemma NoThrow_logIf (v : bool) (msg : string) : NoThrow (Consumer.logIf v msg).
Proof. destruct v; [apply NoThrow_safeLog | apply NoThrow_ret]. Qed.

Lemma NoThrow_sleep (ms : number) : NoThrow (Consumer.sleep ms).
Proof. intros w e. discriminate. Qed.

Lemma NoThrow_readStop : NoThrow (Consumer.readStop r).
Proof. intros w e. discriminate. Qed.

Lemma NoThrow_dateNow : NoThrow (Consumer.dateNow r).
Proof. intros w e. discriminate. Qed.

Lemma NoThrow_stopHb : NoThrow Consumer.stopHb.
Proof. intros w e. discriminate. Qed.

Lemma NoThrow_isLost : NoThrow Consumer.isLost.
Proof. intros w e. discriminate. Qed.

Lemma NoThrow_startHeartbeater : NoThrow Consumer.startHeartbeater.
Proof. intros w e. discriminate. Qed.

Lemma NoThrow_raceDone : NoThrow Consumer.raceDone.
Proof.
  intros w e. unfold Consumer.raceDone.
  destruct (stopped (hb w)); discriminate.
Qed.

Ltac nothrow :=
  repeat first
    [ match goal with H : _ |- _ => solve [apply H] end
    | apply NoThrow_ret
    | apply NoThrow_logIf
    | apply NoThrow_safeLog
    | apply NoThrow_sleep
    | apply NoThrow_readStop
    | apply NoThrow_dateNow
    | apply NoThrow_stopHb
    | apply NoThrow_isLost
    | apply NoThrow_startHeartbeater
    | apply NoThrow_tryCatch; intro
    | apply NoThrow_tryFinally
    | apply NoThrow_awaitJob
    | apply NoThrow_raceDone
    | apply NoThrow_bind; [|intro]
    | match goal with
      | |- NoThrow (if ?c then _ else _) => destruct c
      | |- NoThrow (match ?x with _ => _ end) => destruct x
      end ].

Lemma NoThrow_ackSuccess verbose queue job ctx hb_s :
  NoThrow (Consumer.ackSuccess r scripts verbose queue job ctx hb_s).
Proof. unfold Consumer.ackSuccess. nothrow. Qed.

Lemma NoThrow_ackFail verbose queue job ctx hb_s (e : Thrown) :
  NoThrow (Consumer.ackFail r scripts verbose queue job ctx hb_s e).
Proof. unfold Consumer.ackFail. nothrow. Qed.

Lemma NoThrow_runJob verbose queue job ctx hb_s :
  NoThrow (Consumer.runJob r scripts handler verbose queue job ctx hb_s).
Proof.
  pose proof (NoThrow_ackSuccess verbose queue job ctx hb_s).
  pose proof (NoThrow_ackFail verbose queue job ctx hb_s).
  unfold Consumer.runJob, Consumer.onFailure. nothrow.
Qed.

Lemma ThrowsOnlyHget_NoThrow {A} (m : M A) : NoThrow m -> ThrowsOnlyHget r m.
Proof. intros H w e He. exfalso. now apply (H w e). Qed.

Lemma ThrowsOnlyHget_bind {A B} (m : M A) (k : A -> M B) :
  ThrowsOnlyHget r m -> (forall a, ThrowsOnlyHget r (k a)) ->
  ThrowsOnlyHget r (bind m k).
Proof.
  intros Hm Hk w e. unfold bind. specialize (Hm w).
  destruct (m w) as [[[a|e']|] w1]; cbn [fst snd] in *.
  - apply Hk.
  - intros [= <-]. now apply Hm.
  - discriminate.
Qed.

Lemma ThrowsOnlyHget_job_timeout_ms (q id : string) :
  ThrowsOnlyHget r
    (Consumer.called "job_timeout_ms" (Ops.job_timeout_ms r q id None)).
Proof.
  intros w e. unfold Consumer.called, Ops.job_timeout_ms, bind, Ops.send.
  cbn [tick trace emit withTick fst snd].
  destruct (store r (tick w)
              (Hget (Helper.queueBase q ++ ":job:" ++ id) "timeout_ms")) eqn:E;
    cbn [fst snd]; [discriminate|].
  intros [= <-].
  exists (trace w), [], (Helper.queueBase q ++ ":job:" ++ id)%string, (tick w).
  repeat split; [|constructor | exact E].
  cbn. now rewrite <- app_assoc.
Qed.

Ltac only_hget :=
  repeat first
    [ apply ThrowsOnlyHget_job_timeout_ms
    | apply ThrowsOnlyHget_NoThrow; solve [nothrow]
    | apply ThrowsOnlyHget_bind; [|intro]
    | match goal with
      | |- ThrowsOnlyHget _ (if ?c then _ else _) => destruct c
      | |- ThrowsOnlyHget _ (match ?x with _ => _ end) => destruct x
      end ].

Lemma ThrowsOnlyHget_iteration (args : Consumer.ConsumeArgs) (lp lr : number) :
  ThrowsOnlyHget r (Consumer.iteration r scripts JSON_parse handler args lp lr).
Proof.
  pose proof NoThrow_runJob.
  unfold Consumer.iteration. cbv zeta. only_hget.
Qed.

Lemma ThrowsOnlyHget_loop (fuel : nat) (args : Consumer.ConsumeArgs) (lp lr : number) :
  ThrowsOnlyHget r (Consumer.loop r scripts JSON_parse handler fuel args lp lr).
Proof.
  revert lp lr. induction fuel as [|fuel IH]; intros lp lr; cbn [Consumer.loop].
  - apply ThrowsOnlyHget_NoThrow, NoThrow_ret.
  - apply ThrowsOnlyHget_bind; [apply ThrowsOnlyHget_iteration|].
    intros [lp' lr'|]; [apply IH | apply ThrowsOnlyHget_NoThrow, NoThrow_ret].
Qed.

Lemma ThrowsOnlyHget_consume (fuel : nat) (args : Consumer.ConsumeArgs) :
  ThrowsOnlyHget r (Consumer.consume r scripts JSON_parse handler fuel args).
Proof.
  intros w e. unfold Consumer.consume.
  set (w0 := if Consumer.orFlag (Consumer.a_stop_on_ctrl_c args) true
             then emit w SignalsOn else w).
  pose proof (ThrowsOnlyHget_loop fuel args (ofZ 0) (ofZ 0) w0 e) as H.
  destruct (Consumer.loop r scripts JSON_parse handler fuel args (ofZ 0) (ofZ 0) w0)
    as [[[[u|]|e']|] w1]; cbn [fst snd] in *; try discriminate.
  intros [= <-].
  destruct (H eq_refl) as [pre [post [key [n [Ht [Hp Hs]]]]]].
  destruct (Consumer.orFlag (Consumer.a_stop_on_ctrl_c args) true).
  - exists pre, (post ++ [SignalsOff])%list, key, n.
    cbn [trace emit]. rewrite Ht, <- app_assoc. cbn.
    repeat split; try assumption.
    apply Forall_app. split; [assumption | now constructor].
  - now exists pre, post, key, n.
Qed.

(** ** The loop goes on *)

Lemma Settles_called {A} (name : string) (m : M A) :
  Settles m -> Settles (Consumer.called name m).
Proof. intros H w. apply H. Qed.

Lemma Settles_awaitJob {A} (lease : Ops.LeaseArgs) (s : number) (m : M A) :
  Settles m -> Settles (Consumer.awaitJob r scripts lease s m).
Proof.
  intros H w. specialize (H w). unfold Consumer.awaitJob.
  destruct (m w) as [[x|] w1]; cbn [fst] in *; [discriminate | exact H].
Qed.

Lemma Returns_awaitJob {A} (lease : Ops.LeaseArgs) (s : number) (m : M A) :
  Returns m -> Returns (Consumer.awaitJob r scripts lease s m).
Proof.
  intros H w. destruct (H w) as [a E]. unfold Consumer.awaitJob.
  destruct (m w) as [[x|] w1]; cbn [fst] in *; [|discriminate].
  now exists a.
Qed.

Lemma Returns_safeLog (msg : string) : Returns (Consumer.safeLog msg).
Proof. intros w. now exists tt. Qed.

Lemma Returns_logIf (v : bool) (msg : string) : Returns (Consumer.logIf v msg).
Proof. destruct v; [apply Returns_safeLog | apply Returns_ret]. Qed.

Lemma Returns_sleep (ms : number) : Returns (Consumer.sleep ms).
Proof. intros w. now exists tt. Qed.

Lemma Returns_dateNow : Returns (Consumer.dateNow r).
Proof. intros w. eexists. reflexivity. Qed.

Lemma Returns_stopHb : Returns Consumer.stopHb.
Proof. intros w. now exists tt. Qed.

Lemma Returns_isLost : Returns Consumer.isLost.
Proof. intros w. eexists. reflexivity. Qed.

Lemma Returns_startHeartbeater : Returns Consumer.startHeartbeater.
Proof. intros w. now exists tt. Qed.

Lemma Returns_raceDone : Returns Consumer.raceDone.
Proof.
  intros w. exists tt. unfold Consumer.raceDone.
  now destruct (stopped (hb w)).
Qed.

Lemma Settles_ack_success (args : Ops.LeaseArgs) :
  Settles (Ops.ack_success r scripts args).
Proof. unfold Ops.ack_success. settles. Qed.

Lemma Settles_ack_fail (args : Ops.AckFailArgs) :
  Settles (Ops.ack_fail r scripts args).
Proof. unfold Ops.ack_fail. settles. Qed.

Lemma Settles_promote_delayed (q : string) (n now : option number) :
  Settles (Ops.promote_delayed r scripts q n now).
Proof. unfold Ops.promote_delayed. settles. Qed.

Lemma Settles_reap_expired (q : string) (n now : option number) :
  Settles (Ops.reap_expired r scripts q n now).
Proof. unfold Ops.reap_expired. settles. Qed.

Lemma Settles_reserve (q : string) (now : option number) :
  Settles (Ops.reserve r scripts q now).
Proof. unfold Ops.reserve. settles. Qed.

Ltac returns :=
  cbv zeta;
  repeat first
    [ match goal with H : _ |- _ => solve [apply H] end
    | apply Returns_ret
    | apply Returns_logIf
    | apply Returns_safeLog
    | apply Returns_sleep
    | apply Returns_dateNow
    | apply Returns_stopHb
    | apply Returns_isLost
    | apply Returns_startHeartbeater
    | apply Returns_raceDone
    | apply Returns_awaitJob
    | apply Settles_called
    | apply Settles_awaitJob
    | apply Settles_ack_success
    | apply Settles_ack_fail
    | apply Settles_promote_delayed
    | apply Settles_reap_expired
    | apply Settles_reserve
    | apply Returns_tryFinally
    | apply Returns_tryCatch; [|intro]
    | apply Returns_bind; [|intro]
    | apply Settles_bind; [|intro]
    | match goal with
      | |- Returns (if ?c then _ else _) => destruct c
      | |- Returns (match ?x with _ => _ end) => destruct x
      | |- Settles (if ?c then _ else _) => destruct c
      | |- Settles (match ?x with _ => _ end) => destruct x
      end
    | apply Returns_Settles ].

Lemma Returns_ackSuccess verbose queue job ctx hb_s :
  Returns (Consumer.ackSuccess r scripts verbose queue job ctx hb_s).
Proof. unfold Consumer.ackSuccess. returns. Qed.

Lemma Returns_ackFail verbose queue job ctx hb_s (e : Thrown) :
  Returns (Consumer.ackFail r scripts verbose queue job ctx hb_s e).
Proof. unfold Consumer.ackFail. returns. Qed.

(** Once the handler's promise has settled, the statement comes to its
    end, whatever the acknowledgement comes to. *)
Lemma Returns_settleJob verbose queue job ctx hb_s (handled : Res unit) :
  Returns (Consumer.settleJob r scripts verbose queue job ctx hb_s handled).
Proof.
  pose proof (Returns_ackSuccess verbose queue job ctx hb_s).
  pose proof (Returns_ackFail verbose queue job ctx hb_s).
  unfold Consumer.settleJob, Consumer.onSuccess, Consumer.onFailure,
    Consumer.liftHandled.
  apply Returns_tryFinally; [|returns].
  apply Returns_tryCatch; [|intro; returns].
  apply Settles_bind; [intros w; discriminate|].
  intros _. returns.
Qed.

Lemma runJob_returns verbose queue job ctx hb_s (w : World) :
  fst (handler ctx w) <> Pending ->
  fst (Consumer.runJob r scripts handler verbose queue job ctx hb_s w) = Done (Ok tt).
Proof.
  intros H. rewrite runJob_split. unfold Consumer.awaitJob.
  destruct (handler ctx w) as [[handled|] wh]; cbn [fst] in *; [|now destruct H].
  destruct (Returns_settleJob verbose queue job ctx hb_s handled
              (Consumer.runTimers r scripts (Consumer.leaseOf queue job) hb_s wh))
    as [[] E].
  exact E.
Qed.

Lemma Returns_runJob verbose queue job ctx hb_s :
  (forall c, Settles (handler c)) ->
  Returns (Consumer.runJob r scripts handler verbose queue job ctx hb_s).
Proof.
  intros H w. exists tt. apply runJob_returns, H.
Qed.

(** ** What the loop returns *)

Lemma Yields_ret {A} (P : A -> Prop) (a : A) : P a -> Yields P (ret a).
Proof. intros H w b [= <-]. exact H. Qed.

Lemma Yields_bind {A B} (P : B -> Prop) (m : M A) (k : A -> M B) :
  (forall a, Yields P (k a)) -> Yields P (bind m k).
Proof.
  intros Hk w b. unfold bind.
  destruct (m w) as [[[a|e]|] w1]; cbn [fst]; try discriminate.
  apply Hk.
Qed.

Lemma Yields_readStop {B} (P : B -> Prop) (k : bool -> M B) :
  (forall b, (b = true -> stopRequested r) -> Yields P (k b)) ->
  Yields P (bind (Consumer.readStop r) k).
Proof.
  intros Hk w b. unfold bind, Consumer.readStop.
  apply Hk. intros E. now exists (tick w).
Qed.

Lemma iteration_returns_on_stop (args : Consumer.ConsumeArgs) (lp lr : number) :
  Yields (stopSeen r) (Consumer.iteration r scripts JSON_parse handler args lp lr).
Proof.
  unfold Consumer.iteration. cbv zeta.
  repeat first
    [ apply Yields_ret; cbn [stopSeen]; solve [exact I | auto]
    | apply Yields_readStop; intros [|] ?; cbn [andb]; cbv iota
    | apply Yields_bind; intro
    | match goal with
      | |- Yields _ (if ?c then _ else _) => destruct c eqn:?
      | |- Yields _ (match ?x with _ => _ end) => destruct x
      end ].
Qed.

Lemma loop_returns_on_stop (fuel : nat) (args : Consumer.ConsumeArgs) (lp lr : number) :
  Yields (fun x : option unit => x = Some tt -> stopRequested r)
    (Consumer.loop r scripts JSON_parse handler fuel args lp lr).
Proof.
  revert lp lr. induction fuel as [|fuel IH]; intros lp lr; cbn [Consumer.loop].
  - apply Yields_ret. discriminate.
  - intros w x. unfold bind.
    pose proof (iteration_returns_on_stop args lp lr w) as H.
    destruct (Consumer.iteration r scripts JSON_parse handler args lp lr w)
      as [[[[lp' lr'|]|e]|] w1]; cbn [fst] in *; try discriminate.
    + apply IH.
    + intros _ _. exact (H _ eq_refl).
Qed.

Lemma consume_returns_on_stop (fuel : nat) (args : Consumer.ConsumeArgs) (w : World) :
  fst (Consumer.consume r scripts JSON_parse handler fuel args w) = Done (Ok (Some tt)) ->
  stopRequested r.
Proof.
  unfold Consumer.consume.
  set (w0 := if Consumer.orFlag (Consumer.a_stop_on_ctrl_c args) true
             then emit w SignalsOn else w).
  pose proof (loop_returns_on_stop fuel args (ofZ 0) (ofZ 0) w0) as H.
  destruct (Consumer.loop r scripts JSON_parse handler fuel args (ofZ 0) (ofZ 0) w0)
    as [[[[u|]|e]|] w1]; cbn [fst] in *; try discriminate.
  destruct u. intros _. now apply (H _ eq_refl).
Qed.

(** ** A loop that nothing stops *)

Lemma ReturnsSome_ret {A} (P : A -> Prop) (a : A) : P a -> ReturnsSome P (ret a).
Proof. intros H w. now exists a. Qed.

Lemma ReturnsSome_bind {A B} (P : B -> Prop) (m : M A) (k : A -> M B) :
  Returns m -> (forall a, ReturnsSome P (k a)) -> ReturnsSome P (bind m k).
Proof.
  intros Hm Hk w. destruct (Hm w) as [a E]. unfold bind.
  destruct (m w) as [[[a'|e]|] w']; cbn in *; try discriminate.
  apply Hk.
Qed.

Lemma ReturnsSome_readStop {B} (P : B -> Prop) (k : bool -> M B) :
  neverStopped r -> ReturnsSome P (k false) ->
  ReturnsSome P (bind (Consumer.readStop r) k).
Proof.
  intros Hs Hk w. unfold bind, Consumer.readStop. rewrite Hs. apply Hk.
Qed.

Lemma Returns_job_timeout_ms (q id : string) :
  hgetAnswered r ->
  Returns (Consumer.called "job_timeout_ms" (Ops.job_timeout_ms r q id None)).
Proof.
  intros H w. unfold Consumer.called, Ops.job_timeout_ms, bind, Ops.send.
  cbn [tick emit].
  destruct (store r (tick w) (Hget (Helper.queueBase q ++ ":job:" ++ id) "timeout_ms"))
    as [v|e] eqn:E.
  - eexists. reflexivity.
  - now apply H in E.
Qed.

Lemma iteration_goes_on (args : Consumer.ConsumeArgs) (lp lr : number) :
  (forall c, Settles (handler c)) -> neverStopped r -> hgetAnswered r ->
  ReturnsSome goesOn (Consumer.iteration r scripts JSON_parse handler args lp lr).
Proof.
  intros Hh Hs Hg.
  pose proof (fun v q j c s => Returns_runJob v q j c s Hh).
  pose proof (fun q id => Returns_job_timeout_ms q id Hg).
  unfold Consumer.iteration. cbv zeta.
  repeat first
    [ apply ReturnsSome_ret; exact I
    | apply (ReturnsSome_readStop _ _ Hs); cbn [andb]; cbv iota
    | apply ReturnsSome_bind; [solve [returns]|intro]
    | match goal with
      | |- ReturnsSome _ (if ?c then _ else _) => destruct c eqn:?
      | |- ReturnsSome _ (match ?x with _ => _ end) => destruct x
      end ].
Qed.

Lemma loop_goes_on (fuel : nat) (args : Consumer.ConsumeArgs) (lp lr : number) (w : World) :
  (forall c, Settles (handler c)) -> neverStopped r -> hgetAnswered r ->
  fst (Consumer.loop r scripts JSON_parse handler fuel args lp lr w) = Done (Ok None).
Proof.
  intros Hh Hs Hg. revert lp lr w.
  induction fuel as [|fuel IH]; intros lp lr w; cbn [Consumer.loop]; [reflexivity|].
  unfold bind.
  destruct (iteration_goes_on args lp lr Hh Hs Hg w) as [f [E G]].
  destruct (Consumer.iteration r scripts JSON_parse handler args lp lr w)
    as [o w1]; cbn [fst] in E; subst o.
  destruct f as [lp' lr'|]; [apply IH | destruct G].
Qed.

Lemma consume_goes_on (fuel : nat) (args : Consumer.ConsumeArgs) (w : World) :
  (forall c, Settles (handler c)) -> neverStopped r -> hgetAnswered r ->
  fst (Consumer.consume r scripts JSON_parse handler fuel args w) = Done (Ok None).
Proof.
  intros Hh Hs Hg. unfold Consumer.consume.
  set (w0 := if Consumer.orFlag (Consumer.a_stop_on_ctrl_c args) true
             then emit w SignalsOn else w).
  pose proof (loop_goes_on fuel args (ofZ 0) (ofZ 0) w0 Hh Hs Hg) as H.
  destruct (Consumer.loop r scripts JSON_parse handler fuel args (ofZ 0) (ofZ 0) w0)
    as [o w1]; cbn [fst] in H; subst o. reflexivity.
Qed.

(** C10: an error of [ack_success] or of [ack_fail] stays inside the
    iteration, and the loop goes on.  When the call throws [e], the inner
    [catch] comes to a normal end and writes one line to the logger if
    [verbose] is set, and nothing otherwise.  The statement from the handler
    call to the [finally] never throws, and once the handler's promise has
    settled it comes to its normal end, whatever the acknowledgement came
    to.  The only errors that [consume] passes to its caller are failures
    of the [HGET] of [job_timeout_ms], and [consume] returns only when a
    stop was requested.  With a handler whose promise always settles, no
    stop requested and every such [HGET] answered, each iteration sends the
    loop into its next pass and [consume] is still in its loop after any
    number of passes, whatever the store answers to the acknowledgements. *)
Theorem ack_errors_stay_in_iteration :
  (forall verbose queue job ctx hb_s w e w',
      Consumer.awaitJob r scripts (Consumer.leaseOf queue job) hb_s
        (Consumer.called "ack_success"
           (Ops.ack_success r scripts (Consumer.leaseOf queue job))) w
      = (Done (Throw e), w') ->
      Consumer.ackSuccess r scripts verbose queue job ctx hb_s w
      = (Done (Ok tt),
         if verbose
         then emit w' (Logged ("[consume] ack success error job_id="
                               ++ Consumer.ctx_job_id ctx ++ ": "
                               ++ Consumer.messageOf e))
         else w'))
  /\ (forall verbose queue job ctx hb_s cause w e w',
      Consumer.awaitJob r scripts (Consumer.leaseOf queue job) hb_s
        (Consumer.called "ack_fail"
           (Ops.ack_fail r scripts
              (Ops.mkAckFailArgs queue (Ops.job_id job) (Ops.lease_token job)
                 (Some (Consumer.nameOf cause ++ ": " ++ Consumer.messageOf cause))
                 None))) w
      = (Done (Throw e), w') ->
      Consumer.ackFail r scripts verbose queue job ctx hb_s cause w
      = (Done (Ok tt),
         if verbose
         then emit w' (Logged ("[consume] ack fail error job_id="
                               ++ Consumer.ctx_job_id ctx ++ ": "
                               ++ Consumer.messageOf e))
         else w'))
  /\ (forall verbose queue job ctx hb_s,
      NoThrow (Consumer.runJob r scripts handler verbose queue job ctx hb_s))
  /\ (forall fuel args,
      ThrowsOnlyHget r (Consumer.consume r scripts JSON_parse handler fuel args))
  /\ (forall verbose queue job ctx hb_s w,
      fst (handler ctx w) <> Pending ->
      fst (Consumer.runJob r scripts handler verbose queue job ctx hb_s w)
      = Done (Ok tt))
  /\ (forall fuel args w,
      fst (Consumer.consume r scripts JSON_parse handler fuel args w)
      = Done (Ok (Some tt)) ->
      stopRequested r)
  /\ ((forall c, Settles (handler c)) -> neverStopped r -> hgetAnswered r ->
      (forall args lastPromote lastReap,
          ReturnsSome goesOn
            (Consumer.iteration r scripts JSON_parse handler args
               lastPromote lastReap))
      /\ (forall fuel args w,
          fst (Consumer.consume r scripts JSON_parse handler fuel args w)
          = Done (Ok None))).
Proof.
  split; [|split; [|split; [|split; [|split; [|split]]]]].
  - intros verbose queue job ctx hb_s w e w' H.
    unfold Consumer.ackSuccess, tryCatch, bind. rewrite H.
    now destruct verbose.
  - intros verbose queue job ctx hb_s cause w e w' H.
    unfold Consumer.ackFail, tryCatch, bind. cbv zeta. rewrite H.
    now destruct verbose.
  - apply NoThrow_runJob.
  - apply ThrowsOnlyHget_consume.
  - apply runJob_returns.
  - apply consume_returns_on_stop.
  - intros Hh Hs Hg. split.
    + intros args lp lr. now apply iteration_goes_on.
    + intros fuel args w. now apply consume_goes_on.
Qed.

End Runloop.

(** A job whose lease is gone: the immediate heartbeat fails with
    NOT_ACTIVE while the handler runs, and no acknowledgement follows. *)
Lemma lost_lease_skips_ack_witness :
  (forall c w, hb (snd (Sample.quietHandler c w)) = hb w)
  /\ let w := after Consumer.startHeartbeater initialWorld in
     let w1 :=
       after (Consumer.awaitJob Sample.leaseGone Sample.scripts
                (Consumer.leaseOf "demo" Sample.job) (JsNum.ofZ 2)
                (Sample.quietHandler Sample.ctx)) w in
     let w2 :=
       after (Consumer.runJob Sample.leaseGone Sample.scripts Sample.quietHandler
                true "demo" Sample.job Sample.ctx (JsNum.ofZ 2)) w in
     lost (hb w1) = true
     /\ exists evs,
         trace w2 = (trace w1 ++ evs)%list
         /\ ~ In (Called "ack_success") evs
         /\ ~ In (Called "ack_fail") evs.
Proof.
  split; [reflexivity|].
  intros w w1 w2.
  destruct (lost_lease_skips_ack Sample.leaseGone Sample.scripts
              Sample.quietHandler true "demo" Sample.job Sample.ctx (JsNum.ofZ 2)
              initialWorld (fun _ _ => eq_refl)) as [_ H].
  split; [vm_compute; reflexivity|].
  apply H. vm_compute. reflexivity.
Defined.

(** [ack_success] refused with BAD_STATE: the inner [catch] logs the
    error and ends normally.  On that store every acknowledgement is
    refused, and [consume] is still in its loop after three jobs, each of
    them with its refusal in the log. *)
Lemma ack_errors_stay_in_iteration_witness :
  let lease := Consumer.leaseOf "demo" Sample.job in
  let acked :=
    Consumer.awaitJob Sample.badState Sample.scripts lease (JsNum.ofZ 2)
      (Consumer.called "ack_success"
         (Ops.ack_success Sample.badState Sample.scripts lease)) initialWorld in
  let consumed :=
    Consumer.consume Sample.badState Sample.scripts (fun _ => None)
      Sample.quietHandler 3
      (Consumer.mkConsumeArgs "demo" None None None None None
         (Some (JsNum.ofZ 2)) (Some true) None None)
      initialWorld in
  fst acked = Done (Throw (Error "ACK_SUCCESS failed: BAD_STATE"))
  /\ Consumer.ackSuccess Sample.badState Sample.scripts true "demo" Sample.job
       Sample.ctx (JsNum.ofZ 2) initialWorld
     = (Done (Ok tt),
        emit (snd acked)
          (Logged "[consume] ack success error job_id=job1: ACK_SUCCESS failed: BAD_STATE"))
  /\ fst consumed = Done (Ok None)
  /\ List.length
       (filter
          (fun ev =>
             match ev with
             | Logged msg =>
                 String.eqb msg
                   "[consume] ack success error job_id=job1: ACK_SUCCESS failed: BAD_STATE"
             | _ => false
             end)
          (trace (snd consumed))) = 3%nat.
Proof.
  intros lease acked consumed.
  pose proof (ack_errors_stay_in_iteration Sample.badState Sample.scripts
                (fun _ => None) Sample.quietHandler) as (H1 & _ & _ & _ & _ & _ & H7).
  split; [vm_compute; reflexivity|].
  split.
  - apply (H1 true "demo" Sample.job Sample.ctx (JsNum.ofZ 2) initialWorld
             (Error "ACK_SUCCESS failed: BAD_STATE") (snd acked)).
    vm_compute. reflexivity.
  - split; [|vm_compute; reflexivity].
    apply H7.
    + intros c w. discriminate.
    + intros n. reflexivity.
    + intros n key e. discriminate.
Defined.

(* ================================================================== *)
(** * Sample runs *)
(* ================================================================== *)

(** The happy path of the spec: [publish] with a lease of 30000 ms. *)
Example publish_demo :
  Ops.publish (Sample.answering (Ok (Val.RArr [Val.RStr "OK"; Val.RStr "job1"])))
    Sample.scripts
    (Ops.mkPublishArgs "demo" (Val.VObj [("hello", Val.VStr "world")])
       (Some "job1") None (Some (JsNum.ofZ 30000)) None None None None None)
    initialWorld
  = (Done (Ok "job1"),
     mkWorld 2
       [Sent (Evalsha "sha:enqueue" 1
                ["{demo}:meta"; "job1"; Val.JSON_stringify (Val.VObj [("hello", Val.VStr "world")]);
                 "3"; "30000"; "5000"; "1700000000123"; "0"; EmptyString; "0"])]
       (mkMutex false 0) idleHb).
Proof. vm_compute. reflexivity. Qed.

(** A small expiry comes back as it is: the wrap-around starts at 2^31. *)
Example heartbeat_small_expiry :
  fst (Ops.heartbeat (Sample.answering (Ok (Val.RArr [Val.RStr "OK"; Val.RStr "2147483647"])))
         Sample.scripts (Ops.mkLeaseArgs "demo" "job1" "token1" None) initialWorld)
  = Done (Ok 2147483647)
  /\ fst (Ops.heartbeat (Sample.answering (Ok (Val.RArr [Val.RStr "OK"; Val.RStr "2147483648"])))
            Sample.scripts (Ops.mkLeaseArgs "demo" "job1" "token1" None) initialWorld)
     = Done (Ok (-2147483648)).
Proof. split; vm_compute; reflexivity. Qed.

(** The heartbeat cadence of the spec: 4000 ms gives 2 s, 30000 ms is
    clamped to 10 s and 1000 ms to 1 s; the paused backoff of a poll
    interval of 0.05 s is 0.5 s. *)
Example heartbeat_cadence :
  map (fun ms => JsNum.toString (Ops.derive_heartbeat_interval_s (JsNum.ofZ ms)))
      [4000; 30000; 1000]
  = ["2"; "10"; "1"]
  /\ JsNum.toString (Ops.paused_backoff_s (JsNum.ofDecimal false 5 (-2))) = "0.5".
Proof. split; vm_compute; reflexivity. Qed.

(** [child_ack] on the last child: the reply ["OK", 0] gives 0, and the
    reply ["ERR", "NOT_FOUND"] of a later call gives -1. *)
Example child_ack_last_and_after :
  fst (Ops.child_ack (Sample.answering (Ok (Val.RArr [Val.RStr "OK"; Val.RInt 0])))
         Sample.scripts "document:doc_123" "job5" initialWorld)
  = Done (Ok (JsNum.ofZ 0))
  /\ fst (Ops.child_ack
            (Sample.answering (Ok (Val.RArr [Val.RStr "ERR"; Val.RStr "NOT_FOUND"])))
            Sample.scripts "document:doc_123" "job6" initialWorld)
     = Done (Ok (JsNum.ofZ (-1))).
Proof. split; vm_compute; reflexivity. Qed.

(** One pass of the loop on a store that refuses every script but the
    heartbeat: the handler succeeds, [ack_success] fails with BAD_STATE, the
    error is logged and the loop goes on. *)
Example iteration_survives_ack_error :
  exists lastPromote lastReap w,
    Consumer.iteration Sample.badState Sample.scripts (fun _ => None)
      Sample.quietHandler
      (Consumer.mkConsumeArgs "demo" None None None None None
         (Some (JsNum.ofZ 2)) (Some true) None None)
      (JsNum.ofZ 0) (JsNum.ofZ 0) initialWorld
    = (Done (Ok (Consumer.Continue lastPromote lastReap)), w)
    /\ In (Called "ack_success") (trace w)
    /\ In (Logged "[consume] ack success error job_id=job1: ACK_SUCCESS failed: BAD_STATE")
          (trace w).
Proof.
  eexists _, _, _. split; [vm_compute; reflexivity|].
  split; cbn; tauto.
Qed.

(* ================================================================== *)
(** * Keys that coincide *)
(* ================================================================== *)

Section KeyCollisions.

Lemma length_append (a b : string) :
  String.length (a ++ b) = (String.length a + String.length b)%nat.
Proof. induction a as [|c a IH]; simpl; [reflexivity | now rewrite IH]. Qed.

Lemma append_cancel_l (s a b : string) : s ++ a = s ++ b -> a = b.
Proof.
  induction s as [|c s IH]; simpl; intro H; [exact H|].
  injection H as H. now apply IH.
Qed.

Lemma append_cancel_r (a b s : string) : a ++ s = b ++ s -> a = b.
Proof.
  revert b. induction a as [|c a IH]; intros [|d b] H; simpl in H.
  - reflexivity.
  - apply (f_equal String.length) in H. simpl in H.
    rewrite length_append in H. lia.
  - apply (f_equal String.length) in H. simpl in H.
    rewrite length_append in H. lia.
  - injection H as -> H. f_equal. now apply IH.
Qed.

Lemma includes_suffix (a p : string) : Js.includes (a ++ p) p = true.
Proof.
  rewrite <- (append_nil_r p) at 1. apply includes_middle.
Qed.

Lemma queueBase_cases (q : string) :
  (Js.includes q "{" && Js.includes q "}" = true /\ Helper.queueBase q = q)
  \/ (Js.includes q "{" && Js.includes q "}" = false
      /\ Helper.queueBase q = "{" ++ q ++ "}").
Proof.
  unfold Helper.queueBase.
  destruct (Js.includes q "{" && Js.includes q "}"); auto.
Qed.

Lemma queueBase_braces (q : string) :
  Js.includes (Helper.queueBase q) "{" && Js.includes (Helper.queueBase q) "}" = true.
Proof.
  destruct (queueBase_cases q) as [[E ->]|[_ ->]]; [exact E|].
  rewrite (includes_prefix "{" (q ++ "}")).
  change ("{" ++ q ++ "}") with (("{" ++ q) ++ "}").
  now rewrite includes_suffix.
Qed.

(** X1: [queueBase] is idempotent: a name that already carries its braces
    is not wrapped again, so the base and the anchor of [queueBase q] are
    those of [q]. *)
Theorem queueBase_idempotent (q : string) :
  Helper.queueBase (Helper.queueBase q) = Helper.queueBase q
  /\ Helper.queueAnchor (Helper.queueBase q) = Helper.queueAnchor q.
Proof.
  assert (E : Helper.queueBase (Helper.queueBase q) = Helper.queueBase q).
  { unfold Helper.queueBase at 1. now rewrite queueBase_braces. }
  split; [exact E|]. unfold Helper.queueAnchor. now rewrite E.
Qed.

(** X2: two queue names have the same anchor exactly when they are equal or
    one of them is the other wrapped in braces by [queueBase]; so the queues
    [a] and [{a}] share their keys, and no other two names do. *)
Theorem queue_keys_collide_only_by_wrapping (q1 q2 : string) :
  Helper.queueAnchor q1 = Helper.queueAnchor q2
  <-> (q1 = q2 \/ q1 = "{" ++ q2 ++ "}" /\ Helper.queueBase q2 <> q2
       \/ q2 = "{" ++ q1 ++ "}" /\ Helper.queueBase q1 <> q1).
Proof.
  assert (W : forall q, "{" ++ q ++ "}" <> q).
  { intros q H. apply (f_equal String.length) in H. simpl in H.
    rewrite length_append in H. simpl in H. lia. }
  assert (B : forall q, Helper.queueBase ("{" ++ q ++ "}") = "{" ++ q ++ "}").
  { intro q. unfold Helper.queueBase.
    rewrite (includes_prefix "{" (q ++ "}")).
    change ("{" ++ q ++ "}") with (("{" ++ q) ++ "}").
    now rewrite includes_suffix. }
  unfold Helper.queueAnchor. split.
  - intro H. apply append_cancel_r in H.
    destruct (queueBase_cases q1) as [[_ E1]|[_ E1]],
             (queueBase_cases q2) as [[_ E2]|[_ E2]];
      rewrite E1, E2 in H.
    + now left.
    + right; left. split; [exact H|]. rewrite E2. apply W.
    + right; right. split; [now symmetry|]. rewrite E1. apply W.
    + left. apply (append_cancel_l "{") in H. now apply append_cancel_r in H.
  - intros [->|[[-> N]|[-> N]]]; [reflexivity| |]; f_equal; rewrite B.
    + destruct (queueBase_cases q2) as [[_ E]|[_ E]]; congruence.
    + destruct (queueBase_cases q1) as [[_ E]|[_ E]]; congruence.
Qed.

(** X3: [childsAnchor] depends on the key only through its trimmed form,
    and two keys that are given the same anchor have the same trimmed
    form. *)
Theorem childsAnchor_injective_on_trimmed_keys (k1 k2 : string) :
  (Js.trim k1 = Js.trim k2 -> Helper.childsAnchor k1 = Helper.childsAnchor k2)
  /\ (forall anchor,
        Helper.childsAnchor k1 = Ok anchor ->
        Helper.childsAnchor k2 = Ok anchor ->
        Js.trim k1 = Js.trim k2).
Proof.
  split.
  - intro E. unfold Helper.childsAnchor, Helper.childsAnchorMax. now rewrite E.
  - intros anchor H1 H2.
    apply childsAnchor_tagged in H1 as [E1 _].
    apply childsAnchor_tagged in H2 as [E2 _].
    rewrite E1 in E2.
    apply (append_cancel_l "{cc:") in E2. now apply append_cancel_r in E2.
Qed.

End KeyCollisions.


Section OperationsSettle.

Variable r : Env.
Variable scripts : Scripts.OmniqScripts.














End OperationsSettle.

(* ================================================================== *)
(** * Batch operations *)
(* ================================================================== *)

Section Batches.

Import Val JsNum.

Variable r : Env.
Variable scripts : Scripts.OmniqScripts.

Lemma batchRows_batchReply (rows : list (string * string * option string))
    (rest : list Reply) :
  forallb rowWritten rows = true ->
  Ops.batchRows (batchReply rows ++ rest)%list = (rows ++ Ops.batchRows rest)%list.
Proof.
  induction rows as [|[[id st] [reason|]] rows IH]; intro H;
    [reflexivity| |]; cbn in H; apply andb_prop in H as [E H].
  - cbn [batchReply app Ops.batchRows StringOr toStr]. rewrite E.
    apply String.eqb_eq in E. subst st. now rewrite IH.
  - cbn [batchReply app Ops.batchRows StringOr toStr].
    apply negb_true_iff in E. rewrite E. now rewrite IH.
Qed.

(** X5: the decoding loop of the batch operations inverts the flat layout
    of the reply: rows written as job id, status and, after the status
    [ERR] only, a reason are read back as they were written. *)
Theorem batch_reply_round_trip (rows : list (string * string * option string)) :
  forallb rowWritten rows = true ->
  Ops.batchRows (batchReply rows) = rows.
Proof.
  intro H. pose proof (batchRows_batchReply rows [] H) as E.
  now rewrite !app_nil_r in E.
Qed.

Lemma batchReply_head (rows : list (string * string * option string)) :
  startsWithErr rows = false ->
  (2 <=? List.length (batchReply rows))%nat
  && String.eqb (String_ (at_ (batchReply rows) 0)) "ERR" = false.
Proof.
  destruct rows as [|[[id st] [reason|]] rows]; cbn; intro H;
    [reflexivity| |]; now rewrite H.
Qed.

(** X6: [retry_failed_batch] and [remove_jobs_batch], called with at most
    100 ids on a store that answers with the flat form of [rows], return
    [rows], provided the first job id of the reply does not read [ERR]. *)
Theorem batch_operations_return_the_rows
    (q lane : string) (ids : list string) (now : option number)
    (rows : list (string * string * option string)) (w : World) :
  (forall n c, store r n c = Ok (RArr (batchReply rows))) ->
  (List.length ids <= 100)%nat ->
  forallb rowWritten rows = true ->
  startsWithErr rows = false ->
  fst (Ops.retry_failed_batch r scripts q ids now w) = Done (Ok rows)
  /\ fst (Ops.remove_jobs_batch r scripts q lane ids w) = Done (Ok rows).
Proof.
  intros S L W E.
  assert (L' : (100 <? List.length ids)%nat = false) by now apply Nat.ltb_ge.
  pose proof (batchReply_head rows E) as Hd.
  pose proof (batchRows_batchReply rows [] W) as RT. rewrite !app_nil_r in RT.
  split.
  - unfold Ops.retry_failed_batch. rewrite L'. unfold bind.
    destruct (nowOr_trace r (Ops.orDefault now (ofZ 0)) w) as (v & w' & -> & _).
    unfold Ops.invoke, Ops.evalshaWithNoScriptFallback, tryCatch, Ops.send.
    rewrite S. cbn [fst]. rewrite Hd, RT. reflexivity.
  - unfold Ops.remove_jobs_batch. rewrite L'. unfold bind.
    unfold Ops.invoke, Ops.evalshaWithNoScriptFallback, tryCatch, Ops.send.
    rewrite S. cbn [fst]. rewrite Hd, RT. reflexivity.
Qed.

(** X7: with more than 100 job ids the two batch operations throw and
    leave the world as it is, so nothing is sent; with at most 100 the
    script is called with the time (or the lane), the number of ids and
    then the ids in their order. *)
Theorem batch_operations_cap_and_count
    (q lane : string) (ids : list string) (now : option number) (w : World) :
  ((100 < List.length ids)%nat ->
   Ops.retry_failed_batch r scripts q ids now w
   = (Done (Throw (Error "retry_failed_batch max is 100 job_ids per call")), w)
   /\ Ops.remove_jobs_batch r scripts q lane ids w
      = (Done (Throw (Error "remove_jobs_batch max is 100 job_ids per call")), w))
  /\ ((List.length ids <= 100)%nat ->
      (exists nms rest,
          trace (after (Ops.retry_failed_batch r scripts q ids now) w)
          = (trace w
             ++ Sent (Evalsha (Scripts.sha (Scripts.retry_failed_batch scripts)) 1
                        (Helper.queueAnchor q :: Ops.truncStr nms
                           :: Js.decimal (Z.of_nat (List.length ids)) :: ids))
                :: rest)%list)
      /\ (exists rest,
          trace (after (Ops.remove_jobs_batch r scripts q lane ids) w)
          = (trace w
             ++ Sent (Evalsha (Scripts.sha (Scripts.remove_jobs_batch scripts)) 1
                        (Helper.queueAnchor q :: lane
                           :: Js.decimal (Z.of_nat (List.length ids)) :: ids))
                :: rest)%list)).
Proof.
  split.
  - intro L. apply Nat.ltb_lt in L.
    unfold Ops.retry_failed_batch, Ops.remove_jobs_batch. rewrite L. now split.
  - intro L. apply Nat.ltb_ge in L.
    unfold after, Ops.retry_failed_batch, Ops.remove_jobs_batch. rewrite L.
    split.
    + unfold bind at 1.
      destruct (nowOr_trace r (Ops.orDefault now (ofZ 0)) w) as (v & w' & -> & T & _).
      exists v. unfold bind, Ops.invoke.
      destruct (fallback_sends_evalsha r
                  (Scripts.sha (Scripts.retry_failed_batch scripts))
                  (Scripts.src (Scripts.retry_failed_batch scripts)) 1
                  (Helper.queueAnchor q :: Ops.truncStr v
                     :: Js.decimal (Z.of_nat (List.length ids)) :: ids) w')
        as (rest & E).
      unfold after in E. rewrite T in E. exists rest.
      destruct (Ops.evalshaWithNoScriptFallback _ _ _ _ _ _) as [[[a|e]|] w''];
        cbn [snd] in *; try exact E.
      destruct a; try exact E.
      destruct (_ && _); exact E.
    + unfold bind, Ops.invoke.
      destruct (fallback_sends_evalsha r
                  (Scripts.sha (Scripts.remove_jobs_batch scripts))
                  (Scripts.src (Scripts.remove_jobs_batch scripts)) 1
                  (Helper.queueAnchor q :: lane
                     :: Js.decimal (Z.of_nat (List.length ids)) :: ids) w)
        as (rest & E).
      unfold after in E. exists rest.
      destruct (Ops.evalshaWithNoScriptFallback _ _ _ _ _ _) as [[[a|e]|] w''];
        cbn [snd] in *; try exact E.
      destruct a; try exact E.
      destruct (_ && _); exact E.
Qed.

End Batches.

(* ================================================================== *)
(** * The error text of ack_fail *)
(* ================================================================== *)

Section Blank.

Lemma trimEnd_empty (s : string) : Js.trimEnd s = EmptyString <-> blank s = true.
Proof.
  induction s as [|c s IH]; cbn; [tauto|].
  destruct (Js.trimEnd s) eqn:E.
  - destruct (Js.isWhiteSpace c); cbn; [tauto|]. split; discriminate.
  - split; [discriminate|]. intro H. apply andb_prop in H as [_ H].
    apply IH in H. discriminate.
Qed.

Lemma trimStart_blank (s : string) : blank s = true -> Js.trimStart s = EmptyString.
Proof.
  induction s as [|c s IH]; cbn; [reflexivity|].
  intro H. apply andb_prop in H as [-> H]. now apply IH.
Qed.

Lemma blank_trimStart (s : string) : blank (Js.trimStart s) = blank s.
Proof.
  induction s as [|c s IH]; cbn; [reflexivity|].
  destruct (Js.isWhiteSpace c) eqn:E; cbn; [exact IH | now rewrite E].
Qed.

Lemma trim_empty (s : string) : Js.trim s = EmptyString <-> blank s = true.
Proof.
  unfold Js.trim. rewrite trimEnd_empty. now rewrite blank_trimStart.
Qed.

Lemma trim_eqb_blank (s : string) : String.eqb (Js.trim s) EmptyString = blank s.
Proof.
  destruct (blank s) eqn:E.
  - apply String.eqb_eq. now apply trim_empty.
  - apply String.eqb_neq. intro H. apply trim_empty in H. congruence.
Qed.

Lemma blank_app (a b : string) : blank (a ++ b) = blank a && blank b.
Proof.
  induction a as [|c a IH]; cbn; [reflexivity|].
  now rewrite IH, andb_assoc.
Qed.

End Blank.

Section AckFail.

Import Val JsNum.

Variable r : Env.
Variable scripts : Scripts.OmniqScripts.

Lemma nowOr_value (now : option number) (w : World) :
  exists w',
    Ops.nowOr r (Ops.orDefault now (ofZ 0)) w
    = (Done (Ok (timeArg r now (tick w))), w')
    /\ trace w' = trace w /\ scriptMutex w' = scriptMutex w /\ hb w' = hb w.
Proof.
  unfold Ops.nowOr, timeArg, Ops.orDefault.
  destruct now as [x|].
  - destruct (truthy x); eexists; (split; [reflexivity | now repeat split]).
  - change (truthy (ofZ 0)) with false. cbv iota.
    eexists; (split; [reflexivity | now repeat split]).
Qed.

Lemma ack_fail_trace (args : Ops.AckFailArgs) (w : World) :
  exists rest,
    trace (after (Ops.ack_fail r scripts args) w)
    = (trace w
       ++ Sent (Evalsha (Scripts.sha (Scripts.ack_fail scripts)) 1
                  ([Helper.queueAnchor (Ops.f_queue args);
                    Ops.f_job_id args;
                    Ops.truncStr (timeArg r (Ops.f_now_ms_override args) (tick w));
                    Ops.f_lease_token args]
                   ++ errorArg (Ops.f_error args)))
          :: rest)%list.
Proof.
  unfold after, Ops.ack_fail. unfold bind at 1.
  destruct (nowOr_value (Ops.f_now_ms_override args) w) as (w' & -> & T & _).
  set (nms := timeArg r (Ops.f_now_ms_override args) (tick w)).
  assert (E : exists rest,
             trace (after (Ops.invoke r (Scripts.ack_fail scripts)
                             (Helper.queueAnchor (Ops.f_queue args))
                             ([Ops.f_job_id args; Ops.truncStr nms;
                               Ops.f_lease_token args]
                              ++ errorArg (Ops.f_error args))) w')
             = (trace w
                ++ Sent (Evalsha (Scripts.sha (Scripts.ack_fail scripts)) 1
                           ([Helper.queueAnchor (Ops.f_queue args);
                             Ops.f_job_id args; Ops.truncStr nms;
                             Ops.f_lease_token args]
                            ++ errorArg (Ops.f_error args))) :: rest)%list).
  { rewrite <- T. apply fallback_sends_evalsha. }
  destruct E as (rest & E). exists rest.
  assert (S : (match Ops.f_error args with
               | Some error =>
                   if String.eqb (Js.trim error) EmptyString
                   then Ops.invoke r (Scripts.ack_fail scripts)
                          (Helper.queueAnchor (Ops.f_queue args))
                          [Ops.f_job_id args; Ops.truncStr nms; Ops.f_lease_token args]
                   else Ops.invoke r (Scripts.ack_fail scripts)
                          (Helper.queueAnchor (Ops.f_queue args))
                          [Ops.f_job_id args; Ops.truncStr nms;
                           Ops.f_lease_token args; error]
               | None =>
                   Ops.invoke r (Scripts.ack_fail scripts)
                     (Helper.queueAnchor (Ops.f_queue args))
                     [Ops.f_job_id args; Ops.truncStr nms; Ops.f_lease_token args]
               end)
              = Ops.invoke r (Scripts.ack_fail scripts)
                  (Helper.queueAnchor (Ops.f_queue args))
                  ([Ops.f_job_id args; Ops.truncStr nms; Ops.f_lease_token args]
                   ++ errorArg (Ops.f_error args))).
  { unfold errorArg. destruct (Ops.f_error args) as [e|]; [|reflexivity].
    rewrite trim_eqb_blank. now destruct (blank e). }
  rewrite S. unfold bind. unfold after in E.
  destruct (Ops.invoke _ _ _ _ _) as [[[a|e]|] w'']; cbn [snd] in *; try exact E.
  destruct (Ops.shorterThan a 1); [exact E|]. cbv zeta.
  repeat match goal with
         | |- context [if ?c then _ else _] => destruct c
         end; exact E.
Qed.

(** X8: [ack_fail] sends the error text, as it was given, as a fourth
    argument exactly when a text is given and is not made of white space
    only; the time argument is the override when one is given and is not
    zero, and the clock otherwise. *)
Theorem ack_fail_sends_error_unless_blank (args : Ops.AckFailArgs) (w : World) :
  exists rest,
    trace (after (Ops.ack_fail r scripts args) w)
    = (trace w
       ++ Sent (Evalsha (Scripts.sha (Scripts.ack_fail scripts)) 1
                  ([Helper.queueAnchor (Ops.f_queue args);
                    Ops.f_job_id args;
                    Ops.truncStr (timeArg r (Ops.f_now_ms_override args) (tick w));
                    Ops.f_lease_token args]
                   ++ match Ops.f_error args with
                      | Some e => if blank e then [] else [e]
                      | None => []
                      end))
          :: rest)%list.
Proof. apply ack_fail_trace. Qed.

Let T := grows (fun _ : Event => True).

Lemma any_refl (w : World) : T w w.
Proof. apply grows_refl. Qed.

Lemma any_trans (a b c : World) : T a b -> T b c -> T a c.
Proof. apply grows_trans. Qed.

Lemma safeLog_any (msg : string) : Respects T (Consumer.safeLog msg).
Proof. intro w. apply grows_emit. exact I. Qed.

Lemma logIf_any (v : bool) (msg : string) : Respects T (Consumer.logIf v msg).
Proof. destruct v; [apply safeLog_any | apply (Respects_ret _ any_refl)]. Qed.

Lemma runTimers_any (lease : Ops.LeaseArgs) (s : number) (w : World) :
  T w (Consumer.runTimers r scripts lease s w).
Proof.
  eapply grows_weaken; [|apply runTimers_grows]. intros; exact I.
Qed.

Lemma nonblank_error_text (n m : string) : blank (n ++ ": " ++ m) = false.
Proof.
  rewrite blank_app. change (": " ++ m) with (String ":" (String " " m)).
  cbn [blank]. change (Js.isWhiteSpace ":") with false. apply andb_false_r.
Qed.

(** X9: when the handler has thrown [e], the [ack_fail] of the runloop
    always carries an error text, the name and the message of [e] joined
    by a colon, and the time of the clock. *)
Theorem runloop_ack_fail_carries_the_error
    (verbose : bool) (queue : string) (job : Ops.ReserveJob)
    (ctx : Consumer.JobCtx) (hb_s : number) (e : Thrown) (w : World) :
  exists rest,
    trace (after (Consumer.ackFail r scripts verbose queue job ctx hb_s e) w)
    = (trace w
       ++ Called "ack_fail"
          :: Sent (Evalsha (Scripts.sha (Scripts.ack_fail scripts)) 1
                     [Helper.queueAnchor queue;
                      Ops.job_id job;
                      Ops.truncStr (ofZ (clock r (tick w)));
                      Ops.lease_token job;
                      (Consumer.nameOf e ++ ": " ++ Consumer.messageOf e)%string])
          :: rest)%list.
Proof.
  set (args := Ops.mkAckFailArgs queue (Ops.job_id job) (Ops.lease_token job)
                 (Some (Consumer.nameOf e ++ ": " ++ Consumer.messageOf e)) None).
  destruct (ack_fail_trace args (emit w (Called "ack_fail"))) as (rest1 & E1).
  unfold errorArg in E1. cbn [Ops.f_error args] in E1.
  rewrite nonblank_error_text in E1.
  cbn [emit trace tick Ops.f_queue Ops.f_job_id Ops.f_lease_token
       Ops.f_now_ms_override timeArg app] in E1.
  rewrite <- app_assoc in E1. cbn [app] in E1.
  assert (G : forall w1 w2, trace w1 = (trace w ++ Called "ack_fail"
                 :: Sent (Evalsha (Scripts.sha (Scripts.ack_fail scripts)) 1
                     [Helper.queueAnchor queue; Ops.job_id job;
                      Ops.truncStr (ofZ (clock r (tick w)));
                      Ops.lease_token job;
                      (Consumer.nameOf e ++ ": " ++ Consumer.messageOf e)%string])
                 :: rest1)%list -> T w1 w2 ->
               exists rest, trace w2 = (trace w ++ Called "ack_fail"
                 :: Sent (Evalsha (Scripts.sha (Scripts.ack_fail scripts)) 1
                     [Helper.queueAnchor queue; Ops.job_id job;
                      Ops.truncStr (ofZ (clock r (tick w)));
                      Ops.lease_token job;
                      (Consumer.nameOf e ++ ": " ++ Consumer.messageOf e)%string])
                 :: rest)%list).
  { intros w1 w2 H1 (evs & H2 & _). exists (rest1 ++ evs)%list.
    rewrite H2, H1, <- app_assoc. reflexivity. }
  unfold after in *. unfold Consumer.ackFail, tryCatch, bind, Consumer.awaitJob,
    Consumer.called. fold args.
  destruct (Ops.ack_fail r scripts args (emit w (Called "ack_fail")))
    as [[[res|e2]|] w1]; cbn [snd] in *.
  - set (w2 := Consumer.runTimers r scripts _ hb_s w1).
    assert (H2 : T w1 w2) by apply runTimers_any.
    destruct verbose.
    + destruct res; unfold Consumer.safeLog; cbn [snd];
        (apply (G w1); [exact E1|]);
        (apply (any_trans _ w2); [exact H2|]);
        (eapply any_trans; apply grows_emit; exact I).
    + now apply (G w1).
  - apply (G w1); [exact E1|].
    eapply any_trans; [apply runTimers_any | apply logIf_any].
  - apply (G w1); [exact E1 | apply any_refl].
Qed.

End AckFail.

(* ================================================================== *)
(** * The heartbeater *)
(* ================================================================== *)

Section Heartbeater.

Import Val JsNum.

Variable r : Env.
Variable scripts : Scripts.OmniqScripts.

Lemma lostMessage_heartbeat_failed (reason : string) :
  Consumer.lostMessage ("HEARTBEAT failed: " ++ reason)
  = Consumer.lostMessage reason.
Proof. reflexivity. Qed.

(** X10: when the store answers the immediate heartbeat with [ERR] and a
    reason, the heartbeater records the error [HEARTBEAT failed: reason];
    if the reason contains NOT_ACTIVE or TOKEN_MISMATCH it raises [lost],
    stops and sets no timer, and otherwise it keeps running and sets the
    interval timer. *)
Theorem first_heartbeat_error_decides
    (lease : Ops.LeaseArgs) (s : number) (reason : string) (w : World) :
  (forall n c, store r n c = Ok (RArr [RStr "ERR"; RStr reason])) ->
  hb w = freshHb ->
  hb (Consumer.hbStep r scripts lease s FirstSettles w)
  = if Consumer.lostMessage reason
    then mkHb true true None false 0
           [Throw (Error ("HEARTBEAT failed: " ++ reason))]
    else mkHb false false (Some (Consumer.millis s)) false 0
           [Throw (Error ("HEARTBEAT failed: " ++ reason))].
Proof.
  intros S F. unfold Consumer.hbStep. rewrite F. cbn [firstPending freshHb].
  unfold Consumer.called, Ops.heartbeat. unfold bind at 1.
  destruct (nowOr_value r (Ops.l_now_ms_override lease)
              (emit w (Called "heartbeat"))) as (w1 & -> & _ & _ & H1).
  cbn [hb emit] in H1. rewrite F in H1.
  unfold bind, Ops.invoke, Ops.evalshaWithNoScriptFallback, tryCatch, Ops.send.
  rewrite S.
  cbn -[Consumer.lostMessage Consumer.millis append].
  rewrite H1. unfold Consumer.settle, Consumer.checkLost.
  cbn -[Consumer.lostMessage Consumer.millis append].
  rewrite lostMessage_heartbeat_failed.
  destruct (Consumer.lostMessage reason); reflexivity.
Qed.

Lemma hbOff_sound (h : HbState) : hbOff h -> hbSound h.
Proof. intros [S T]. split; intro; assumption. Qed.

Lemma hbStop_off (h : HbState) : hbSound h -> hbOff (Consumer.hbStop h).
Proof.
  intros [_ T]. unfold Consumer.hbStop, hbOff.
  destruct (stopped h) eqn:E; [now split; [|apply T] | now split].
Qed.

Lemma hbStop_keeps_off (h : HbState) : hbOff h -> hbOff (Consumer.hbStop h).
Proof. intro H. now apply hbStop_off, hbOff_sound. Qed.

Lemma hbStep_keeps (lease : Ops.LeaseArgs) (s : number) (ev : HbEvent) (w : World) :
  (hbSound (hb w) -> hbSound (hb (Consumer.hbStep r scripts lease s ev w)))
  /\ (hbOff (hb w) -> hbOff (hb (Consumer.hbStep r scripts lease s ev w))).
Proof.
  unfold Consumer.hbStep.
  pose proof (heartbeat_call_step r scripts lease w) as [_ H].
  destruct ev.
  - destruct (firstPending (hb w)); [|tauto].
    destruct (Consumer.called "heartbeat" (Ops.heartbeat r scripts lease) w)
      as [[[z|e]|] w']; cbn [snd] in H;
      unfold Consumer.checkLost, Consumer.hbStop, Consumer.schedule, Consumer.settle;
      rewrite ?H; cbn [stopped lost timer];
      try destruct (Consumer.lostMessage (Consumer.lostText e));
      destruct (stopped (hb w)) eqn:E1; cbn [hb withHb stopped lost timer];
      unfold hbSound, hbOff; cbn [stopped lost timer]; rewrite ?E1;
      intuition congruence.
  - destruct (timer (hb w)) eqn:E; [|tauto].
    destruct (stopped (hb w)) eqn:E1; [tauto|].
    cbn [hb withHb]. unfold hbSound, hbOff. cbn [stopped lost timer].
    rewrite E, E1. tauto.
  - destruct (ticksPending (hb w)); [tauto|].
    destruct (Consumer.called "heartbeat" (Ops.heartbeat r scripts lease) w)
      as [[[z|e]|] w']; cbn [snd] in H;
      unfold Consumer.checkLost, Consumer.hbStop, Consumer.settle;
      rewrite ?H; cbn [stopped lost timer];
      try destruct (Consumer.lostMessage (Consumer.lostText e));
      destruct (stopped (hb w)) eqn:E1; cbn [snd hb withHb stopped lost timer];
      unfold hbSound, hbOff; cbn [stopped lost timer]; rewrite ?E1;
      intuition congruence.
Qed.

Lemma runTimers_keeps (lease : Ops.LeaseArgs) (s : number) (w : World) :
  (hbSound (hb w) -> hbSound (hb (Consumer.runTimers r scripts lease s w)))
  /\ (hbOff (hb w) -> hbOff (hb (Consumer.runTimers r scripts lease s w))).
Proof.
  unfold Consumer.runTimers.
  change (hb w) with (hb (withTick w (S (tick w)))).
  generalize (withTick w (S (tick w))) as w0.
  induction (timers r (tick w)) as [|ev evs IH]; intro w0; cbn [fold_left].
  - tauto.
  - destruct (IH (Consumer.hbStep r scripts lease s ev w0)) as [A B].
    destruct (hbStep_keeps lease s ev w0) as [C D]. tauto.
Qed.

(** X11: the heartbeater keeps its invariant from the start, through
    [stop()] and through every callback of the event loop: once the lease
    is lost it is stopped, and once it is stopped it holds no interval
    timer. *)
Theorem heartbeater_keeps_its_invariant (lease : Ops.LeaseArgs) (s : number) :
  hbSound freshHb
  /\ (forall h, hbSound h -> hbSound (Consumer.hbStop h))
  /\ (forall ev w,
        hbSound (hb w) -> hbSound (hb (Consumer.hbStep r scripts lease s ev w)))
  /\ (forall w,
        hbSound (hb w) -> hbSound (hb (Consumer.runTimers r scripts lease s w))).
Proof.
  split; [|split; [|split]].
  - split; discriminate.
  - intros h H. now apply hbOff_sound, hbStop_off.
  - intros ev w. apply hbStep_keeps.
  - intro w. apply runTimers_keeps.
Qed.

End Heartbeater.

Section JobEnd.

Import Val JsNum.

Variable r : Env.
Variable scripts : Scripts.OmniqScripts.
Variable handler : Consumer.JobCtx -> M unit.
Variable verbose : bool.
Variable queue : string.
Variable job : Ops.ReserveJob.
Variable ctx : Consumer.JobCtx.
Variable hb_s : number.

Let lease := Consumer.leaseOf queue job.

(** A heartbeater that is off stays off. *)
Let StaysOff (w w' : World) : Prop := hbOff (hb w) -> hbOff (hb w').

Lemma StaysOff_refl (w : World) : StaysOff w w.
Proof. intro H. exact H. Qed.

Lemma StaysOff_trans (a b c : World) : StaysOff a b -> StaysOff b c -> StaysOff a c.
Proof. intros H1 H2 H. apply H2, H1, H. Qed.

Lemma StaysOff_sameHb (w w' : World) : hb w' = hb w -> StaysOff w w'.
Proof. intros E H. now rewrite E. Qed.

Lemma logIf_off (v : bool) (msg : string) : Respects StaysOff (Consumer.logIf v msg).
Proof. intro w. apply StaysOff_sameHb. now destruct v. Qed.

Lemma safeLog_off (msg : string) : Respects StaysOff (Consumer.safeLog msg).
Proof. intro w. now apply StaysOff_sameHb. Qed.

Lemma awaitJob_off {A} (m : M A) :
  (forall w, hb (snd (m w)) = hb w) ->
  Respects StaysOff (Consumer.awaitJob r scripts lease hb_s m).
Proof.
  intros Hm w. specialize (Hm w). unfold Consumer.awaitJob.
  destruct (m w) as [[res|] w1]; cbn [snd] in *.
  - intro H. apply runTimers_keeps. now rewrite Hm.
  - now apply StaysOff_sameHb.
Qed.

Lemma ack_success_sameHb (w : World) :
  hb (snd (Consumer.called "ack_success" (Ops.ack_success r scripts lease) w)) = hb w.
Proof.
  unfold Consumer.called.
  now destruct (ack_success_grows r scripts (fun _ => True) lease
                  (fun _ _ => conj I I) (emit w (Called "ack_success"))) as [_ H].
Qed.

Lemma ack_fail_sameHb (args : Ops.AckFailArgs) (w : World) :
  hb (snd (Consumer.called "ack_fail" (Ops.ack_fail r scripts args) w)) = hb w.
Proof.
  unfold Consumer.called.
  now destruct (ack_fail_grows r scripts (fun _ => True) args
                  (fun _ _ => conj I I) (emit w (Called "ack_fail"))) as [_ H].
Qed.

Lemma raceDone_sameHb (w : World) : hb (snd (Consumer.raceDone w)) = hb w.
Proof. unfold Consumer.raceDone. now destruct (stopped (hb w)). Qed.

Ltac off :=
  repeat first
    [ apply logIf_off
    | apply safeLog_off
    | apply awaitJob_off; first [apply ack_success_sameHb | apply ack_fail_sameHb
                                | apply raceDone_sameHb]
    | respects_step StaysOff_refl StaysOff_trans ].

Lemma ackSuccess_off :
  Respects StaysOff (Consumer.ackSuccess r scripts verbose queue job ctx hb_s).
Proof. unfold Consumer.ackSuccess. fold lease. off. Qed.

Lemma ackFail_off (e : Thrown) :
  Respects StaysOff (Consumer.ackFail r scripts verbose queue job ctx hb_s e).
Proof. unfold Consumer.ackFail. fold lease. cbv zeta. off. Qed.

(** After [hb.stop()] at the head of the [try] tail and of the [catch]. *)
Lemma onSuccess_off (w : World) :
  hbSound (hb w) ->
  hbOff (hb (snd (Consumer.onSuccess r scripts verbose queue job ctx hb_s w))).
Proof.
  intro H. unfold Consumer.onSuccess, Consumer.stopHb, Consumer.isLost.
  unfold bind at 1. unfold bind at 1.
  set (w1 := withHb w (Consumer.hbStop (hb w))).
  assert (H1 : hbOff (hb w1)) by now apply hbStop_off.
  destruct (negb (lost (hb w1))); [now apply ackSuccess_off | exact H1].
Qed.

Lemma onFailure_off (e : Thrown) (w : World) :
  hbSound (hb w) ->
  hbOff (hb (snd (Consumer.onFailure r scripts verbose queue job ctx hb_s e w))).
Proof.
  intro H. unfold Consumer.onFailure, Consumer.stopHb, Consumer.isLost.
  unfold bind at 1. unfold bind at 1.
  set (w1 := withHb w (Consumer.hbStop (hb w))).
  assert (H1 : hbOff (hb w1)) by now apply hbStop_off.
  destruct (negb (lost (hb w1))); [now apply ackFail_off | exact H1].
Qed.

Lemma settleJob_off (handled : Res unit) (w : World) :
  hbSound (hb w) ->
  hbOff (hb (snd (Consumer.settleJob r scripts verbose queue job ctx hb_s handled w))).
Proof.
  intro H. unfold Consumer.settleJob, tryFinally, tryCatch, Consumer.liftHandled.
  fold lease.
  assert (F : forall w1, hbOff (hb w1) ->
              hbOff (hb (snd (Consumer.awaitJob r scripts lease hb_s
                                Consumer.raceDone w1)))).
  { intros w1 H1. revert H1. apply awaitJob_off. apply raceDone_sameHb. }
  assert (T : exists o w1,
             match
               (Consumer.liftHandled handled ;;;
                Consumer.onSuccess r scripts verbose queue job ctx hb_s)%js w
             with
             | (Done (Throw e), w') =>
                 Consumer.onFailure r scripts verbose queue job ctx hb_s e w'
             | other => other
             end = (o, w1) /\ hbOff (hb w1)).
  { unfold bind at 1, Consumer.liftHandled.
    destruct handled as [[]|e].
    - pose proof (onSuccess_off w H) as H1.
      destruct (Consumer.onSuccess r scripts verbose queue job ctx hb_s w)
        as [[[[]|e]|] w1]; cbn [snd] in H1.
      + now eexists _, _.
      + eexists _, _. split; [apply surjective_pairing|].
        now apply onFailure_off, hbOff_sound.
      + now eexists _, _.
    - eexists _, _. split; [apply surjective_pairing|]. now apply onFailure_off. }
  destruct T as (o & w1 & E & H1).
  unfold Consumer.liftHandled in E. rewrite E.
  specialize (F w1 H1).
  destruct o as [res|]; [|exact H1].
  destruct (Consumer.awaitJob r scripts lease hb_s Consumer.raceDone w1)
    as [[[[]|e]|] w2]; exact F.
Qed.

(** X12: whenever the handler's promise settles, by a return or by a
    throw, the job ends with the heartbeater stopped and its timer
    cleared, whatever the acknowledgement comes to.  The handler is given
    no access to the heartbeater. *)
Theorem job_end_leaves_the_heartbeater_off (w0 : World) :
  (forall c w, hb (snd (handler c w)) = hb w) ->
  let w := after Consumer.startHeartbeater w0 in
  fst (handler ctx w) <> Pending ->
  hbOff (hb (after (Consumer.runJob r scripts handler verbose queue job ctx hb_s) w)).
Proof.
  intros Hframe w Hdone. unfold after. rewrite runJob_split.
  fold lease. unfold Consumer.awaitJob.
  pose proof (Hframe ctx w) as Hw.
  destruct (handler ctx w) as [[handled|] w1]; cbn [fst snd] in *; [|congruence].
  apply settleJob_off. apply runTimers_keeps. rewrite Hw.
  split; discriminate.
Qed.

End JobEnd.

(* ================================================================== *)
(** * Intervals and timeouts *)
(* ================================================================== *)

Section Intervals.

Import JsNum.

Lemma SFcompare_swap (a b : number) :
  SFcompare b a = option_map CompOpp (SFcompare a b).
Proof.
  destruct a as [sa|sa| |sa ma ea], b as [sb|sb| |sb mb eb];
    try destruct sa; try destruct sb; try reflexivity.
  - cbn. rewrite (Z.compare_antisym ea eb).
    destruct (ea ?= eb); cbn; try reflexivity.
    now rewrite (Pos.compare_cont_antisym ma mb Eq).
  - cbn. rewrite (Z.compare_antisym ea eb).
    destruct (ea ?= eb); cbn; try reflexivity.
    now rewrite (Pos.compare_cont_antisym ma mb Eq).
Qed.

Lemma shr_1_nonneg (mrs : shr_record) : 0 <= shr_m mrs -> 0 <= shr_m (shr_1 mrs).
Proof.
  destruct mrs as [m rr ss]. cbn [shr_m]. intro H. unfold shr_1.
  destruct m as [|[p|p|]|p]; cbn [shr_m]; lia.
Qed.

Lemma iter_pos_shr_1_nonneg (p : positive) (mrs : shr_record) :
  0 <= shr_m mrs -> 0 <= shr_m (iter_pos shr_1 p mrs).
Proof.
  revert mrs. induction p as [p IH|p IH|]; intros mrs H; cbn [iter_pos].
  - apply IH, IH, shr_1_nonneg, H.
  - apply IH, IH, H.
  - apply shr_1_nonneg, H.
Qed.

Lemma shr_fexp_nonneg (m e : Z) (l : location) :
  0 <= m -> 0 <= shr_m (fst (shr_fexp prec emax m e l)).
Proof.
  intro H. unfold shr_fexp, shr.
  assert (H0 : 0 <= shr_m (shr_record_of_loc m l)).
  { destruct l as [|[]]; exact H. }
  destruct (_ - e) as [|p|p]; cbn [fst]; try exact H0.
  now apply iter_pos_shr_1_nonneg.
Qed.

Lemma binary_round_aux_not_nan (s : bool) (m e : Z) (l : location) :
  0 <= m -> binary_round_aux prec emax s m e l <> S754_nan.
Proof.
  intro H. unfold binary_round_aux.
  pose proof (shr_fexp_nonneg m e l H) as H1.
  destruct (shr_fexp prec emax m e l) as [mrs' e']. cbn [fst] in H1.
  assert (H2 : 0 <= round_nearest_even (shr_m mrs') (loc_of_shr_record mrs')).
  { unfold round_nearest_even.
    destruct (loc_of_shr_record mrs') as [|[]]; try lia.
    destruct (Z.even (shr_m mrs')); lia. }
  pose proof (shr_fexp_nonneg _ e' loc_Exact H2) as H3.
  destruct (shr_fexp prec emax _ e' loc_Exact) as [mrs'' e'']. cbn [fst] in H3.
  destruct (shr_m mrs'') as [|p|p]; try discriminate; [|lia].
  destruct (e'' <=? emax - prec); discriminate.
Qed.

Lemma binary_normalize_not_nan (m e : Z) (s : bool) :
  binary_normalize prec emax m e s <> S754_nan.
Proof.
  unfold binary_normalize, binary_round.
  destruct m as [|p|p]; [discriminate| |];
    destruct (shl_align _ _ _) as [mz ez]; now apply binary_round_aux_not_nan.
Qed.

Lemma div_not_nan (x : number) (s : bool) (m : positive) (e : Z) :
  x <> NaN -> div x (S754_finite s m e) <> NaN.
Proof.
  unfold NaN. intro H. unfold div, SFdiv.
  destruct x as [sx|sx| |sx mx ex]; try discriminate; [congruence|].
  unfold SFdiv_core_binary.
  set (m' := match _ - _ - _ with Z0 => _ | Zpos _ => _ | Zneg _ => _ end).
  assert (H0 : 0 <= m').
  { subst m'. destruct (_ - _ - _); try lia. apply Z.shiftl_nonneg. lia. }
  pose proof (Z.div_pos m' (Zpos m) H0 ltac:(lia)) as Hq.
  unfold Z.div in Hq.
  destruct (Z.div_eucl m' (Zpos m)) as [q rr]. cbn [fst] in Hq.
  now apply binary_round_aux_not_nan.
Qed.

Lemma mul_not_nan (x : number) (s : bool) (m : positive) (e : Z) :
  x <> NaN -> mul x (S754_finite s m e) <> NaN.
Proof.
  unfold NaN. intro H. unfold mul, SFmul.
  destruct x as [sx|sx| |sx mx ex]; try discriminate; [congruence|].
  apply binary_round_aux_not_nan. lia.
Qed.

Lemma SFcompare_refl (a : number) : a <> NaN -> SFcompare a a = Some Eq.
Proof.
  unfold NaN. intro H.
  destruct a as [[]|[]| |[] m e]; try reflexivity; try congruence;
    unfold SFcompare; now rewrite Z.compare_refl, Pos.compare_cont_refl.
Qed.

Lemma Math_max_bounds (a b : number) :
  a <> NaN -> b <> NaN ->
  Math_max a b <> NaN
  /\ SFleb a (Math_max a b) = true /\ SFleb b (Math_max a b) = true
  /\ (Math_max a b = a \/ Math_max a b = b).
Proof.
  unfold NaN. intros Ha Hb. unfold Math_max, SFleb.
  pose proof (SFcompare_swap a b) as Sw.
  pose proof (SFcompare_refl a Ha) as Ra.
  pose proof (SFcompare_refl b Hb) as Rb.
  destruct (SFcompare a b) as [[]|] eqn:E; cbn in Sw.
  - destruct a as [[]|[]| |[] m e]; try congruence;
      rewrite ?E, ?Sw, ?Ra, ?Rb; auto.
  - rewrite E, Rb. auto.
  - rewrite Ra, Sw. auto.
  - destruct a, b; try congruence; discriminate.
Qed.

Lemma Math_min_bounds (a b : number) :
  a <> NaN -> b <> NaN ->
  Math_min a b <> NaN
  /\ SFleb (Math_min a b) a = true /\ SFleb (Math_min a b) b = true.
Proof.
  unfold NaN. intros Ha Hb. unfold Math_min, SFleb.
  pose proof (SFcompare_swap a b) as Sw.
  pose proof (SFcompare_refl a Ha) as Ra.
  pose proof (SFcompare_refl b Hb) as Rb.
  destruct (SFcompare a b) as [[]|] eqn:E; cbn in Sw.
  - destruct a as [[]|[]| |[] m e]; try congruence;
      rewrite ?E, ?Sw, ?Ra, ?Rb; auto.
  - rewrite E, Ra. auto.
  - rewrite Rb, Sw. auto.
  - destruct a, b; try congruence; discriminate.
Qed.

Lemma Math_trunc_not_nan (x : number) : x <> NaN -> Math_trunc x <> NaN.
Proof.
  unfold NaN, Math_trunc. intro H.
  destruct x as [sx|sx| |sx m e]; try exact H.
  destruct (0 <=? e); [exact H | apply binary_normalize_not_nan].
Qed.

Lemma Math_floor_not_nan (x : number) : x <> NaN -> Math_floor x <> NaN.
Proof.
  unfold NaN, Math_floor. intro H.
  destruct x as [sx|sx| |sx m e]; try exact H.
  destruct (0 <=? e); [exact H | apply binary_normalize_not_nan].
Qed.

Lemma derive_range (t : number) :
  t <> NaN ->
  Ops.derive_heartbeat_interval_s t <> NaN
  /\ SFleb (ofZ 1) (Ops.derive_heartbeat_interval_s t) = true
  /\ SFleb (Ops.derive_heartbeat_interval_s t) (ofZ 10) = true.
Proof.
  intro H. unfold Ops.derive_heartbeat_interval_s. cbv zeta.
  assert (Hx : div (div t (ofZ 1000)) (ofZ 2) <> NaN).
  { change (ofZ 2) with (S754_finite false 4503599627370496 (-51)).
    apply div_not_nan.
    change (ofZ 1000) with (S754_finite false 8796093022208000 (-43)).
    now apply div_not_nan. }
  assert (H1 : ofZ 1 <> NaN) by discriminate.
  assert (H10 : ofZ 10 <> NaN) by discriminate.
  destruct (Math_max_bounds (ofZ 1) _ H1 Hx) as (Hh & _).
  destruct (Math_min_bounds (ofZ 10) _ H10 Hh) as (Hm & Hm10 & _).
  destruct (Math_max_bounds (ofZ 1) _ H1 Hm) as (Hr & Hr1 & _ & [E|E]).
  - repeat split; [exact Hr | exact Hr1 | now rewrite E].
  - repeat split; [exact Hr | exact Hr1 | now rewrite E].
Qed.

(** X13: for every number but NaN, [derive_heartbeat_interval_s] lies
    between 1 and 10, [paused_backoff_s] is at least 0.25, and the
    milliseconds of a sleep are at least 1. *)
Theorem intervals_are_clamped (t : number) :
  t <> NaN ->
  (SFleb (ofZ 1) (Ops.derive_heartbeat_interval_s t) = true
   /\ SFleb (Ops.derive_heartbeat_interval_s t) (ofZ 10) = true)
  /\ SFleb (ofDecimal false 25 (-2)) (Ops.paused_backoff_s t) = true
  /\ SFleb (ofZ 1) (Consumer.millis t) = true.
Proof.
  intro H. split; [|split].
  - now destruct (derive_range t H) as (_ & A & B).
  - unfold Ops.paused_backoff_s.
    assert (Hx : mul t (ofZ 10) <> NaN).
    { change (ofZ 10) with (S754_finite false 5629499534213120 (-49)).
      now apply mul_not_nan. }
    assert (Hq : ofDecimal false 25 (-2) <> NaN) by (vm_compute; discriminate).
    now destruct (Math_max_bounds _ _ Hq Hx) as (_ & A & _).
  - unfold Consumer.millis.
    assert (Hx : Math_floor (mul t (ofZ 1000)) <> NaN).
    { apply Math_floor_not_nan.
      change (ofZ 1000) with (S754_finite false 8796093022208000 (-43)).
      now apply mul_not_nan. }
    assert (H1 : ofZ 1 <> NaN) by discriminate.
    now destruct (Math_max_bounds _ _ H1 Hx) as (_ & A & _).
Qed.

Variable r : Env.

(** X14: when the job record has no [timeout_ms] field, [job_timeout_ms]
    returns the truncated default, which is 60000 when none is given, and
    the heartbeat interval derived from 60000 is 10 seconds. *)
Theorem missing_timeout_falls_back
    (q id : string) (d : option number) (w : World) :
  store r (tick w) (Hget (Helper.queueBase q ++ ":job:" ++ id) "timeout_ms")
  = Ok Val.RNil ->
  fst (Ops.job_timeout_ms r q id d w)
  = Done (Ok (Math_trunc (Ops.orDefault d (ofZ 60000))))
  /\ Math_trunc (Ops.orDefault None (ofZ 60000)) = ofZ 60000
  /\ Ops.derive_heartbeat_interval_s (ofZ 60000) = ofZ 10.
Proof.
  intro S. split; [|split; vm_compute; reflexivity].
  unfold Ops.job_timeout_ms, bind, Ops.send. rewrite S. reflexivity.
Qed.

(** X15: whatever the store holds in the [timeout_ms] field of the job,
    the heartbeat interval the runloop derives from the result of
    [job_timeout_ms] lies between 1 and 10 seconds. *)
Theorem derived_heartbeat_interval_in_range
    (q id : string) (w w' : World) (t : number) :
  Ops.job_timeout_ms r q id None w = (Done (Ok t), w') ->
  SFleb (ofZ 1) (Ops.derive_heartbeat_interval_s t) = true
  /\ SFleb (Ops.derive_heartbeat_interval_s t) (ofZ 10) = true.
Proof.
  unfold Ops.job_timeout_ms, bind, Ops.send.
  destruct (store r (tick w) _) as [v|e]; [|discriminate].
  cbv zeta. set (n := Val.Number_ (Some v)). unfold ret. intro E.
  injection E as E _.
  assert (H : t <> NaN).
  { subst t. destruct (isFinite n && gt0 n) eqn:F.
    - apply Math_trunc_not_nan. apply andb_prop in F as [F _].
      intro N. rewrite N in F. discriminate.
    - vm_compute. discriminate. }
  now destruct (derive_range t H) as (_ & A & B).
Qed.

End Intervals.

(* ================================================================== *)
(** * Iterations that run no job *)
(* ================================================================== *)

Section Polling.

Import Val JsNum.

Variable r : Env.
Variable scripts : Scripts.OmniqScripts.
Variable JSON_parse : string -> option JsVal.

Let Trail := grows (fun _ : Event => True).

Lemma trace_emit (w : World) (ev : Event) :
  trace (emit w ev) = (trace w ++ [ev])%list.
Proof. reflexivity. Qed.

Lemma any_step (a b c : World) : Trail a b -> Trail b c -> Trail a c.
Proof. apply grows_trans. Qed.

(** A housekeeping call of the runloop: what it throws is dropped. *)
Lemma housekeeping_settles {A} (name : string) (m : M A) (c : bool)
    (x y : number) (w : World) :
  Settles m -> Respects (opsStep (fun _ => True)) m ->
  let run :=
    (if c
     then (tryCatch (Consumer.called name m ;;; ret tt) (fun _ => ret tt) ;;; ret x)%js
     else ret y) w in
  run = (Done (Ok (if c then x else y)), snd run)
  /\ Trail w (snd run).
Proof.
  intros Hm Gm. destruct c; cbv zeta.
  - unfold bind, tryCatch, Consumer.called.
    pose proof (Hm (emit w (Called name))) as N.
    assert (G : Trail w (snd (m (emit w (Called name))))).
    { apply (grows_trans _ _ (emit w (Called name))); [now apply grows_emit|].
      destruct (Gm (emit w (Called name))) as [G _].
      eapply grows_weaken; [|exact G]. intros; exact I. }
    destruct (m (emit w (Called name))) as [[[a|e]|] w1]; cbn [fst snd] in *;
      try congruence; (split; [reflexivity | assumption]).
  - split; [reflexivity | apply grows_refl].
Qed.

Lemma promote_delayed_settles (q : string) (n now : option number) :
  Settles (Ops.promote_delayed r scripts q n now).
Proof. unfold_ops. settles. Qed.

Lemma reap_expired_settles (q : string) (n now : option number) :
  Settles (Ops.reap_expired r scripts q n now).
Proof. unfold_ops. settles. Qed.

(** The reserve call of the runloop on a store that answers the reserve
    script with [reply]. *)
Lemma reserve_sends (q : string) (reply : Reply) (w : World) :
  (forall n ka,
      store r n (Evalsha (Scripts.sha (Scripts.reserve scripts)) 1 ka) = Ok reply) ->
  Consumer.called "reserve" (Ops.reserve r scripts q None) w
  = (bind (ret reply)
       (fun res =>
          if Ops.shorterThan res 1 then
            throw (Error ("Unexpected RESERVE response: " ++ toStr res))
          else
            let a := Ops.itemsOf res in
            if isString (at_ a 0) "EMPTY" then ret Ops.ReserveNull
            else if isString (at_ a 0) "PAUSED" then ret Ops.ReservePaused
            else if negb (isString (at_ a 0) "JOB") || (List.length a <? 7)%nat then
              throw (Error ("Unexpected RESERVE response: " ++ toJSON res))
            else
              ret (Ops.ReserveJobOf
                     (Ops.mkReserveJob
                        (String_ (at_ a 1)) (String_ (at_ a 2))
                        (ToInt32 (Number_ (at_ a 3)))
                        (ToInt32 (Number_ (at_ a 4)))
                        (StringOr (at_ a 5) EmptyString)
                        (StringOr (at_ a 6) EmptyString))))
       (mkWorld (S (S (tick w)))
          ((trace w ++ [Called "reserve"])
           ++ [Sent (Evalsha (Scripts.sha (Scripts.reserve scripts)) 1
                       [Helper.queueAnchor q;
                        Ops.truncStr (ofZ (clock r (tick w)))])])
          (meanwhile r (S (tick w)) (scriptMutex w)) (hb w))).
Proof.
  intro S. unfold Consumer.called, Ops.reserve.
  unfold bind at 1.
  unfold Ops.orDefault, Ops.nowOr. change (truthy (ofZ 0)) with false. cbv iota.
  unfold Ops.nowMs. cbn [emit tick trace].
  unfold bind at 1.
  unfold Ops.invoke, Ops.evalshaWithNoScriptFallback, tryCatch, Ops.send.
  rewrite S. reflexivity.
Qed.

(** The head of an iteration that is not asked to stop: the clock is read,
    the housekeeping calls are made, and the reserve script is called. *)
Ltac front Hstop Hstore :=
  unfold Consumer.iteration; cbv zeta;
  unfold bind at 1; unfold Consumer.readStop at 1; rewrite Hstop; cbv iota beta;
  unfold bind at 1; unfold Consumer.dateNow at 1; cbv iota beta;
  unfold bind at 1;
  match goal with
  | |- context [match (if ?c then (tryCatch (Consumer.called ?name ?m ;;; ret tt)%js _ ;;; ret ?x)%js
                       else ret ?y) ?w0 with _ => _ end] =>
      let E := fresh "E" in
      let G2 := fresh "G2" in
      destruct (housekeeping_settles name m c x y w0
                  (promote_delayed_settles _ _ _)
                  (promote_delayed_grows r scripts (fun _ => True) _ _ _
                     (fun _ _ => conj I I))) as (E & G2);
      rewrite E; clear E; cbv iota beta;
      unfold bind at 1;
      match goal with
      | |- context [match (if ?c' then (tryCatch (Consumer.called ?name' ?m' ;;; ret tt)%js _ ;;; ret ?x')%js
                           else ret ?y') ?w2 with _ => _ end] =>
          let E' := fresh "E" in
          let G3 := fresh "G3" in
          destruct (housekeeping_settles name' m' c' x' y' w2
                      (reap_expired_settles _ _ _)
                      (reap_expired_grows r scripts (fun _ => True) _ _ _
                         (fun _ _ => conj I I))) as (E' & G3);
          rewrite E'; clear E'; cbv iota beta;
          unfold bind at 1; unfold tryCatch at 1; unfold bind at 1;
          rewrite (reserve_sends _ _ _ Hstore);
          unfold bind at 1; unfold ret at 1; cbv iota beta;
          pose proof (any_step _ _ _ G2 G3)
      end
  end.

(** X16: when the reserve script answers [EMPTY] or [PAUSED], an iteration
    of the runloop that is not asked to stop at its start calls [reserve],
    then sleeps, for the poll interval or for the paused backoff, and
    continues the loop, whoever holds the script mutex; after the reserve
    call it sends nothing and calls no operation: what follows is the sleep,
    and lines handed to the logger at most.  The handler is not run, so the
    iteration is the same for every handler. *)
Theorem idle_poll_sleeps
    (handler handler' : Consumer.JobCtx -> M unit) (args : Consumer.ConsumeArgs)
    (lp lr : number) (paused : bool) (more : list Reply) (w : World) :
  stopFlag r (tick w) = false ->
  (forall n ka,
      store r n (Evalsha (Scripts.sha (Scripts.reserve scripts)) 1 ka)
      = Ok (RArr (RStr (if paused then "PAUSED" else "EMPTY") :: more))) ->
  let poll :=
    Ops.orDefault (Consumer.a_poll_interval_s args) (ofDecimal false 5 (-2)) in
  let ms := Consumer.millis (if paused then Ops.paused_backoff_s poll else poll) in
  let run := Consumer.iteration r scripts JSON_parse handler args lp lr w in
  (exists lp' lr', fst run = Done (Ok (Consumer.Continue lp' lr')))
  /\ (exists pre nms rest,
        trace (snd run)
        = (trace w ++ pre
           ++ [Called "reserve";
               Sent (Evalsha (Scripts.sha (Scripts.reserve scripts)) 1
                       [Helper.queueAnchor (Consumer.a_queue args); nms])]
           ++ rest)%list
        /\ In (Slept ms) rest
        /\ logsAndSleep ms rest)
  /\ Consumer.iteration r scripts JSON_parse handler' args lp lr w = run.
Proof.
  intros Hstop Hstore poll ms run. subst run ms poll.
  eassert (X : forall h,
             Consumer.iteration r scripts JSON_parse h args lp lr w
             = (Done (Ok (Consumer.Continue _ _)),
                emit ?[W] (Slept (Consumer.millis
                  (if paused
                   then Ops.paused_backoff_s
                          (Ops.orDefault (Consumer.a_poll_interval_s args)
                             (ofDecimal false 5 (-2)))
                   else Ops.orDefault (Consumer.a_poll_interval_s args)
                          (ofDecimal false 5 (-2))))))
             /\ exists pre nms,
                 trace ?W
                 = (trace w ++ pre
                    ++ [Called "reserve";
                        Sent (Evalsha (Scripts.sha (Scripts.reserve scripts)) 1
                                [Helper.queueAnchor (Consumer.a_queue args); nms])])%list).
  { intro h. front Hstop Hstore. split.
    - destruct paused;
        cbv beta iota zeta delta
          [Ops.shorterThan Ops.itemsOf at_ isString nth_error List.length Nat.ltb
           Nat.leb String.eqb Ascii.eqb Bool.eqb ret bind Consumer.sleep];
        reflexivity.
    - destruct H as (pre & H & _). cbn [trace withTick] in H.
      exists pre. eexists.
      cbn [trace]. rewrite app_assoc, <- H, <- app_assoc. reflexivity. }
  destruct (X handler) as (E & pre & nms & Tr). destruct (X handler') as (E' & _).
  rewrite E, E'. cbn [fst snd]. split; [now eexists _, _|].
  split; [|reflexivity].
  eexists pre, nms, [_].
  split; [|split].
  - rewrite trace_emit, Tr, <- !app_assoc. reflexivity.
  - now left.
  - constructor; [now right | constructor].
Qed.

Lemma logIf_run (v : bool) (msg : string) (w : World) :
  Consumer.logIf v msg w = (Done (Ok tt), if v then emit w (Logged msg) else w).
Proof. now destruct v. Qed.

(** X17: a job whose lease token is missing or empty is not processed,
    whoever holds the script mutex: an iteration that is not asked to stop
    at its start calls [reserve], then sleeps 200 ms and continues the loop;
    after the reserve call it sends nothing and calls no operation: what
    follows is the sleep and lines handed to the logger, the line that
    reports the missing token among them when verbose, and none when not.
    The handler is not run, so the iteration is the same for every
    handler. *)
Theorem reserve_without_lease_token_is_skipped
    (handler handler' : Consumer.JobCtx -> M unit) (args : Consumer.ConsumeArgs)
    (lp lr : number) (id payload lock attempt gid tok : Reply) (more : list Reply)
    (w : World) :
  stopFlag r (tick w) = false ->
  (forall n ka,
      store r n (Evalsha (Scripts.sha (Scripts.reserve scripts)) 1 ka)
      = Ok (RArr (RStr "JOB" :: id :: payload :: lock :: attempt :: gid :: tok
                    :: more))) ->
  tok = RNil \/ tok = RStr EmptyString ->
  let verbose := Consumer.orFlag (Consumer.a_verbose args) false in
  let run := Consumer.iteration r scripts JSON_parse handler args lp lr w in
  (exists lp' lr', fst run = Done (Ok (Consumer.Continue lp' lr')))
  /\ (exists pre nms rest,
        trace (snd run)
        = (trace w ++ pre
           ++ [Called "reserve";
               Sent (Evalsha (Scripts.sha (Scripts.reserve scripts)) 1
                       [Helper.queueAnchor (Consumer.a_queue args); nms])]
           ++ rest)%list
        /\ In (Slept (ofZ 200)) rest
        /\ logsAndSleep (ofZ 200) rest
        /\ (if verbose
            then In (Logged ("[consume] invalid reserve (missing lease_token) job_id="
                             ++ String_ (Some id))) rest
            else rest = [Slept (ofZ 200)]))
  /\ Consumer.iteration r scripts JSON_parse handler' args lp lr w = run.
Proof.
  intros Hstop Hstore Htok verbose run. subst run verbose.
  assert (Htok' : StringOr (Some tok) EmptyString = EmptyString)
    by now destruct Htok as [->| ->].
  eassert (X : forall h,
             Consumer.iteration r scripts JSON_parse h args lp lr w
             = (Done (Ok (Consumer.Continue _ _)),
                emit (if Consumer.orFlag (Consumer.a_verbose args) false
                      then emit ?[W] (Logged
                             ("[consume] invalid reserve (missing lease_token) job_id="
                              ++ String_ (Some id)))
                      else ?W)
                  (Slept (ofZ 200)))
             /\ exists pre nms,
                 trace ?W
                 = (trace w ++ pre
                    ++ [Called "reserve";
                        Sent (Evalsha (Scripts.sha (Scripts.reserve scripts)) 1
                                [Helper.queueAnchor (Consumer.a_queue args); nms])])%list).
  { intro h. front Hstop Hstore. split.
    - cbv beta iota zeta delta
        [Ops.shorterThan Ops.itemsOf at_ isString nth_error List.length Nat.ltb
         Nat.leb String.eqb Ascii.eqb Bool.eqb ret bind negb orb
         Ops.lease_token Ops.job_id].
      rewrite Htok'. cbv beta iota delta [Js.truthy negb].
      rewrite logIf_run. cbv beta iota delta [Consumer.sleep].
      reflexivity.
    - destruct H as (pre & H & _). cbn [trace withTick] in H.
      exists pre. eexists.
      cbn [trace]. rewrite app_assoc, <- H, <- app_assoc. reflexivity. }
  destruct (X handler) as (E & pre & nms & Tr). destruct (X handler') as (E' & _).
  rewrite E, E'. cbn [fst snd]. split; [now eexists _, _|].
  split; [|reflexivity].
  exists pre, nms.
  rewrite trace_emit.
  destruct (Consumer.orFlag (Consumer.a_verbose args) false).
  - eexists [_; _].
    split; [rewrite trace_emit, Tr, <- !app_assoc; reflexivity|].
    split; [right; now left|].
    split; [|now left].
    constructor; [left; now eexists|].
    constructor; [now right | constructor].
  - eexists [_].
    split; [rewrite Tr, <- !app_assoc; reflexivity|].
    split; [now left|].
    split; [|reflexivity].
    constructor; [now right | constructor].
Qed.

End Polling.

(* ================================================================== *)
(** * src/transport.ts: the cluster probe *)
(* ================================================================== *)

Section ClusterProbe.

Import Transport.

Lemma toLowerCase_app (a b : string) :
  Js.toLowerCase (a ++ b) = Js.toLowerCase a ++ Js.toLowerCase b.
Proof.
  induction a as [|c a IH]; cbn; [reflexivity | now rewrite IH].
Qed.

Lemma toLowerCase_split (s a b : string) :
  Js.toLowerCase s = a ++ b ->
  exists a' b', s = a' ++ b' /\ Js.toLowerCase a' = a /\ Js.toLowerCase b' = b.
Proof.
  revert s. induction a as [|c a IH]; intros s H.
  - exists EmptyString, s. now repeat split.
  - destruct s as [|d s]; [discriminate|]. cbn in H. injection H as Hc H.
    destruct (IH s H) as (a' & b' & -> & Ha & Hb).
    exists (String d a'), b'. cbn. now rewrite Hc, Ha.
Qed.

Lemma includes_lower (s pat : string) :
  Js.includes (Js.toLowerCase s) pat = true
  <-> exists pre mid post, s = pre ++ mid ++ post /\ Js.toLowerCase mid = pat.
Proof.
  rewrite includes_spec. split.
  - intros (a & b & H).
    apply toLowerCase_split in H as (pre & rest & -> & _ & H).
    apply toLowerCase_split in H as (mid & post & -> & H & _).
    now exists pre, mid, post.
  - intros (pre & mid & post & -> & H).
    exists (Js.toLowerCase pre), (Js.toLowerCase post).
    now rewrite !toLowerCase_app, H.
Qed.

Lemma includes_trans (s a b : string) :
  Js.includes s a = true -> Js.includes a b = true -> Js.includes s b = true.
Proof.
  rewrite !includes_spec. intros (p & q & ->) (p' & q' & ->).
  exists (p ++ p'), (q' ++ q). now rewrite !append_assoc.
Qed.

Lemma looksLikeClusterError_spec (e : Thrown) :
  looksLikeClusterError e = true <-> clusterRefusal e.
Proof.
  unfold looksLikeClusterError, clusterRefusal, mentions. cbv zeta.
  rewrite <- !includes_lower.
  set (msg := Js.toLowerCase (textOf e)).
  rewrite !orb_true_iff, andb_true_iff.
  split.
  - intros [[[[[[H|H]|H]|H]|H]|H]|H]; auto 7.
    left. eapply includes_trans; [exact H | reflexivity].
  - intros [H|[H|[H|[H|[H|H]]]]]; auto 8.
Qed.

(** X19: in cluster mode with a host or a cluster node, a failed [ping]
    whose text, the case of the letters ignored, has one of the listed
    parts (among them moved and ask, anywhere in the text) makes
    [buildRedisClient] quit the cluster client and return a standalone
    client on [host] and [port]; any other failure is thrown again and the
    cluster client is not quit. *)
Theorem cluster_probe_falls_back_to_standalone
    (ping quit : Outcome unit) (opts : RedisConnOpts) (e : Thrown) :
  cluster opts = Some true ->
  addressGiven opts = true ->
  ping = Done (Throw e) ->
  (clusterRefusal e ->
   quit <> Pending ->
   buildRedisClient ping quit opts
   = (Done (Ok (HostClient (host opts)
                  (Ops.orDefault (port opts) (JsNum.ofZ 6379))
                  (Ops.orDefault (db opts) (JsNum.ofZ 0))
                  (username opts) (password opts)
                  (Consumer.orFlag (ssl opts) false)
                  (socket_connect_timeout_ms opts) (socket_timeout_ms opts))),
      [Ping; Quit]))
  /\ (~ clusterRefusal e ->
      buildRedisClient ping quit opts = (Done (Throw e), [Ping])).
Proof.
  intros C A P. unfold buildRedisClient. rewrite C, P. cbn [Consumer.orFlag negb].
  rewrite andb_false_r.
  assert (A' : negb (given (host opts))
               && (List.length match cluster_nodes opts with
                               | Some l => l
                               | None => []
                               end =? 0)%nat = false).
  { unfold addressGiven in A. destruct (given (host opts)); [reflexivity|].
    destruct (cluster_nodes opts) as [[|n l]|]; try discriminate. reflexivity. }
  cbv zeta. rewrite A'.
  pose proof (looksLikeClusterError_spec e) as L.
  split.
  - intros R Q. apply L in R. rewrite R. cbn [negb].
    destruct quit as [q|]; [reflexivity | congruence].
  - intro R. destruct (looksLikeClusterError e); [now destruct R; apply L|].
    reflexivity.
Qed.

(** X20: with a [redis_url] and neither a host nor a cluster node,
    [buildRedisClient] connects by the URL only when [cluster] is off; in
    cluster mode the URL is not looked at and the call throws for the
    missing host, before any connection is made. *)
Theorem cluster_mode_needs_a_host_besides_the_url
    (ping quit : Outcome unit) (opts : RedisConnOpts) (url : string) :
  redis_url opts = Some url ->
  Js.truthy url = true ->
  addressGiven opts = false ->
  buildRedisClient ping quit opts
  = if Consumer.orFlag (cluster opts) false
    then (Done (Throw (Error "RedisConnOpts requires host (or redis_url / cluster_nodes)")),
          [])
    else (Done (Ok (UrlClient url (socket_connect_timeout_ms opts)
                      (socket_timeout_ms opts))), []).
Proof.
  intros U V A. unfold buildRedisClient. rewrite U. cbn [given]. rewrite V.
  destruct (Consumer.orFlag (cluster opts) false); cbn [negb andb]; [|reflexivity].
  unfold addressGiven in A. apply orb_false_iff in A as [-> A].
  destruct (cluster_nodes opts) as [[|n l]|]; try discriminate; reflexivity.
Qed.

End ClusterProbe.

(* ================================================================== *)
(** * src/scripts.ts: where the scripts are *)
(* ================================================================== *)

Section ScriptLocation.

Import ScriptFiles.

Variable h : Host.

Lemma findFrom_found (steps : nat) (cur root : string) :
  findFrom h steps cur = Some root ->
  exists k,
    (k < steps)%nat
    /\ root = ancestor h k cur
    /\ hasPackageJson h root = true
    /\ forall j, (j < k)%nat -> hasPackageJson h (ancestor h j cur) = false.
Proof.
  revert cur. induction steps as [|n IH]; intros cur H; [discriminate|].
  cbn [findFrom] in H. fold (hasPackageJson h cur) in H.
  destruct (hasPackageJson h cur) eqn:E.
  - injection H as <-. exists O. repeat split; [lia | exact E|]. intros j Hj. lia.
  - destruct (String.eqb (pathDirname h cur) cur); [discriminate|].
    destruct (IH _ H) as (k & Hk & -> & Hp & Hn).
    exists (S k). unfold ancestor in *. rewrite Nat.iter_succ_r.
    repeat split; [lia | exact Hp|].
    intros [|j] Hj; [exact E|]. rewrite Nat.iter_succ_r. apply Hn. lia.
Qed.

Lemma findFrom_missing (steps : nat) (cur : string) :
  findFrom h steps cur = None ->
  forall k,
    (k < steps)%nat ->
    (forall j, (j < k)%nat -> ancestor h (S j) cur <> ancestor h j cur) ->
    hasPackageJson h (ancestor h k cur) = false.
Proof.
  revert cur. induction steps as [|n IH]; intros cur H k Hk Hd; [lia|].
  cbn [findFrom] in H. fold (hasPackageJson h cur) in H.
  destruct (hasPackageJson h cur) eqn:E; [discriminate|].
  destruct k as [|k]; [exact E|].
  destruct (String.eqb (pathDirname h cur) cur) eqn:P.
  - apply String.eqb_eq in P. exfalso. apply (Hd O); [lia|]. exact P.
  - unfold ancestor in *. rewrite Nat.iter_succ_r. apply (IH _ H); [lia|].
    intros j Hj. rewrite <- !Nat.iter_succ_r.
    apply (Hd (S j)). lia.
Qed.

(** X21: [findPackageRoot] returns the nearest directory, among the start
    and its first 24 ancestors, that holds a [package.json]; when it throws,
    none of them does, as far up as the parent of a directory differs from
    it. *)
Theorem findPackageRoot_finds_the_nearest (fromDir : string) :
  match findPackageRoot h fromDir with
  | Ok root =>
      exists k,
        (k < 25)%nat
        /\ root = ancestor h k fromDir
        /\ hasPackageJson h root = true
        /\ forall j, (j < k)%nat -> hasPackageJson h (ancestor h j fromDir) = false
  | Throw _ =>
      forall k,
        (k < 25)%nat ->
        (forall j, (j < k)%nat -> ancestor h (S j) fromDir <> ancestor h j fromDir) ->
        hasPackageJson h (ancestor h k fromDir) = false
  end.
Proof.
  unfold findPackageRoot.
  destruct (findFrom h 25 fromDir) as [root|] eqn:E.
  - now apply findFrom_found.
  - now apply findFrom_missing.
Qed.

(** X22: a directory returned by [defaultScriptsDir] holds [enqueue.lua];
    it is the resolved value of [OMNIQ_SCRIPTS_DIR] when that is set and
    not blank, and [dist/core/scripts] under the package root otherwise. *)
Theorem defaultScriptsDir_holds_enqueue (dir : string) :
  defaultScriptsDir h = Ok dir ->
  hasEnqueue h dir = true
  /\ match envScriptsDir h with
     | Some env =>
         if blank env
         then exists root,
             findPackageRoot h (moduleDir h) = Ok root
             /\ dir = pathJoin h [root; "dist"; "core"; "scripts"]
         else dir = pathResolve h (Js.trim env)
     | None =>
         exists root,
           findPackageRoot h (moduleDir h) = Ok root
           /\ dir = pathJoin h [root; "dist"; "core"; "scripts"]
     end.
Proof.
  unfold defaultScriptsDir, hasEnqueue.
  assert (B : forall env, (0 <? String.length (Js.trim env))%nat = negb (blank env)).
  { intro env. rewrite <- trim_eqb_blank. now destruct (Js.trim env). }
  assert (D : (match findPackageRoot h (moduleDir h) with
               | Ok root =>
                   if negb (existsSync h (pathJoin h
                              [pathJoin h [root; "dist"; "core"; "scripts"];
                               "enqueue.lua"]))
                   then Throw (Error EmptyString)
                   else Ok (pathJoin h [root; "dist"; "core"; "scripts"])
               | Throw e => Throw e
               end = Ok dir) ->
              existsSync h (pathJoin h [dir; "enqueue.lua"]) = true
              /\ exists root,
                  findPackageRoot h (moduleDir h) = Ok root
                  /\ dir = pathJoin h [root; "dist"; "core"; "scripts"]).
  { destruct (findPackageRoot h (moduleDir h)) as [root|e]; [|discriminate].
    destruct (existsSync h _) eqn:E; cbn [negb]; [|discriminate].
    intro H. injection H as <-. split; [exact E | now exists root]. }
  destruct (envScriptsDir h) as [env|].
  - rewrite B. destruct (blank env); cbn [negb].
    + intro H. apply D.
      destruct (findPackageRoot h (moduleDir h)) as [root|e]; [|discriminate].
      destruct (existsSync h _); cbn [negb] in *; [exact H | discriminate].
    + destruct (existsSync h (pathJoin h [pathResolve h (Js.trim env); "enqueue.lua"]))
        eqn:E; cbn [negb]; [|discriminate].
      intro H. injection H as <-. now split.
  - intro H. apply D.
    destruct (findPackageRoot h (moduleDir h)) as [root|e]; [|discriminate].
    destruct (existsSync h _); cbn [negb] in *; [exact H | discriminate].
Qed.

End ScriptLocation.

Section ScriptLoading.

Import ScriptFiles.

Variable h : Host.

Lemma loadScripts_loaded (dir : string) (scripts : Scripts.OmniqScripts) :
  loadedFrom h dir 0 (scriptFiles scripts) ->
  loadScripts h dir (O, [])
  = (Done (Ok scripts), (15%nat, loadSteps h dir (scriptFiles scripts))).
Proof.
  destruct scripts. cbn [scriptFiles loadedFrom Scripts.enqueue Scripts.reserve
    Scripts.ack_success Scripts.ack_fail Scripts.promote_delayed
    Scripts.reap_expired Scripts.heartbeat Scripts.pause Scripts.resume
    Scripts.retry_failed Scripts.retry_failed_batch Scripts.remove_job
    Scripts.remove_jobs_batch Scripts.childs_init Scripts.child_ack].
  intro H. unfold loadScripts.
  repeat match type of H with
         | _ /\ _ /\ _ =>
             let R := fresh "R" in let Ld := fresh "Ld" in
             destruct H as (R & Ld & H);
             unfold lbind at 1; unfold loadOne at 1; cbn [fst snd];
             rewrite R, Ld
         end.
  repeat match goal with d : Scripts.ScriptDef |- _ => destruct d end.
  reflexivity.
Qed.

Lemma loadScripts_success (dir : string) (scripts : Scripts.OmniqScripts) :
  fst (loadScripts h dir (O, [])) = Done (Ok scripts) ->
  loadedFrom h dir 0 (scriptFiles scripts).
Proof.
  unfold loadScripts.
  do 15 (unfold lbind at 1; unfold loadOne at 1; cbn [fst snd];
         match goal with
         | |- context [readFileSync h ?p] =>
             let R := fresh "R" in
             destruct (readFileSync h p) as [?src|?e] eqn:R;
             [|cbn [fst]; discriminate]
         end;
         match goal with
         | |- context [scriptLoad h ?i ?s] =>
             let Ld := fresh "Ld" in
             destruct (scriptLoad h i s) as [[?sha|?e]|] eqn:Ld;
             [|cbn [fst]; discriminate|cbn [fst]; discriminate]
         end).
  unfold lret. cbn [fst]. intro E. injection E as <-.
  cbn. repeat split; assumption.
Qed.

(** X23: [loadScripts] returns a bundle exactly when each of the 15 files
    can be read and loaded in turn, and then every script of the bundle has
    the text of the file of its own name and the digest the store gave for
    that text; the files are read and loaded one after the other in the
    order of the bundle. *)
Theorem loadScripts_takes_each_script_from_its_file
    (dir : string) (scripts : Scripts.OmniqScripts) :
  (fst (loadScripts h dir (O, [])) = Done (Ok scripts)
   <-> loadedFrom h dir 0 (scriptFiles scripts))
  /\ (loadedFrom h dir 0 (scriptFiles scripts) ->
      snd (loadScripts h dir (O, []))
      = (15%nat, loadSteps h dir (scriptFiles scripts))).
Proof.
  split; [split|].
  - apply loadScripts_success.
  - intro H. now rewrite (loadScripts_loaded dir scripts H).
  - intro H. now rewrite (loadScripts_loaded dir scripts H).
Qed.

End ScriptLoading.

(* ================================================================== *)
(** * src/client.ts *)
(* ================================================================== *)

Section ClientFacade.

Variable r : Env.
Variable scripts : Scripts.OmniqScripts.
Variable JSON_parse : string -> option Val.JsVal.
Variable handler : Consumer.JobCtx -> M unit.

(** X24: [OmniqClient.consume] fills in the same defaults as the runloop,
    so a call through the client behaves as the call of [consume] with the
    same arguments. *)
Theorem client_consume_defaults_agree
    (fuel : nat) (args : Consumer.ConsumeArgs) (w : World) :
  Client.consume r scripts JSON_parse handler fuel args w
  = Consumer.consume r scripts JSON_parse handler fuel args w.
Proof.
  unfold Client.consume. cbv zeta.
  set (filled := Consumer.mkConsumeArgs _ _ _ _ _ _ _ _ _ _).
  assert (I : forall lp lr,
             Consumer.iteration r scripts JSON_parse handler filled lp lr
             = Consumer.iteration r scripts JSON_parse handler args lp lr)
    by reflexivity.
  assert (L : forall n lp lr w0,
             Consumer.loop r scripts JSON_parse handler n filled lp lr w0
             = Consumer.loop r scripts JSON_parse handler n args lp lr w0).
  { induction n as [|n IH]; intros lp lr w0; cbn [Consumer.loop]; [reflexivity|].
    unfold bind. rewrite I.
    destruct (Consumer.iteration r scripts JSON_parse handler args lp lr w0)
      as [[[[lp' lr'|]|e]|] w1]; try reflexivity.
    apply IH. }
  unfold Consumer.consume. rewrite L. reflexivity.
Qed.

(** X25: when [OmniqClient.create] returns, the connection is the one
    supplied, with no probe made, or the one [buildRedisClient] built; the
    scripts directory is the one supplied or the default one; and every
    script of the client was loaded from the file of its name in that
    directory. *)
Theorem create_returns_loaded_scripts
    (h : ScriptFiles.Host) (ping quit : Outcome unit) (opts : Client.ClientOpts)
    (c : Transport.RedisLike) (loaded : Scripts.OmniqScripts)
    (probes : list Transport.Probe) (steps : list ScriptFiles.Step) :
  Client.create h ping quit opts = (Done (Ok (c, loaded)), (probes, steps)) ->
  match Client.redis opts with
  | Some given => c = given /\ probes = []
  | None =>
      Transport.buildRedisClient ping quit (Client.conn opts) = (Done (Ok c), probes)
  end
  /\ exists dir,
      match Client.scriptsDir opts with
      | Some d => dir = d
      | None => ScriptFiles.defaultScriptsDir h = Ok dir
      end
      /\ loadedFrom h dir 0 (scriptFiles loaded)
      /\ steps = loadSteps h dir (scriptFiles loaded).
Proof.
  unfold Client.create.
  set (built := match Client.redis opts with
                | Some c0 => (Done (Ok c0), [])
                | None => Transport.buildRedisClient ping quit (Client.conn opts)
                end).
  assert (B : forall c1 p1, built = (Done (Ok c1), p1) ->
              match Client.redis opts with
              | Some given => c1 = given /\ p1 = []
              | None =>
                  Transport.buildRedisClient ping quit (Client.conn opts)
                  = (Done (Ok c1), p1)
              end).
  { subst built. intros c1 p1. destruct (Client.redis opts) as [c0|].
    - intro E. injection E as <- <-. now split.
    - trivial. }
  destruct built as [[[c1|e]|] p1]; try discriminate.
  specialize (B c1 p1 eq_refl).
  set (located := match Client.scriptsDir opts with
                  | Some d => Ok d
                  | None => ScriptFiles.defaultScriptsDir h
                  end).
  assert (D : forall dir, located = Ok dir ->
              match Client.scriptsDir opts with
              | Some d => dir = d
              | None => ScriptFiles.defaultScriptsDir h = Ok dir
              end).
  { subst located. intro dir. destruct (Client.scriptsDir opts) as [d|].
    - intro E. now injection E as <-.
    - trivial. }
  destruct located as [dir|e]; [|discriminate].
  specialize (D dir eq_refl).
  destruct (ScriptFiles.loadScripts h dir (O, [])) as [[[s|e]|] [n st]] eqn:L;
    try discriminate.
  intro E. injection E as <- <- <- <-.
  split; [exact B|]. exists dir. split; [exact D|].
  assert (S : loadedFrom h dir 0 (scriptFiles s)).
  { apply loadScripts_success. now rewrite L. }
  split; [exact S|].
  rewrite (loadScripts_loaded h dir s S) in L. now injection L.
Qed.

End ClientFacade.

(* ================================================================== *)
(** * Replies that report an error *)
(* ================================================================== *)

Section ScriptErrors.

Import Val JsNum.

Variable r : Env.
Variable scripts : Scripts.OmniqScripts.

Ltac run_on Hs :=
  unfold bind at 1;
  match goal with
  | |- context [Ops.nowOr r (Ops.orDefault ?now (ofZ 0)) ?w] =>
      let v := fresh "v" in let w1 := fresh "w" in
      destruct (nowOr_trace r (Ops.orDefault now (ofZ 0)) w) as (v & w1 & -> & _)
  end;
  unfold bind, Ops.invoke, Ops.evalshaWithNoScriptFallback, tryCatch, Ops.send;
  rewrite Hs; reflexivity.

(** X26: on a reply [ERR] with a reason, [heartbeat], [ack_success],
    [ack_fail], [retry_failed], [remove_job] and [childs_init] throw an
    error whose message is the name of the operation, the word failed and
    the reason; [publish] throws [ENQUEUE failed: ERR] and the reason is
    not part of its message. *)
Theorem script_errors_surface_with_their_reason
    (reason : string) (lease : Ops.LeaseArgs) (fail : Ops.AckFailArgs)
    (pub : Ops.PublishArgs) (q id lane key : string) (now : option number)
    (expected : number) (anchor : string) (w : World) :
  (forall n c, store r n c = Ok (RArr [RStr "ERR"; RStr reason])) ->
  fst (Ops.heartbeat r scripts lease w)
  = Done (Throw (Error ("HEARTBEAT failed: " ++ reason)))
  /\ fst (Ops.ack_success r scripts lease w)
     = Done (Throw (Error ("ACK_SUCCESS failed: " ++ reason)))
  /\ fst (Ops.ack_fail r scripts fail w)
     = Done (Throw (Error ("ACK_FAIL failed: " ++ reason)))
  /\ fst (Ops.retry_failed r scripts q id now w)
     = Done (Throw (Error ("RETRY_FAILED failed: " ++ reason)))
  /\ fst (Ops.remove_job r scripts q id lane w)
     = Done (Throw (Error ("REMOVE_JOB failed: " ++ reason)))
  /\ (Helper.childsAnchor key = Ok anchor ->
      fst (Ops.childs_init r scripts key expected w)
      = Done (Throw (Error ("CHILDS_INIT failed: " ++ reason))))
  /\ (isObjectNotArray (Ops.p_payload pub) || isArrayVal (Ops.p_payload pub) = true ->
      fst (Ops.publish r scripts pub w) = Done (Throw (Error "ENQUEUE failed: ERR"))).
Proof.
  intro Hs. repeat split.
  - unfold Ops.heartbeat. run_on Hs.
  - unfold Ops.ack_success. run_on Hs.
  - unfold Ops.ack_fail. unfold bind at 1.
    destruct (nowOr_trace r (Ops.orDefault (Ops.f_now_ms_override fail) (ofZ 0)) w)
      as (v & w1 & -> & _).
    destruct (Ops.f_error fail) as [e|]; [destruct (String.eqb (Js.trim e) EmptyString)|];
      unfold bind, Ops.invoke, Ops.evalshaWithNoScriptFallback, tryCatch, Ops.send;
      rewrite Hs; reflexivity.
  - unfold Ops.retry_failed. run_on Hs.
  - unfold Ops.remove_job.
    unfold bind, Ops.invoke, Ops.evalshaWithNoScriptFallback, tryCatch, Ops.send.
    rewrite Hs. reflexivity.
  - intro A. unfold Ops.childs_init. rewrite A.
    unfold bind, Ops.liftRes, Ops.invoke, Ops.evalshaWithNoScriptFallback,
      tryCatch, Ops.send.
    rewrite Hs. reflexivity.
  - intro P. unfold Ops.publish.
    replace (negb (isObjectNotArray (Ops.p_payload pub))
             && negb (isArrayVal (Ops.p_payload pub))) with false
      by (rewrite <- negb_orb, P; reflexivity).
    cbv zeta. unfold bind at 1.
    destruct (nowOr_trace r (Ops.orDefault (Ops.p_now_ms_override pub) (ofZ 0)) w)
      as (v & w1 & -> & _).
    unfold bind at 1.
    destruct (Ops.p_job_id pub) as [j|]; [destruct (Js.truthy j)|];
      unfold ret, Ops.newUlid, bind, Ops.invoke, Ops.evalshaWithNoScriptFallback,
        tryCatch, Ops.send;
      rewrite Hs; reflexivity.
Qed.

(** X27: [publish] sends the job id it was given, and a fresh ULID when
    the id is missing or empty; the time argument is the override when one
    is given and is not zero, and the clock otherwise. *)
Theorem publish_sends_the_given_id_or_a_ulid (args : Ops.PublishArgs) (w : World) :
  isObjectNotArray (Ops.p_payload args) || isArrayVal (Ops.p_payload args) = true ->
  exists rest,
    trace (after (Ops.publish r scripts args) w)
    = (trace w
       ++ Sent (Evalsha (Scripts.sha (Scripts.enqueue scripts)) 1
                  [Helper.queueAnchor (Ops.p_queue args);
                   idArg r (Ops.p_job_id args)
                     (afterTime (Ops.p_now_ms_override args) (tick w));
                   JSON_stringify (Ops.p_payload args);
                   Ops.truncStr (Ops.orDefault (Ops.p_max_attempts args) (ofZ 3));
                   Ops.truncStr (Ops.orDefault (Ops.p_timeout_ms args) (ofZ 30000));
                   Ops.truncStr (Ops.orDefault (Ops.p_backoff_ms args) (ofZ 5000));
                   Ops.truncStr (timeArg r (Ops.p_now_ms_override args) (tick w));
                   Ops.truncStr (Ops.orDefault (Ops.p_due_ms args) (ofZ 0));
                   Js.trim (match Ops.p_gid args with
                            | Some g => g
                            | None => EmptyString
                            end);
                   (if truthy (Ops.orDefault (Ops.p_group_limit args) (ofZ 0))
                       && gt0 (Ops.orDefault (Ops.p_group_limit args) (ofZ 0))
                    then Ops.truncStr (Ops.orDefault (Ops.p_group_limit args) (ofZ 0))
                    else "0")])
          :: rest)%list.
Proof.
  intros Hp. unfold after, Ops.publish.
  replace (negb (isObjectNotArray (Ops.p_payload args))
           && negb (isArrayVal (Ops.p_payload args))) with false
    by (rewrite <- negb_orb, Hp; reflexivity).
  cbv zeta. unfold bind at 1.
  assert (N : exists w1,
             Ops.nowOr r (Ops.orDefault (Ops.p_now_ms_override args) (ofZ 0)) w
             = (Done (Ok (timeArg r (Ops.p_now_ms_override args) (tick w))), w1)
             /\ trace w1 = trace w
             /\ tick w1 = afterTime (Ops.p_now_ms_override args) (tick w)).
  { unfold Ops.nowOr, timeArg, afterTime, Ops.orDefault.
    destruct (Ops.p_now_ms_override args) as [x|].
    - destruct (truthy x); eexists; (split; [reflexivity | now split]).
    - change (truthy (ofZ 0)) with false. cbv iota.
      eexists; (split; [reflexivity | now split]). }
  destruct N as (w1 & -> & Ht1 & Hk1).
  unfold bind at 1.
  assert (J : exists w2,
             match Ops.p_job_id args with
             | Some j => if Js.truthy j then ret j else Ops.newUlid r
             | None => Ops.newUlid r
             end w1
             = (Done (Ok (idArg r (Ops.p_job_id args)
                            (afterTime (Ops.p_now_ms_override args) (tick w)))), w2)
             /\ trace w2 = trace w1).
  { unfold idArg. rewrite <- Hk1.
    destruct (Ops.p_job_id args) as [j|]; [destruct (Js.truthy j)|];
      eexists; (split; [reflexivity | reflexivity]). }
  destruct J as (w2 & -> & Ht2).
  unfold bind, Ops.invoke.
  match goal with
  | |- context [Ops.evalshaWithNoScriptFallback r ?a ?b ?c ?d w2] =>
      destruct (fallback_sends_evalsha r a b c d w2) as [rest Hr];
      unfold after in Hr;
      destruct (Ops.evalshaWithNoScriptFallback r a b c d w2)
        as [[[res|e]|] w3]
  end; cbn [snd] in Hr |- *; rewrite <- Ht1, <- Ht2.
  - exists rest. rewrite <- Hr.
    destruct (Ops.shorterThan res 2); [reflexivity|].
    destruct (negb _); reflexivity.
  - now exists rest.
  - now exists rest.
Qed.

End ScriptErrors.

(** ** Witnesses *)

Lemma batch_reply_round_trip_witness :
  forallb rowWritten
    [("job1", "OK", None); ("job2", "ERR", Some "NOT_FAILED")] = true
  /\ Ops.batchRows
       [Val.RStr "job1"; Val.RStr "OK"; Val.RStr "job2"; Val.RStr "ERR";
        Val.RStr "NOT_FAILED"]
     = [("job1", "OK", None); ("job2", "ERR", Some "NOT_FAILED")].
Proof.
  split; [reflexivity|].
  apply (batch_reply_round_trip
           [("job1", "OK", None); ("job2", "ERR", Some "NOT_FAILED")]).
  reflexivity.
Defined.

Lemma batch_operations_return_the_rows_witness :
  let rows := [("job1", "OK", None); ("job2", "ERR", Some "NOT_FAILED")] in
  let r := Sample.answering (Ok (Val.RArr (batchReply rows))) in
  fst (Ops.retry_failed_batch r Sample.scripts "demo" ["job1"; "job2"] None
         initialWorld)
  = Done (Ok rows)
  /\ fst (Ops.remove_jobs_batch r Sample.scripts "demo" "failed" ["job1"; "job2"]
            initialWorld)
     = Done (Ok rows).
Proof.
  cbv zeta.
  apply (batch_operations_return_the_rows
           (Sample.answering
              (Ok (Val.RArr (batchReply
                     [("job1", "OK", None); ("job2", "ERR", Some "NOT_FAILED")]))))
           Sample.scripts "demo" "failed" ["job1"; "job2"] None
           [("job1", "OK", None); ("job2", "ERR", Some "NOT_FAILED")] initialWorld).
  - intros n c. reflexivity.
  - cbn. lia.
  - reflexivity.
  - reflexivity.
Defined.

Lemma first_heartbeat_error_decides_witness :
  hb (Consumer.hbStep Sample.leaseGone Sample.scripts
        (Consumer.leaseOf "demo" Sample.job) (JsNum.ofZ 2) FirstSettles
        (after Consumer.startHeartbeater initialWorld))
  = mkHb true true None false 0 [Throw (Error "HEARTBEAT failed: NOT_ACTIVE")].
Proof.
  apply (first_heartbeat_error_decides Sample.leaseGone Sample.scripts
           (Consumer.leaseOf "demo" Sample.job) (JsNum.ofZ 2) "NOT_ACTIVE"
           (after Consumer.startHeartbeater initialWorld)).
  - intros n c. reflexivity.
  - reflexivity.
Defined.

Lemma job_end_leaves_the_heartbeater_off_witness :
  (forall c w, hb (snd (Sample.quietHandler c w)) = hb w)
  /\ hbOff (hb (after (Consumer.runJob Sample.badState Sample.scripts
                         Sample.quietHandler true "demo" Sample.job Sample.ctx
                         (JsNum.ofZ 2))
                  (after Consumer.startHeartbeater initialWorld))).
Proof.
  split; [reflexivity|].
  apply (job_end_leaves_the_heartbeater_off Sample.badState Sample.scripts
           Sample.quietHandler true "demo" Sample.job Sample.ctx (JsNum.ofZ 2)
           initialWorld).
  - reflexivity.
  - discriminate.
Defined.

Lemma intervals_are_clamped_witness :
  JsNum.ofZ 4000 <> JsNum.NaN
  /\ SFleb (JsNum.ofZ 1) (Ops.derive_heartbeat_interval_s (JsNum.ofZ 4000)) = true
  /\ SFleb (Ops.derive_heartbeat_interval_s (JsNum.ofZ 4000)) (JsNum.ofZ 10) = true.
Proof.
  split; [discriminate|].
  apply (intervals_are_clamped (JsNum.ofZ 4000)). discriminate.
Defined.

Lemma missing_timeout_falls_back_witness :
  fst (Ops.job_timeout_ms (Sample.answering (Ok Val.RNil)) "demo" "job1" None
         initialWorld)
  = Done (Ok (JsNum.Math_trunc (Ops.orDefault None (JsNum.ofZ 60000)))).
Proof.
  apply (missing_timeout_falls_back (Sample.answering (Ok Val.RNil)) "demo" "job1"
           None initialWorld).
  reflexivity.
Defined.

Lemma derived_heartbeat_interval_in_range_witness :
  Ops.job_timeout_ms (Sample.answering (Ok (Val.RStr "4000"))) "demo" "job1" None
    initialWorld
  = (Done (Ok (JsNum.ofZ 4000)),
     mkWorld 1 [Sent (Hget "{demo}:job:job1" "timeout_ms")] (mkMutex false 0) idleHb)
  /\ SFleb (JsNum.ofZ 1) (Ops.derive_heartbeat_interval_s (JsNum.ofZ 4000)) = true
  /\ SFleb (Ops.derive_heartbeat_interval_s (JsNum.ofZ 4000)) (JsNum.ofZ 10) = true.
Proof.
  assert (E : Ops.job_timeout_ms (Sample.answering (Ok (Val.RStr "4000"))) "demo"
                "job1" None initialWorld
              = (Done (Ok (JsNum.ofZ 4000)),
                 mkWorld 1 [Sent (Hget "{demo}:job:job1" "timeout_ms")]
                   (mkMutex false 0) idleHb))
    by (vm_compute; reflexivity).
  split; [exact E|].
  exact (derived_heartbeat_interval_in_range
           (Sample.answering (Ok (Val.RStr "4000"))) "demo" "job1" initialWorld _ _ E).
Defined.

Lemma idle_poll_sleeps_witness :
  let run :=
    Consumer.iteration (Sample.answering (Ok (Val.RArr [Val.RStr "EMPTY"])))
      Sample.scripts (fun _ => None) Sample.quietHandler
      (Consumer.mkConsumeArgs "demo" None None None None None None None None None)
      (JsNum.ofZ 0) (JsNum.ofZ 0) initialWorld in
  let ms := Consumer.millis (JsNum.ofDecimal false 5 (-2)) in
  (exists lp' lr', fst run = Done (Ok (Consumer.Continue lp' lr')))
  /\ (exists pre nms rest,
        trace (snd run)
        = (trace initialWorld ++ pre
           ++ [Called "reserve";
               Sent (Evalsha "sha:reserve" 1 ["{demo}:meta"; nms])]
           ++ rest)%list
        /\ In (Slept ms) rest
        /\ logsAndSleep ms rest).
Proof.
  cbv zeta.
  destruct (idle_poll_sleeps (Sample.answering (Ok (Val.RArr [Val.RStr "EMPTY"])))
              Sample.scripts (fun _ => None) Sample.quietHandler Sample.quietHandler
              (Consumer.mkConsumeArgs "demo" None None None None None None None
                 None None)
              (JsNum.ofZ 0) (JsNum.ofZ 0) false [] initialWorld)
    as (A & B & _).
  - reflexivity.
  - intros n ka. reflexivity.
  - split; [exact A | exact B].
Defined.

Lemma reserve_without_lease_token_is_skipped_witness :
  let reply :=
    Val.RArr [Val.RStr "JOB"; Val.RStr "job1"; Val.RStr "{}"; Val.RInt 5000;
              Val.RInt 0; Val.RNil; Val.RNil] in
  let run :=
    Consumer.iteration (Sample.answering (Ok reply))
      Sample.scripts (fun _ => None) Sample.quietHandler
      (Consumer.mkConsumeArgs "demo" None None None None None None (Some true)
         None None)
      (JsNum.ofZ 0) (JsNum.ofZ 0) initialWorld in
  (exists lp' lr', fst run = Done (Ok (Consumer.Continue lp' lr')))
  /\ (exists pre nms rest,
        trace (snd run)
        = (trace initialWorld ++ pre
           ++ [Called "reserve";
               Sent (Evalsha "sha:reserve" 1 ["{demo}:meta"; nms])]
           ++ rest)%list
        /\ In (Slept (JsNum.ofZ 200)) rest
        /\ logsAndSleep (JsNum.ofZ 200) rest
        /\ In (Logged "[consume] invalid reserve (missing lease_token) job_id=job1")
              rest).
Proof.
  cbv zeta.
  destruct (reserve_without_lease_token_is_skipped
              (Sample.answering
                 (Ok (Val.RArr [Val.RStr "JOB"; Val.RStr "job1"; Val.RStr "{}";
                                Val.RInt 5000; Val.RInt 0; Val.RNil; Val.RNil])))
              Sample.scripts (fun _ => None) Sample.quietHandler Sample.quietHandler
              (Consumer.mkConsumeArgs "demo" None None None None None None
                 (Some true) None None)
              (JsNum.ofZ 0) (JsNum.ofZ 0)
              (Val.RStr "job1") (Val.RStr "{}") (Val.RInt 5000) (Val.RInt 0)
              Val.RNil Val.RNil [] initialWorld)
    as (A & B & _).
  - reflexivity.
  - intros n ka. reflexivity.
  - now left.
  - split; [exact A | exact B].
Defined.

Lemma cluster_probe_falls_back_to_standalone_witness :
  clusterRefusal Sample.notACluster
  /\ Transport.buildRedisClient (Done (Throw Sample.notACluster)) (Done (Ok tt))
       Sample.clusterOnHost
     = (Done (Ok (Transport.HostClient (Some "localhost") (JsNum.ofZ 6379)
                    (JsNum.ofZ 0) None None false None None)),
        [Transport.Ping; Transport.Quit]).
Proof.
  assert (R : clusterRefusal Sample.notACluster).
  { left. exists "ERR This instance has ", "cluster support disabled", EmptyString.
    split; reflexivity. }
  split; [exact R|].
  destruct (cluster_probe_falls_back_to_standalone
              (Done (Throw Sample.notACluster)) (Done (Ok tt))
              Sample.clusterOnHost Sample.notACluster)
    as [F _].
  - reflexivity.
  - reflexivity.
  - reflexivity.
  - apply F; [exact R | discriminate].
Defined.

Lemma cluster_mode_needs_a_host_besides_the_url_witness :
  Transport.buildRedisClient (Done (Ok tt)) (Done (Ok tt)) Sample.clusterOnUrl
  = (Done (Throw (Error "RedisConnOpts requires host (or redis_url / cluster_nodes)")),
     []).
Proof.
  apply (cluster_mode_needs_a_host_besides_the_url (Done (Ok tt)) (Done (Ok tt))
           Sample.clusterOnUrl "redis://localhost:6379").
  - reflexivity.
  - reflexivity.
  - reflexivity.
Defined.

Lemma defaultScriptsDir_holds_enqueue_witness :
  ScriptFiles.defaultScriptsDir Sample.installed
  = Ok "/app/node_modules/omniq/dist/core/scripts"
  /\ hasEnqueue Sample.installed "/app/node_modules/omniq/dist/core/scripts" = true.
Proof.
  assert (E : ScriptFiles.defaultScriptsDir Sample.installed
              = Ok "/app/node_modules/omniq/dist/core/scripts")
    by (vm_compute; reflexivity).
  split; [exact E|].
  exact (proj1 (defaultScriptsDir_holds_enqueue Sample.installed _ E)).
Defined.

Lemma publish_sends_the_given_id_or_a_ulid_witness :
  exists rest,
    trace (after (Ops.publish
                    (Sample.answering (Ok (Val.RArr [Val.RStr "OK"; Val.RStr "x"])))
                    Sample.scripts
                    (Ops.mkPublishArgs "demo" (Val.VObj []) (Some EmptyString)
                       None None None None None None None))
             initialWorld)
    = (trace initialWorld
       ++ Sent (Evalsha "sha:enqueue" 1
                  ["{demo}:meta"; "01J0000000000000000000000A"; "{}"; "3"; "30000";
                   "5000"; "1700000000123"; "0"; EmptyString; "0"])
          :: rest)%list.
Proof.
  destruct (publish_sends_the_given_id_or_a_ulid
              (Sample.answering (Ok (Val.RArr [Val.RStr "OK"; Val.RStr "x"])))
              Sample.scripts
              (Ops.mkPublishArgs "demo" (Val.VObj []) (Some EmptyString)
                 None None None None None None None)
              initialWorld)
    as (rest & E).
  - reflexivity.
  - exists rest. rewrite E. vm_compute. reflexivity.
Defined.

Lemma script_errors_surface_with_their_reason_witness :
  fst (Ops.heartbeat Sample.leaseGone Sample.scripts
         (Consumer.leaseOf "demo" Sample.job) initialWorld)
  = Done (Throw (Error "HEARTBEAT failed: NOT_ACTIVE"))
  /\ fst (Ops.ack_success Sample.leaseGone Sample.scripts
            (Consumer.leaseOf "demo" Sample.job) initialWorld)
     = Done (Throw (Error "ACK_SUCCESS failed: NOT_ACTIVE")).
Proof.
  destruct (script_errors_surface_with_their_reason Sample.leaseGone Sample.scripts
              "NOT_ACTIVE" (Consumer.leaseOf "demo" Sample.job)
              (Ops.mkAckFailArgs "demo" "job1" "token1" None None)
              (Ops.mkPublishArgs "demo" (Val.VObj []) None None None None None
                 None None None)
              "demo" "job1" "failed" "doc" None (JsNum.ofZ 1) "{cc:doc}:meta"
              initialWorld)
    as (A & B & _).
  - intros n c. reflexivity.
  - split; [exact A | exact B].
Defined.

Lemma create_returns_loaded_scripts_witness :
  exists c loaded probes steps,
    Client.create Sample.installed (Done (Ok tt)) (Done (Ok tt))
      (Client.mkClientOpts Sample.clusterOnHost None None)
    = (Done (Ok (c, loaded)), (probes, steps))
    /\ probes = [Transport.Ping]
    /\ loadedFrom Sample.installed "/app/node_modules/omniq/dist/core/scripts" 0
         (scriptFiles loaded).
Proof.
  destruct (Client.create Sample.installed (Done (Ok tt)) (Done (Ok tt))
              (Client.mkClientOpts Sample.clusterOnHost None None))
    as [[[[c loaded]|e]|] [probes steps]] eqn:E.
  - exists c, loaded, probes, steps. split; [reflexivity|].
    destruct (create_returns_loaded_scripts _ _ _ _ _ _ _ _ E)
      as (B & dir & D & Ld & _).
    cbn [Client.redis Client.scriptsDir] in B, D.
    vm_compute in B. vm_compute in D.
    injection B as _ <-. injection D as <-. now split.
  - vm_compute in E. discriminate.
  - vm_compute in E. discriminate.
Defined.
